(** * tbx-proxy: resolution pipeline, upstream client, manifest rewriter,
      segment relay and D1 store, embedded in Rocq.

    Sources: [src/src/handlers.js], [src/src/m3u8.js], [src/src/utils.js]
    (last copy in the file) and [src/unnamed/part_001] (the D1 helpers,
    imported by the handlers as [./db.js]). *)

From Stdlib Require Import ZArith List String Ascii Bool Lia Permutation.
Import ListNotations.
Set Warnings "-register-all".
Open Scope string_scope.
Open Scope Z_scope.
Open Scope list_scope.

(* ------------------------------------------------------------------ *)
(** ** JSON values and JavaScript truthiness *)

Inductive json : Type :=
| JNull
| JBool (b : bool)
| JNum (n : Z)
| JStr (s : string)
| JArr (xs : list json)
| JObj (fields : list (string * json)).

(** A property read [o.k] yields [undefined] ([None]) when [o] is not an
    object or has no field [k]. *)
Definition jfield (o : option json) (k : string) : option json :=
  match o with
  | Some (JObj fs) =>
      match find (fun p => String.eqb (fst p) k) fs with
      | Some (_, v) => Some v
      | None => None
      end
  | _ => None
  end.

(** JavaScript truthiness of a value ([None] is [undefined]). *)
Definition truthy (v : option json) : bool :=
  match v with
  | None | Some JNull => false
  | Some (JBool b) => b
  | Some (JNum n) => negb (n =? 0)
  | Some (JStr s) => negb (String.eqb s "")
  | Some (JArr _) | Some (JObj _) => true
  end.

(** [a || b] on values: the first operand when truthy, else the second. *)
Definition js_or (a b : option json) : option json :=
  if truthy a then a else b.

(** [x?.length] for strings and arrays. *)
Definition js_length (v : option json) : option Z :=
  match v with
  | Some (JStr s) => Some (Z.of_nat (String.length s))
  | Some (JArr xs) => Some (Z.of_nat (List.length xs))
  | _ => None
  end.

(* ------------------------------------------------------------------ *)
(** ** HTTP responses, outbound effects and the request monad *)

(** An upstream response: status, body text, and the result of
    [res.json()] ([None] when the body is not JSON). *)
Record http_response := mkResp {
  status : Z;
  body_text : string;
  body_json : option json
}.

Definition resp_ok (r : http_response) : bool :=
  (200 <=? status r) && (status r <=? 299).

(** What one [fetch] call produces: a response, or a network error. *)
Inductive outcome :=
| Resp (r : http_response)
| NetErr (msg : string).

(** Observable effects of a handler, in the order they are issued. *)
Inductive event :=
| EFetch (url : string)
| ESleep (ms : Z)
| EKvGet (key : string)
| EKvPut (key : string) (v : json) (ttl : Z)
| EKvDelete (key : string)
| ED1Get (share_id : string)
| ED1Store (share_id : string) (payload : json).

(** Handler state: the scripted outcomes of the successive [fetch] calls
    (a test double for the network) and the trace of issued effects. *)
Record st := mkSt {
  script : list outcome;
  trace : list event
}.

Definition M (A : Type) : Type := st -> A * st.

Definition ret {A} (a : A) : M A := fun s => (a, s).
Definition bind {A B} (m : M A) (k : A -> M B) : M B :=
  fun s => let '(a, s') := m s in k a s'.

Notation "x <- m ;; k" := (bind m (fun x => k))
  (at level 61, m at next level, right associativity).
Notation "m ;;; k" := (bind m (fun _ => k))
  (at level 61, right associativity).

Definition emit (e : event) : M unit :=
  fun s => (tt, mkSt (script s) (trace s ++ [e])).

(** [fetch(url)]: logs the call and consumes the next scripted outcome;
    an exhausted script behaves as a network error. *)
Definition fetch (url : string) : M outcome :=
  fun s =>
    match script s with
    | o :: rest => (o, mkSt rest (trace s ++ [EFetch url]))
    | [] => (NetErr "", mkSt [] (trace s ++ [EFetch url]))
    end.

Definition sleep (ms : Z) : M unit := emit (ESleep ms).

(* ------------------------------------------------------------------ *)
(** ** Upstream client: [isTransientStatus] and [fetchWithRetry] *)

Definition isTransientStatus (s : Z) : bool :=
  (s =? 408) || (s =? 429) || ((500 <=? s) && (s <=? 599)).

(** Result of [fetchWithRetry]: a returned response or a thrown error. *)
Inductive fetch_result :=
| FRes (r : http_response)
| FThrow (msg : string).

(** The [for (attempt = 0; attempt <= retries; attempt++)] loop; [fuel]
    counts the iterations left. *)
Fixpoint retry_loop (url : string) (retries : nat) (baseDelayMs : Z)
    (attempt : nat) (fuel : nat) (lastErr : option string) : M fetch_result :=
  match fuel with
  | O => ret (FThrow (match lastErr with
                      | Some e => e
                      | None => "Upstream request failed"
                      end))
  | S fuel' =>
      o <- fetch url ;;
      match o with
      | Resp res =>
          if resp_ok res || negb (isTransientStatus (status res))
             || Nat.eqb attempt retries
          then ret (FRes res)
          else
            sleep (baseDelayMs * 2 ^ Z.of_nat attempt) ;;;
            retry_loop url retries baseDelayMs (S attempt) fuel'
              (Some "Transient upstream status")
      | NetErr err =>
          if Nat.eqb attempt retries then ret (FThrow err)
          else
            sleep (baseDelayMs * 2 ^ Z.of_nat attempt) ;;;
            retry_loop url retries baseDelayMs (S attempt) fuel' (Some err)
      end
  end.

Definition fetchWithRetry (url : string) (retries : nat) (baseDelayMs : Z)
  : M fetch_result :=
  retry_loop url retries baseDelayMs 0 (S retries) None.

(** Specification vocabulary for the retry contract. *)

(** An outcome that ends the retry loop before the last attempt: an ok or
    non-transient response. *)
Definition stops (o : outcome) : bool :=
  match o with
  | Resp r => resp_ok r || negb (isTransientStatus (status r))
  | NetErr _ => false
  end.

(** The outcome the [i]-th [fetch] call sees. *)
Definition nth_out (os : list outcome) (i : nat) : outcome :=
  nth i os (NetErr "").

Definition result_of (o : outcome) : fetch_result :=
  match o with
  | Resp r => FRes r
  | NetErr m => FThrow m
  end.

(** Trace of attempts [a .. a+k]: a fetch, then for each further attempt
    the delay [base * 2^i] after attempt [i] followed by the next fetch. *)
Definition attempts_from (url : string) (base : Z) (a k : nat) : list event :=
  EFetch url
    :: flat_map (fun i => [ESleep (base * 2 ^ Z.of_nat i); EFetch url])
                (seq a k).

Definition status_resp (s : Z) : outcome := Resp (mkResp s "" None).

(* ------------------------------------------------------------------ *)
(** ** Handler responses *)

(** What a handler resolves to: an [errorJson] envelope, a
    [Response.json(body)] with status 200, the relayed upstream response
    of the segment relay, or a rejection (an exception escaping the
    handler). *)
Inductive response :=
| RError (status : Z) (message code : string) (details : option json)
         (required : option (list string))
| RJson (body : json)
| RRelay (status : Z) (upstream : http_response)
| RThrow (msg : string).

(** [errorJson(status, message, code, details, required)] *)
Definition errorJson (st : Z) (message code : string) (details : option json)
  (required : option (list string)) : response :=
  RError st message code details required.

(** [badRequest(msg, required)] *)
Definition badRequest (msg : string) (required : option (list string))
  : response :=
  errorJson 400 msg "bad_request" None required.

(** Query parameters: [params.get(name)]. *)
Definition params := string -> option string.

(* ------------------------------------------------------------------ *)
(** ** Segment relay: [ALLOWED_SEGMENT_DOMAINS], [isAllowedSegmentUrl],
       [handleSegment] *)

Definition ALLOWED_SEGMENT_DOMAINS : list string :=
  [ "terabox.com"; "terabox.app"; "1024tera.com"; "1024terabox.com";
    "freeterabox.com"; "teraboxcdn.com"; "dm.terabox.app";
    "dm.1024tera.com"; "terasharelink.com"; "terafileshare.com";
    "teraboxlink.com"; "teraboxshare.com" ].

(** [s.endsWith(suf)] *)
Definition ends_with (s suf : string) : bool :=
  let n := String.length s in
  let m := String.length suf in
  Nat.leb m n && String.eqb (substring (n - m) m s) suf.

(** [isAllowedSegmentUrl]. The platform's [new URL(s).hostname] is the
    parameter [hostname_of]: [None] when the constructor throws. *)
Definition isAllowedSegmentUrl (hostname_of : string -> option string)
    (urlString : string) : bool :=
  match hostname_of urlString with
  | None => false
  | Some hostname =>
      existsb (fun domain => String.eqb hostname domain
                             || ends_with hostname ("." ++ domain)%string)
              ALLOWED_SEGMENT_DOMAINS
  end.

(** [handleSegment]: the request headers forwarded to the upstream and the
    headers passed back are not modelled; the fetch is a single call, no
    retry. An empty [url] parameter is falsy and counts as missing. *)
Definition handleSegment (hostname_of : string -> option string)
    (p : params) : M response :=
  match p "url" with
  | None => ret (badRequest "Missing url param" (Some ["url"]))
  | Some targetUrl =>
      if String.eqb targetUrl "" then
        ret (badRequest "Missing url param" (Some ["url"]))
      else if negb (isAllowedSegmentUrl hostname_of targetUrl) then
        ret (errorJson 403
               "Invalid segment URL: only TeraBox domains allowed"
               "invalid_segment_url" None None)
      else
        o <- fetch targetUrl ;;
        match o with
        | Resp res => ret (RRelay (status res) res)
        | NetErr m => ret (RThrow m)
        end
  end.

(** A host extractor for [scheme://host[:port][/...]] URLs, used to run the
    relay on concrete URLs. *)
Fixpoint host_prefix (s : string) : string :=
  match s with
  | EmptyString => EmptyString
  | String c rest =>
      if existsb (Ascii.eqb c) ["/"; "?"; "#"; ":"]%char then EmptyString
      else String c (host_prefix rest)
  end.

Fixpoint after_scheme (s : string) : option string :=
  match s with
  | String ":" (String "/" (String "/" rest)) => Some rest
  | String _ rest => after_scheme rest
  | EmptyString => None
  end.

Definition simple_hostname (u : string) : option string :=
  match after_scheme u with
  | Some rest => let h := host_prefix rest in
                 if String.eqb h "" then None else Some h
  | None => None
  end.

(* ------------------------------------------------------------------ *)
(** ** Strings: [split], [join], [startsWith], [trim] *)

(** [s.split(sep)] for a one-character separator. *)
Fixpoint split_on (sep : ascii) (s : string) : list string :=
  match s with
  | EmptyString => [EmptyString]
  | String c rest =>
      if Ascii.eqb c sep then EmptyString :: split_on sep rest
      else match split_on sep rest with
           | [] => [String c EmptyString]
           | x :: xs => String c x :: xs
           end
  end.

(** [xs.join(sep)] *)
Fixpoint join_with (sep : ascii) (xs : list string) : string :=
  match xs with
  | [] => EmptyString
  | [x] => x
  | x :: rest => (x ++ String sep (join_with sep rest))%string
  end.

Definition newline : ascii := ascii_of_nat 10.

(** [s.startsWith(p)] *)
Definition starts_with (s p : string) : bool := String.prefix p s.

(** The white space [trim()] removes, for one-byte characters. *)
Definition is_js_space (c : ascii) : bool :=
  let n := nat_of_ascii c in
  ((9 <=? n) && (n <=? 13))%nat || (n =? 32)%nat.

(** [s.trim() === ''] *)
Fixpoint trim_is_empty (s : string) : bool :=
  match s with
  | EmptyString => true
  | String c rest => is_js_space c && trim_is_empty rest
  end.

(* ------------------------------------------------------------------ *)
(** ** URLs and [URLSearchParams] (application/x-www-form-urlencoded) *)

Definition hex_digit (n : nat) : ascii :=
  if (n <? 10)%nat then ascii_of_nat (48 + n) else ascii_of_nat (55 + n).

Definition hex_val (c : ascii) : option nat :=
  let n := nat_of_ascii c in
  if ((48 <=? n) && (n <=? 57))%nat then Some (n - 48)%nat
  else if ((65 <=? n) && (n <=? 70))%nat then Some (n - 55)%nat
  else if ((97 <=? n) && (n <=? 102))%nat then Some (n - 87)%nat
  else None.

(** Bytes the urlencoded serializer leaves as they are. *)
Definition form_unreserved (c : ascii) : bool :=
  let n := nat_of_ascii c in
  ((48 <=? n) && (n <=? 57))%nat || ((65 <=? n) && (n <=? 90))%nat
  || ((97 <=? n) && (n <=? 122))%nat
  || existsb (Ascii.eqb c) ["*"; "-"; "."; "_"]%char.

Definition form_encode_char (c : ascii) : string :=
  if Ascii.eqb c " " then "+"
  else if form_unreserved c then String c EmptyString
  else String "%" (String (hex_digit (nat_of_ascii c / 16))
                    (String (hex_digit (nat_of_ascii c mod 16)) EmptyString)).

(** The urlencoded byte serializer (strings are UTF-8 byte strings). *)
Fixpoint form_encode (s : string) : string :=
  match s with
  | EmptyString => EmptyString
  | String c rest => (form_encode_char c ++ form_encode rest)%string
  end.

(** The urlencoded parser's decoding of a name or value: [+] is a space,
    [%XY] with two hex digits is the byte [XY]. *)
Fixpoint form_decode (s : string) : string :=
  match s with
  | EmptyString => EmptyString
  | String "%" ((String h1 (String h2 rest)) as t) =>
      match hex_val h1, hex_val h2 with
      | Some a, Some b => String (ascii_of_nat (16 * a + b)) (form_decode rest)
      | _, _ => String "%" (form_decode t)
      end
  | String "+" rest => String " " (form_decode rest)
  | String c rest => String c (form_decode rest)
  end.

(** Split at the first [=]. *)
Fixpoint split_eq (s : string) : string * string :=
  match s with
  | EmptyString => (EmptyString, EmptyString)
  | String "=" rest => (EmptyString, rest)
  | String c rest => let '(n, v) := split_eq rest in (String c n, v)
  end.

(** The urlencoded parser: the list of name/value pairs of a query. *)
Definition parse_query (q : string) : list (string * string) :=
  map (fun piece => let '(n, v) := split_eq piece in
                    (form_decode n, form_decode v))
      (filter (fun piece => negb (String.eqb piece "")) (split_on "&" q)).

Definition serialize_query (ps : list (string * string)) : string :=
  join_with "&" (map (fun '(n, v) => (form_encode n ++ "=" ++ form_encode v)%string) ps).

(** [searchParams.get(name)] *)
Definition query_get (q : string) (name : string) : option string :=
  match find (fun p => String.eqb (fst p) name) (parse_query q) with
  | Some (_, v) => Some v
  | None => None
  end.

(** [searchParams.set(name, value)]: replaces the first pair with that name
    and drops the others, or appends. *)
Fixpoint params_set (ps : list (string * string)) (name value : string)
  : list (string * string) :=
  match ps with
  | [] => [(name, value)]
  | (n, v) :: rest =>
      if String.eqb n name
      then (name, value) :: filter (fun p => negb (String.eqb (fst p) name)) rest
      else (n, v) :: params_set rest name value
  end.

(** A parsed URL: everything before the query (scheme, host, port, path),
    the query without its [?], and the fragment without its [#]. *)
Record url := mkUrl {
  url_pre : string;
  url_query : string;
  url_hash : string
}.

(** [url.toString()] *)
Definition url_toString (u : url) : string :=
  (url_pre u
   ++ (if String.eqb (url_query u) "" then "" else "?" ++ url_query u)
   ++ (if String.eqb (url_hash u) "" then "" else "#" ++ url_hash u))%string.

(** [u.searchParams.set(name, value)] *)
Definition url_set_param (u : url) (name value : string) : url :=
  mkUrl (url_pre u)
        (serialize_query (params_set (parse_query (url_query u)) name value))
        (url_hash u).

(* ------------------------------------------------------------------ *)
(** ** Manifest rewriter: [rewriteM3U8] *)

(** The request URL is taken as parsed; [new URL(base.toString())]
    re-parses the serialization of [base], which gives [base] back. *)
Definition rewriteM3U8 (content : string) (request_url : url) : string :=
  let base := mkUrl (url_pre request_url) "" (url_hash request_url) in
  join_with newline
    (map (fun line =>
            if starts_with line "#" || trim_is_empty line
               || negb (starts_with line "http")
            then line
            else
              let u := url_set_param (url_set_param base "mode" "segment")
                                     "url" line in
              url_toString u)
         (split_on newline content)).

(* ------------------------------------------------------------------ *)
(** ** Helpers of the resolution pipeline *)

(** [ToInt32] *)
Definition to_int32 (z : Z) : Z :=
  let m := z mod 2 ^ 32 in if 2 ^ 31 <=? m then m - 2 ^ 32 else m.

Definition digit36 (d : Z) : ascii :=
  if d <? 10 then ascii_of_nat (48 + Z.to_nat d)
  else ascii_of_nat (87 + Z.to_nat d).

Fixpoint base36_aux (fuel : nat) (n : Z) (acc : string) : string :=
  match fuel with
  | O => acc
  | S f =>
      let acc' := String (digit36 (n mod 36)) acc in
      if n / 36 =? 0 then acc' else base36_aux f (n / 36) acc'
  end.

(** [n.toString(36)] for a non-negative integer below [36^16]. *)
Definition to_base36 (n : Z) : string := base36_aux 16 n EmptyString.

(** [hashString]: djb2 over the character codes, kept to 32 bits. *)
Fixpoint hash_loop (h : Z) (s : string) : Z :=
  match s with
  | EmptyString => h
  | String c rest =>
      hash_loop (to_int32 (to_int32 (h * 32) + h + Z.of_nat (nat_of_ascii c)))
                rest
  end.

Definition hashString (input : string) : string :=
  to_base36 (Z.abs (hash_loop 5381 input)).

(** [findBetween] with [String.index] as [indexOf]. *)
Definition findBetween (str start fin : string) : option string :=
  match String.index 0 start str with
  | None => None
  | Some i =>
      match String.index (i + String.length start) fin str with
      | None => None
      | Some j =>
          Some (substring (i + String.length start)
                          (j - (i + String.length start)) str)
      end
  end.

Definition extractJsToken (html : string) : option string :=
  findBetween html "fn%28%22" "%22%29".

Definition buildApiUrl (jsToken shorturl root : string) : string :=
  let u := mkUrl "https://dm.terabox.app/share/list" "" "" in
  url_toString (url_set_param (url_set_param (url_set_param u
                  "jsToken" jsToken) "shorturl" shorturl) "root" root).

Definition pageUrl (surl : string) : string :=
  url_toString (url_set_param (mkUrl "https://www.terabox.app/sharing/link" "" "")
                              "surl" surl).

Fixpoint digits_value (s : string) (acc : Z) : option Z :=
  match s with
  | EmptyString => Some acc
  | String c rest =>
      let n := Z.of_nat (nat_of_ascii c) in
      if (48 <=? n) && (n <=? 57) then digits_value rest (acc * 10 + (n - 48))
      else None
  end.

Fixpoint trim_start (s : string) : string :=
  match s with
  | String c rest => if is_js_space c then trim_start rest else s
  | EmptyString => EmptyString
  end.

Definition trim (s : string) : string :=
  string_of_list_ascii (rev (list_ascii_of_string
    (trim_start (string_of_list_ascii (rev (list_ascii_of_string
      (trim_start s))))))).

(** [Number(v)] on integers ([None] is NaN): decimal strings with an
    optional sign; arrays and objects are taken as NaN. *)
Definition js_Number (v : option json) : option Z :=
  match v with
  | None => None
  | Some JNull => Some 0
  | Some (JBool b) => Some (if b then 1 else 0)
  | Some (JNum n) => Some n
  | Some (JStr s) =>
      match trim s with
      | EmptyString => Some 0
      | String "-" (String _ _ as ds) => option_map Z.opp (digits_value ds 0)
      | String "+" (String _ _ as ds) => digits_value ds 0
      | ds => digits_value ds 0
      end
  | Some (JArr _) | Some (JObj _) => None
  end.

(** A number as [JSON.stringify] writes it ([NaN] as [null]). *)
Definition num_json (n : option Z) : json :=
  match n with Some z => JNum z | None => JNull end.

(** [x?.length] ([undefined] for [null], [undefined], numbers, booleans). *)
Definition js_length_of (v : option json) : option json :=
  match v with
  | Some (JStr s) => Some (JNum (Z.of_nat (String.length s)))
  | Some (JArr xs) => Some (JNum (Z.of_nat (List.length xs)))
  | Some (JObj _) => jfield v "length"
  | _ => None
  end.

(** [x[0]] *)
Definition js_index0 (v : option json) : option json :=
  match v with
  | Some (JArr (x :: _)) => Some x
  | Some (JStr (String c _)) => Some (JStr (String c EmptyString))
  | Some (JObj _) => jfield v "0"
  | _ => None
  end.

(** [list?.some(f => f.dlink) || false]; [None] when it throws: [some]
    is not a function on the value, or the scan reaches a [null] element
    before an element with a truthy [dlink] ([null.dlink] is a
    [TypeError]). *)
Fixpoint some_dlink_arr (xs : list json) : option bool :=
  match xs with
  | [] => Some false
  | JNull :: _ => None
  | f :: rest => if truthy (jfield (Some f) "dlink") then Some true else some_dlink_arr rest
  end.

Definition some_dlink (list : option json) : option bool :=
  match list with
  | None | Some JNull => Some false
  | Some (JArr xs) => some_dlink_arr xs
  | Some _ => None
  end.

(** An object literal: properties holding [undefined] are dropped. *)
Definition obj (fs : list (string * option json)) : json :=
  JObj (flat_map (fun '(k, v) => match v with
                                 | Some x => [(k, x)]
                                 | None => []
                                 end) fs).

Definition dlink_note : string := "dlink requires valid TeraBox cookies to download".

(** [{source, ...(!hasDlink && {note}), [key]: payload}] *)
Definition envelope (source : string) (hasDlink : bool) (key : string)
    (payload : json) : json :=
  JObj ([("source", JStr source)]
        ++ (if hasDlink then [] else [("note", JStr dlink_note)])
        ++ [(key, payload)]).

(* ------------------------------------------------------------------ *)
(** ** The worker environment *)

(** The result of a storage read: the value ([None] for [null]) or an
    exception. *)
Inductive io (A : Type) :=
| IOk (v : option A)
| IThrow.
Arguments IOk {A} v.
Arguments IThrow {A}.

(** The bindings and request data [handleResolve] reads. The KV namespace
    [SHARE_KV] is the fast cache and the token store, [sharedfile] the D1
    database. When a binding is absent, calling a method on it throws. *)
Record env := mkEnv {
  kv_bound : bool;
  kv_get_json : string -> io json;     (* SHARE_KV.get(key, {type:'json'}) *)
  kv_get_text : string -> io string;   (* SHARE_KV.get(key) *)
  kv_put_fails : string -> bool;
  kv_delete_fails : string -> bool;
  d1_bound : bool;
  d1_get : string -> io json;          (* getShareFromDb(sharedfile, id) *)
  cookie : string;                     (* request Cookie header, or '' *)
  now_ms : Z                           (* Date.now() *)
}.

Definition kv_read_json (e : env) (key : string) : M (io json) :=
  if kv_bound e then emit (EKvGet key) ;;; ret (kv_get_json e key)
  else ret IThrow.

Definition kv_read_text (e : env) (key : string) : M (io string) :=
  if kv_bound e then emit (EKvGet key) ;;; ret (kv_get_text e key)
  else ret IThrow.

(** [try { await SHARE_KV.put(...) } catch {}]: the outcome only feeds the
    metrics, which are not modelled. *)
Definition kv_put (e : env) (key : string) (v : json) (ttl : Z) : M unit :=
  if kv_bound e then
    emit (EKvPut key v ttl) ;;;
    (if kv_put_fails e key then ret tt else ret tt)
  else ret tt.

Definition kv_delete (e : env) (key : string) : M unit :=
  if kv_bound e then
    emit (EKvDelete key) ;;;
    (if kv_delete_fails e key then ret tt else ret tt)
  else ret tt.

Definition d1_read (e : env) (id : string) : M (io json) :=
  emit (ED1Get id) ;;; ret (d1_get e id).

(* ------------------------------------------------------------------ *)
(** ** Resolution pipeline: [handleResolve] *)

(** [err?.message || 'network_error'] *)
Definition err_details (m : string) : option json :=
  Some (JStr (if String.eqb m "" then "network_error" else m)).

Definition status_details (r : http_response) : option json :=
  Some (JObj [("status", JNum (status r))]).

(** The canonical record built from [upstream] and its first file. *)
Definition canonical_record (e : env) (surl : string) (upstream file : json)
  : json :=
  let now := now_ms e / 1000 in
  let thumbs := jfield (Some file) "thumbs" in
  obj [("name", jfield (Some file) "server_filename");
       ("dlink", jfield (Some file) "dlink");
       ("size", Some (num_json (js_Number (jfield (Some file) "size"))));
       ("time", Some (num_json (js_Number (jfield (Some file) "server_mtime"))));
       ("original_url", Some (JStr ("https://terabox.app/s/" ++ surl)%string));
       ("thumb", js_or (jfield thumbs "url3")
                   (js_or (jfield thumbs "url2")
                      (js_or (jfield thumbs "url1") (Some JNull))));
       ("uk", jfield (Some upstream) "uk");
       ("shareid", js_or (jfield (Some upstream) "shareid")
                         (jfield (Some upstream) "share_id"));
       ("fid", jfield (Some file) "fs_id");
       ("stored_at", Some (JNum now));
       ("last_verified", Some (JNum now))].

(** Lines 223-293: check the API response, persist it, answer. *)
Definition after_api (e : env) (surl : string) (raw : bool)
    (apiRes : http_response) : M response :=
  if negb (resp_ok apiRes) then
    ret (errorJson 502 "Upstream API request failed" "upstream_error"
           (status_details apiRes) None)
  else
  match body_json apiRes with
  | None =>
      ret (errorJson 502 "Upstream returned non-JSON" "upstream_non_json"
             (status_details apiRes) None)
  | Some upstream =>
      let list := jfield (Some upstream) "list" in
      if negb (truthy (js_length_of list)) then
        ret (errorJson 502 "Empty share list from upstream" "upstream_empty"
               None None)
      else
        (if d1_bound e then emit (ED1Store surl upstream) else ret tt) ;;;
        if raw then
          match some_dlink list with
          | None => ret (RThrow "TypeError")
          | Some hasDlink => ret (RJson (envelope "live" hasDlink "upstream" upstream))
          end
        else
          match js_index0 list with
          | None => ret (RThrow "TypeError")
          (* [file.server_filename] on a [null] first element *)
          | Some JNull => ret (RThrow "TypeError")
          | Some file =>
              let record := canonical_record e surl upstream file in
              kv_put e ("share:" ++ surl)%string record (7 * 24 * 60 * 60) ;;;
              ret (RJson (envelope "live" (truthy (jfield (Some record) "dlink"))
                                   "data" record))
          end
  end.

(** [fetchApiWithToken(jsToken)] and what follows it. *)
Definition api_then_finish (e : env) (surl : string) (raw : bool)
    (jsToken : string) : M response :=
  r <- fetchWithRetry (buildApiUrl jsToken surl "1") 2 200 ;;
  match r with
  | FThrow m => ret (errorJson 502 "Upstream API request failed" "upstream_error"
                      (err_details m) None)
  | FRes apiRes => after_api e surl raw apiRes
  end.

(** Lines 178-221: fetch the share page, scrape a token, cache it, call the
    API with it. *)
Definition scrape_path (e : env) (surl : string) (raw : bool)
    (tokenKey : option string) : M response :=
  r <- fetchWithRetry (pageUrl surl) 2 200 ;;
  match r with
  | FThrow m => ret (errorJson 502 "Upstream page request failed" "upstream_error"
                      (err_details m) None)
  | FRes pageRes =>
      if negb (resp_ok pageRes) then
        ret (errorJson 502 "Upstream page request failed" "upstream_error"
               (status_details pageRes) None)
      else
        match extractJsToken (body_text pageRes) with
        | None | Some EmptyString =>
            ret (errorJson 403 "Failed to extract jsToken" "token_extract_failed"
                   None None)
        | Some jsToken =>
            (match tokenKey with
             | Some k => kv_put e k (JStr jsToken) (10 * 60)
             | None => ret tt
             end) ;;;
            api_then_finish e surl raw jsToken
        end
  end.

Definition token_key (e : env) (surl : string) : option string :=
  if kv_bound e then
    Some ("token:" ++ surl ++ ":"
          ++ (if String.eqb (cookie e) "" then "anon" else hashString (cookie e)))%string
  else None.

(** Lines 135-221: the live path. *)
Definition resolve_live (e : env) (surl : string) (raw : bool) : M response :=
  let tokenKey := token_key e surl in
  cached <- (match tokenKey with
             | Some k => kv_read_text e k
             | None => ret (IOk None)
             end) ;;
  match tokenKey, cached with
  | Some k, IOk (Some (String _ _ as jsToken)) =>
      r <- fetchWithRetry (buildApiUrl jsToken surl "1") 2 200 ;;
      match r with
      | FThrow m => ret (errorJson 502 "Upstream API request failed"
                           "upstream_error" (err_details m) None)
      | FRes apiRes =>
          if (status apiRes =? 401) || (status apiRes =? 403) then
            kv_delete e k ;;; scrape_path e surl raw tokenKey
          else after_api e surl raw apiRes
      end
  | _, _ => scrape_path e surl raw tokenKey
  end.

(** Lines 115-132: the durable-store tier (raw mode without refresh). *)
Definition resolve_d1_then_live (e : env) (surl : string) (refresh raw : bool)
  : M response :=
  if raw && negb refresh && d1_bound e then
    r <- d1_read e surl ;;
    match r with
    | IOk (Some d1Data) =>
        if truthy (Some d1Data) then
          match some_dlink (jfield (Some d1Data) "list") with
          | Some hasDlink => ret (RJson (envelope "d1" hasDlink "data" d1Data))
          | None => resolve_live e surl raw      (* TypeError, caught *)
          end
        else resolve_live e surl raw
    | _ => resolve_live e surl raw
    end
  else resolve_live e surl raw.

Definition param_is_one (v : option string) : bool :=
  match v with Some x => String.eqb x "1" | None => false end.

(** [handleResolve]; the metrics calls are not modelled. *)
Definition handleResolve (e : env) (p : params) : M response :=
  let refresh := param_is_one (p "refresh") in
  let raw := param_is_one (p "raw") in
  match p "surl" with
  | None | Some EmptyString => ret (badRequest "Missing surl" None)
  | Some surl =>
      let kvKey := ("share:" ++ surl)%string in
      if negb refresh && negb raw then
        r <- kv_read_json e kvKey ;;
        match r with
        | IOk (Some stored) =>
            if truthy (Some stored) then
              ret (RJson (envelope "kv" (truthy (jfield (Some stored) "dlink"))
                                   "data" stored))
            else resolve_d1_then_live e surl refresh raw
        | _ => resolve_d1_then_live e surl refresh raw
        end
      else resolve_d1_then_live e surl refresh raw
  end.

(** The environment with another outcome for fast-cache writes. *)
Definition with_put_fails (e : env) (f : string -> bool) : env :=
  mkEnv (kv_bound e) (kv_get_json e) (kv_get_text e) f (kv_delete_fails e)
        (d1_bound e) (d1_get e) (cookie e) (now_ms e).

(* ------------------------------------------------------------------ *)
(** ** D1 store: [saveShare], [saveMediaFile], [saveThumbnails],
       [storeUpstreamData] (src/unnamed/part_001) *)

Definition digit10 (d : Z) : ascii := ascii_of_nat (48 + Z.to_nat d).

Fixpoint dec_aux (fuel : nat) (n : Z) (acc : string) : string :=
  match fuel with
  | O => acc
  | S f =>
      let acc' := String (digit10 (n mod 10)) acc in
      if n / 10 =? 0 then acc' else dec_aux f (n / 10) acc'
  end.

(** [String(n)] for an integer. *)
Definition z_to_dec (n : Z) : string :=
  if n <? 0 then String "-" (dec_aux 40 (- n) EmptyString)
  else dec_aux 40 n EmptyString.

(** The text a bound [fs_id] is compared as in the [TEXT] key column;
    [None] when the value cannot be bound ([undefined]) or is [NULL]. *)
Definition fs_key (v : option json) : option string :=
  match v with
  | Some (JStr s) => Some s
  | Some (JNum n) => Some (z_to_dec n)
  | _ => None
  end.

(** A bound value: [undefined || null] and the like end as [NULL]. *)
Definition sql (v : option json) : json :=
  match v with Some x => x | None => JNull end.

(** [v?.toString() || null] (arrays printed as objects). *)
Definition to_string_or_null (v : option json) : json :=
  let str := match v with
             | None | Some JNull => None
             | Some (JStr s) => Some s
             | Some (JNum n) => Some (z_to_dec n)
             | Some (JBool b) => Some (if b then "true" else "false")
             | Some (JArr _) | Some (JObj _) => Some "[object Object]"
             end in
  match str with
  | Some (String _ _ as x) => JStr x
  | _ => JNull
  end.

Record share_row := mkShareRow {
  sh_share_id : string;
  sh_uk : json; sh_title : json; sh_server_time : json; sh_cfrom_id : json;
  sh_errno : json; sh_request_id : json; sh_updated_at : Z
}.

(** A [media_files] row ([id], [fs_id] and the 15 data columns, [created_at]). *)
Record media_row := mkMediaRow {
  m_id : Z;
  m_fs_id : string;
  m_share_id : json; m_category : json; m_isdir : json;
  m_local_ctime : json; m_local_mtime : json; m_md5 : json; m_path : json;
  m_play_forbid : json; m_server_ctime : json; m_server_filename : json;
  m_server_mtime : json; m_size : json; m_is_adult : json; m_cmd5 : json;
  m_dlink : json;
  m_created_at : Z
}.

Record thumb_row := mkThumbRow {
  t_id : Z;
  t_fs_id : string;
  t_url : json;
  t_type : string
}.

Record db := mkDb {
  shares : list share_row;
  media_files : list media_row;
  thumbnails : list thumb_row;
  next_id : Z;          (* next AUTOINCREMENT value *)
  now_ts : Z            (* CURRENT_TIMESTAMP *)
}.

(** The statements run against D1; which of them fail is a parameter. *)
Inductive stmt :=
| SUpsertShare (share_id : string)
| SUpsertMedia (fs_id : string)
| SDeleteThumbs (fs_id : string)
| SInsertThumbs (fs_id : string).

Inductive dres (A : Type) := DOk (a : A) | DErr.
Arguments DOk {A} a.
Arguments DErr {A}.

Definition DBM (A : Type) : Type := db -> dres A * db.

Definition dret {A} (a : A) : DBM A := fun d => (DOk a, d).
Definition dbind {A B} (m : DBM A) (k : A -> DBM B) : DBM B :=
  fun d => match m d with
           | (DOk a, d') => k a d'
           | (DErr, d') => (DErr, d')
           end.
Definition dfail {A} : DBM A := fun d => (DErr, d).

Notation "x <-- m ;; k" := (dbind m (fun x => k))
  (at level 61, m at next level, right associativity).

Section D1.
Variable fails : stmt -> bool.

(** [INSERT INTO shares ... ON CONFLICT(share_id) DO UPDATE SET ...] *)
Definition saveShare (shareId : string) (data : json) : DBM unit :=
  fun d =>
    if fails (SUpsertShare shareId) then (DErr, d) else
    let v := Some data in
    let row := mkShareRow shareId
                 (to_string_or_null (jfield v "uk"))
                 (sql (js_or (jfield v "title") (Some JNull)))
                 (sql (js_or (jfield v "server_time") (Some JNull)))
                 (sql (js_or (jfield v "cfrom_id") (Some JNull)))
                 (sql (js_or (jfield v "errno") (Some (JNum 0))))
                 (to_string_or_null (jfield v "request_id"))
                 (now_ts d) in
    let rows :=
      if existsb (fun r => String.eqb (sh_share_id r) shareId) (shares d)
      then map (fun r => if String.eqb (sh_share_id r) shareId then row else r)
               (shares d)
      else shares d ++ [row] in
    (DOk tt, mkDb rows (media_files d) (thumbnails d) (next_id d) (now_ts d)).

(** The row [saveMediaFile] binds for a file. *)
Definition media_insert_row (id : Z) (key shareId : string) (file : json) (ts : Z)
  : media_row :=
  let f := Some file in
  mkMediaRow id key (JStr shareId)
    (sql (js_or (jfield f "category") (Some JNull)))
    (sql (js_or (jfield f "isdir") (Some (JNum 0))))
    (sql (js_or (jfield f "local_ctime") (Some JNull)))
    (sql (js_or (jfield f "local_mtime") (Some JNull)))
    (sql (js_or (jfield f "md5") (Some JNull)))
    (sql (js_or (jfield f "path") (Some JNull)))
    (sql (js_or (jfield f "play_forbid") (Some (JNum 0))))
    (sql (js_or (jfield f "server_ctime") (Some JNull)))
    (sql (js_or (jfield f "server_filename") (Some JNull)))
    (sql (js_or (jfield f "server_mtime") (Some JNull)))
    (if truthy (jfield f "size") then num_json (js_Number (jfield f "size"))
     else JNull)
    (sql (js_or (jfield f "is_adult") (Some (JNum 0))))
    (sql (js_or (jfield f "cmd5") (Some JNull)))
    (sql (js_or (jfield f "dlink") (Some JNull)))
    ts.

(** [ON CONFLICT(fs_id) DO UPDATE SET share_id, category, md5, path,
    server_filename, server_mtime, size, is_adult, cmd5, dlink = excluded.*] *)
Definition media_conflict_update (old ex : media_row) : media_row :=
  mkMediaRow (m_id old) (m_fs_id old)
    (m_share_id ex) (m_category ex) (m_isdir old)
    (m_local_ctime old) (m_local_mtime old) (m_md5 ex) (m_path ex)
    (m_play_forbid old) (m_server_ctime old) (m_server_filename ex)
    (m_server_mtime ex) (m_size ex) (m_is_adult ex) (m_cmd5 ex)
    (m_dlink ex) (m_created_at old).

Definition upsertMedia (shareId : string) (file : json) : DBM unit :=
  fun d =>
    match fs_key (jfield (Some file) "fs_id") with
    | None => (DErr, d)
    | Some key =>
        if fails (SUpsertMedia key) then (DErr, d) else
        let ex := media_insert_row (next_id d) key shareId file (now_ts d) in
        if existsb (fun r => String.eqb (m_fs_id r) key) (media_files d)
        then (DOk tt, mkDb (shares d)
                (map (fun r => if String.eqb (m_fs_id r) key
                               then media_conflict_update r ex else r)
                     (media_files d))
                (thumbnails d) (next_id d) (now_ts d))
        else (DOk tt, mkDb (shares d) (media_files d ++ [ex])
                (thumbnails d) (next_id d + 1) (now_ts d))
    end.

Definition thumbnailTypes : list string := ["url1"; "url2"; "url3"; "icon"].

(** The [(url, type)] pairs [saveThumbnails] inserts. *)
Definition thumb_batch (thumbs : json) : list (json * string) :=
  flat_map (fun type => match jfield (Some thumbs) type with
                        | Some u => if truthy (Some u) then [(u, type)] else []
                        | None => []
                        end)
           thumbnailTypes.

Fixpoint number_rows (id : Z) (key : string) (b : list (json * string))
  : list thumb_row :=
  match b with
  | [] => []
  | (u, type) :: rest => mkThumbRow id key u type :: number_rows (id + 1) key rest
  end.

(** [saveThumbnails]: delete the file's rows, then one atomic batch of
    inserts when there is something to insert. *)
Definition saveThumbnails (fsId : option json) (thumbs : json) : DBM unit :=
  fun d =>
    match fs_key fsId with
    | None => (DErr, d)
    | Some key =>
        if fails (SDeleteThumbs key) then (DErr, d) else
        let d1 := mkDb (shares d) (media_files d)
                    (filter (fun t => negb (String.eqb (t_fs_id t) key))
                            (thumbnails d))
                    (next_id d) (now_ts d) in
        let batch := thumb_batch thumbs in
        match batch with
        | [] => (DOk tt, d1)
        | _ =>
            if fails (SInsertThumbs key) then (DErr, d1) else
            (DOk tt, mkDb (shares d1) (media_files d1)
                       (thumbnails d1 ++ number_rows (next_id d1) key batch)
                       (next_id d1 + Z.of_nat (List.length batch)) (now_ts d1))
        end
    end.

Definition saveMediaFile (shareId : string) (file : json) : DBM unit :=
  _ <-- upsertMedia shareId file ;;
  match jfield (Some file) "thumbs" with
  | Some thumbs =>
      if truthy (Some thumbs)
      then saveThumbnails (jfield (Some file) "fs_id") thumbs
      else dret tt
  | None => dret tt
  end.

(** [for (const file of upstream.list) await saveMediaFile(...)] *)
Fixpoint saveFiles (shareId : string) (files : list json) : DBM unit :=
  match files with
  | [] => dret tt
  | file :: rest => _ <-- saveMediaFile shareId file ;; saveFiles shareId rest
  end.

(** [storeUpstreamData]: one [try] around everything; [true] on success,
    [false] once any statement has failed. *)
Definition storeUpstreamData (shareId : string) (upstream : json) (d : db)
  : bool * db :=
  let run :=
    _ <-- saveShare shareId upstream ;;
    match jfield (Some upstream) "list" with
    | Some (JArr files) => saveFiles shareId files
    | _ => dret tt
    end in
  match run d with
  | (DOk _, d') => (true, d')
  | (DErr, d') => (false, d')
  end.

End D1.

(* ------------------------------------------------------------------ *)
(** ** Admin helpers (src/src/handlers.js): [parsePositiveInt], [clamp],
       [normalizeOrder], [normalizeSort], [requireD1], [requireKv] *)

(** The leading decimal digits of [s], read on top of [acc]; [None] when
    there is no digit ([seen] records whether one was read). *)
Fixpoint digits_prefix (s : string) (acc : Z) (seen : bool) : option Z :=
  match s with
  | String c rest =>
      let n := Z.of_nat (nat_of_ascii c) in
      if (48 <=? n) && (n <=? 57)
      then digits_prefix rest (acc * 10 + (n - 48)) true
      else if seen then Some acc else None
  | EmptyString => if seen then Some acc else None
  end.

(** [Number.parseInt(value, 10)] on what [params.get] returns: leading
    white space, an optional sign, then the leading decimal digits; [None]
    is [NaN] ([parseInt(null)] reads the text "null"). Results are exact
    integers: they agree with JS up to magnitude 2^53, beyond which JS
    rounds to a double. *)
Definition parseInt10 (value : option string) : option Z :=
  match value with
  | None => None
  | Some s =>
      match trim_start s with
      | String "-" rest => option_map Z.opp (digits_prefix rest 0 false)
      | String "+" rest => digits_prefix rest 0 false
      | t => digits_prefix t 0 false
      end
  end.

Definition parsePositiveInt (value : option string) (fallback : Z) : Z :=
  match parseInt10 value with
  | Some n => if n <=? 0 then fallback else n
  | None => fallback
  end.

(** [Math.max(min, Math.min(max, value))] *)
Definition clamp (value min max : Z) : Z := Z.max min (Z.min max value).

Definition ascii_lower (c : ascii) : ascii :=
  let n := nat_of_ascii c in
  if ((65 <=? n) && (n <=? 90))%nat then ascii_of_nat (n + 32) else c.

(** [toLowerCase] (no character outside ASCII lowers to a, s or c, the
    only letters compared below). *)
Fixpoint to_lower (s : string) : string :=
  match s with
  | EmptyString => EmptyString
  | String c rest => String (ascii_lower c) (to_lower rest)
  end.

(** [order && order.toLowerCase() === 'asc' ? 'ASC' : 'DESC'] *)
Definition normalizeOrder (order : option string) : string :=
  match order with
  | Some o =>
      if negb (String.eqb o "") && String.eqb (to_lower o) "asc"
      then "ASC" else "DESC"
  | None => "DESC"
  end.

(** [allowed.includes(sort) ? sort : fallback] *)
Definition normalizeSort (sort : option string) (allowed : list string)
    (fallback : string) : string :=
  match sort with
  | Some s => if existsb (String.eqb s) allowed then s else fallback
  | None => fallback
  end.

Definition requireD1 (d1_bound : bool) : option response :=
  if d1_bound then None
  else Some (errorJson 503 "D1 database not configured" "d1_unavailable" None None).

Definition requireKv (kv_bound : bool) : option response :=
  if kv_bound then None
  else Some (errorJson 503 "KV namespace not configured" "kv_unavailable" None None).

(* ------------------------------------------------------------------ *)
(** ** Admin list handlers: [handleAdminShares], [handleAdminFiles],
       [handleAdminThumbnails], [handleAdminAnalyticsProcessed] *)

(** A value passed to [.bind(...)]: a string, or a number ([None] is
    [NaN], as [Number(...)] may give). *)
Inductive bval :=
| BStr (s : string)
| BNum (n : option Z)
| BJson (v : option json).   (* a value read from a row, passed on as it is *)

(** A prepared statement with its bound values. *)
Record query := mkQuery {
  q_sql : string;
  q_binds : list bval
}.

(** The D1 binding as the admin handlers use it: [.first()] gives a row
    ([None] for [null]) and [.all()] the result object; either may throw. *)
Record d1conn := mkD1 {
  d1_first : query -> io json;
  d1_all : query -> io json
}.

(** [params.get(k)?.trim()] *)
Definition param_trim (p : params) (k : string) : option string :=
  option_map trim (p k).

(** Truthiness of a string or [null]/[undefined]. *)
Definition str_truthy (v : option string) : bool :=
  match v with Some (String _ _) => true | _ => false end.

(** The line break and indentation inside the handlers' SQL templates. *)
Definition nl7 : string := String newline "       ".

(** [parts.join(sep)] *)
Fixpoint join_str (sep : string) (parts : list string) : string :=
  match parts with
  | [] => ""
  | [x] => x
  | x :: rest => (x ++ sep ++ join_str sep rest)%string
  end.

(** [whereParts.length ? `WHERE ${whereParts.join(' AND ')}` : ''] *)
Definition where_of (parts : list string) : string :=
  match parts with
  | [] => ""
  | _ => ("WHERE " ++ join_str " AND " parts)%string
  end.

(** [`%${q}%`] *)
Definition like_of (q : string) : bval := BStr ("%" ++ q ++ "%")%string.

(** [{ page, pageSize, total: totalRow?.total || 0,
       items: list?.results || [] }] *)
Definition page_answer (page pageSize : Z) (totalRow list : option json)
  : response :=
  RJson (JObj [("page", JNum page); ("pageSize", JNum pageSize);
               ("total", sql (js_or (jfield totalRow "total") (Some (JNum 0))));
               ("items", sql (js_or (jfield list "results") (Some (JArr []))))]).

(** The count query then the page query; a throwing statement ends the
    handler with a rejection. Returns the answer and the statements run. *)
Definition count_then_list (c : d1conn) (qc ql : query) (page pageSize : Z)
  : response * list query :=
  match d1_first c qc with
  | IThrow => (RThrow "D1 query failed", [qc])
  | IOk totalRow =>
      match d1_all c ql with
      | IThrow => (RThrow "D1 query failed", [qc; ql])
      | IOk list => (page_answer page pageSize totalRow list, [qc; ql])
      end
  end.

(** [env.sharedfile] as [requireD1] sees it. *)
Definition d1_is_bound (d1 : option d1conn) : bool :=
  match d1 with Some _ => true | None => false end.

Definition handleAdminShares (d1 : option d1conn) (p : params)
  : response * list query :=
  match requireD1 (d1_is_bound d1), d1 with
  | Some missing, _ => (missing, [])
  | None, None => (RThrow "sharedfile is undefined", [])
  | None, Some c =>
      let q := param_trim p "q" in
      let sort := normalizeSort (p "sort") ["updated_at"; "server_time"; "title"]
                                "updated_at" in
      let order := normalizeOrder (p "order") in
      let page := parsePositiveInt (p "page") 1 in
      let pageSize := clamp (parsePositiveInt (p "pageSize") 50) 1 200 in
      let offset := (page - 1) * pageSize in
      let where_ := if str_truthy q
                    then "WHERE share_id LIKE ? OR title LIKE ? OR uk LIKE ?"
                    else "" in
      let binds := match q with
                   | Some s => if str_truthy q
                               then [like_of s; like_of s; like_of s] else []
                   | None => []
                   end in
      count_then_list c
        (mkQuery ("SELECT COUNT(*) as total FROM shares " ++ where_) binds)
        (mkQuery ("SELECT share_id, uk, title, server_time, request_id, updated_at"
                  ++ nl7 ++ "FROM shares " ++ where_
                  ++ nl7 ++ "ORDER BY " ++ sort ++ " " ++ order
                  ++ nl7 ++ "LIMIT ? OFFSET ?")
                 (binds ++ [BNum (Some pageSize); BNum (Some offset)]))
        page pageSize
  end.

Definition handleAdminFiles (d1 : option d1conn) (p : params)
  : response * list query :=
  match requireD1 (d1_is_bound d1), d1 with
  | Some missing, _ => (missing, [])
  | None, None => (RThrow "sharedfile is undefined", [])
  | None, Some c =>
      let q := param_trim p "q" in
      let shareId := param_trim p "share_id" in
      let sizeMin := p "size_min" in
      let sizeMax := p "size_max" in
      let sort := normalizeSort (p "sort")
                    ["server_mtime"; "size"; "server_filename"] "server_mtime" in
      let order := normalizeOrder (p "order") in
      let page := parsePositiveInt (p "page") 1 in
      let pageSize := clamp (parsePositiveInt (p "pageSize") 50) 1 200 in
      let offset := (page - 1) * pageSize in
      let f1 := match shareId with
                | Some s => if str_truthy shareId
                            then [("share_id = ?", [BStr s])] else []
                | None => []
                end in
      let f2 := match q with
                | Some s => if str_truthy q
                            then [("(server_filename LIKE ? OR fs_id LIKE ?)",
                                   [like_of s; like_of s])] else []
                | None => []
                end in
      let f3 := match sizeMin with
                | Some s => if str_truthy sizeMin
                            then [("size >= ?", [BNum (js_Number (Some (JStr s)))])]
                            else []
                | None => []
                end in
      let f4 := match sizeMax with
                | Some s => if str_truthy sizeMax
                            then [("size <= ?", [BNum (js_Number (Some (JStr s)))])]
                            else []
                | None => []
                end in
      let filters := f1 ++ f2 ++ f3 ++ f4 in
      let where_ := where_of (map fst filters) in
      let binds := flat_map snd filters in
      count_then_list c
        (mkQuery ("SELECT COUNT(*) as total FROM media_files " ++ where_) binds)
        (mkQuery ("SELECT * FROM media_files " ++ where_
                  ++ nl7 ++ "ORDER BY " ++ sort ++ " " ++ order
                  ++ nl7 ++ "LIMIT ? OFFSET ?")
                 (binds ++ [BNum (Some pageSize); BNum (Some offset)]))
        page pageSize
  end.

Definition handleAdminThumbnails (d1 : option d1conn) (p : params)
  : response * list query :=
  match requireD1 (d1_is_bound d1), d1 with
  | Some missing, _ => (missing, [])
  | None, None => (RThrow "sharedfile is undefined", [])
  | None, Some c =>
      let fsId := param_trim p "fs_id" in
      let type := param_trim p "type" in
      let page := parsePositiveInt (p "page") 1 in
      let pageSize := clamp (parsePositiveInt (p "pageSize") 50) 1 200 in
      let offset := (page - 1) * pageSize in
      let f1 := match fsId with
                | Some s => if str_truthy fsId then [("fs_id = ?", [BStr s])] else []
                | None => []
                end in
      let f2 := match type with
                | Some s => if str_truthy type
                            then [("thumbnail_type = ?", [BStr s])] else []
                | None => []
                end in
      let filters := f1 ++ f2 in
      let where_ := where_of (map fst filters) in
      let binds := flat_map snd filters in
      count_then_list c
        (mkQuery ("SELECT COUNT(*) as total FROM thumbnails " ++ where_) binds)
        (mkQuery ("SELECT * FROM thumbnails " ++ where_
                  ++ nl7 ++ "ORDER BY id DESC"
                  ++ nl7 ++ "LIMIT ? OFFSET ?")
                 (binds ++ [BNum (Some pageSize); BNum (Some offset)]))
        page pageSize
  end.

Definition handleAdminAnalyticsProcessed (d1 : option d1conn) (p : params)
  : response * list query :=
  match requireD1 (d1_is_bound d1), d1 with
  | Some missing, _ => (missing, [])
  | None, None => (RThrow "sharedfile is undefined", [])
  | None, Some c =>
      let limit := clamp (parsePositiveInt (p "limit") 30) 1 180 in
      let qr := mkQuery ("SELECT DATE(updated_at) as day, COUNT(*) as shares"
                         ++ nl7 ++ "FROM shares"
                         ++ nl7 ++ "GROUP BY day"
                         ++ nl7 ++ "ORDER BY day DESC"
                         ++ nl7 ++ "LIMIT ?")
                        [BNum (Some limit)] in
      match d1_all c qr with
      | IThrow => (RThrow "D1 query failed", [qr])
      | IOk rows =>
          (RJson (JObj [("limit", JNum limit);
                        ("items", sql (js_or (jfield rows "results")
                                             (Some (JArr []))))]), [qr])
      end
  end.

(* ------------------------------------------------------------------ *)
(** ** [jsonUpstream], [handlePage], [handleApi] *)

(** [s.includes(sub)] *)
Definition str_includes (s sub : string) : bool :=
  match String.index 0 sub s with
  | Some _ => true
  | None => false
  end.

(** A response built from an upstream JSON body keeps the upstream status
    ([Response.json(body, { status: res.status })]); the other answers are
    the [response]s of the rest of the worker. *)
Inductive api_response :=
| AResp (r : response)
| AJson (status : Z) (body : json).

(** [jsonUpstream(res, message)]; [ct] is
    [res.headers.get('content-type') || '']. *)
Definition jsonUpstream (ct : string) (res : http_response) (message : string)
  : api_response :=
  if negb (resp_ok res) then
    let details :=
      JObj ([("status", JNum (status res))]
            ++ (if str_includes ct "application/json" then
                  match body_json res with
                  | Some b => [("body", b)]
                  | None => []
                  end
                else [])) in
    AResp (errorJson 502 message "upstream_error" (Some details) None)
  else if str_includes ct "application/json" then
    match body_json res with
    | Some b => AJson (status res) b
    | None => AResp (RThrow "SyntaxError")
    end
  else
    AResp (errorJson 502 "Upstream returned non-JSON" "upstream_non_json"
             (Some (JObj [("status", JNum (status res))])) None).

(** [res.headers.get('content-type') || ''] for the header reader
    [ctype_of] of the platform. *)
Definition content_type (ctype_of : http_response -> option string)
    (res : http_response) : string :=
  match ctype_of res with
  | Some c => c
  | None => ""
  end.



(** [handleApi] *)
Definition handleApi (ctype_of : http_response -> option string) (p : params)
  : M api_response :=
  let missing :=
    ret (AResp (badRequest "Missing jsToken or shorturl"
                  (Some ["jsToken"; "shorturl"]))) in
  match p "jsToken", p "shorturl" with
  | Some jsToken, Some shorturl =>
      if String.eqb jsToken "" || String.eqb shorturl "" then missing
      else
        o <- fetch (buildApiUrl jsToken shorturl "1") ;;
        match o with
        | Resp res =>
            ret (jsonUpstream (content_type ctype_of res) res
                   "Upstream API request failed")
        | NetErr m => ret (AResp (RThrow m))
        end
  | _, _ => missing
  end.

(* ------------------------------------------------------------------ *)
(** ** Objects built at run time; [getShareFromDb] (src/unnamed/part_001)
       and [handleLookup] *)

(** A JS object under construction: its own properties in creation order;
    [None] is a property holding [undefined]. *)
Definition jsobj := list (string * option json).

(** [o[k] = v] *)
Definition obj_set (o : jsobj) (k : string) (v : option json) : jsobj :=
  if existsb (fun p => String.eqb (fst p) k) o
  then map (fun p => if String.eqb (fst p) k then (k, v) else p) o
  else o ++ [(k, v)].

(** The assignment [o[k] = v] on a plain object: [__proto__] names the
    accessor inherited from [Object.prototype], so it creates no property. *)
Definition obj_assign (o : jsobj) (k : string) (v : option json) : jsobj :=
  if String.eqb k "__proto__" then o else obj_set o k v.

(** [o[k]] *)
Definition obj_get (o : jsobj) (k : string) : option json :=
  match find (fun p => String.eqb (fst p) k) o with
  | Some (_, v) => v
  | None => None
  end.

(** [String(v)] *)
Fixpoint js_string (v : json) : string :=
  match v with
  | JNull => "null"
  | JBool b => if b then "true" else "false"
  | JNum n => z_to_dec n
  | JStr s => s
  | JArr xs =>
      join_str ","
        ((fix elems (l : list json) : list string :=
            match l with
            | [] => []
            | JNull :: r => "" :: elems r
            | x :: r => js_string x :: elems r
            end) xs)
  | JObj _ => "[object Object]"
  end.

(** The property key [o[v]] uses. *)
Definition prop_key (v : option json) : string :=
  match v with None => "undefined" | Some x => js_string x end.

Fixpoint indexed {A} (f : A -> json) (i : Z) (xs : list A) : jsobj :=
  match xs with
  | [] => []
  | x :: rest => (z_to_dec i, Some (f x)) :: indexed f (i + 1) rest
  end.

Fixpoint chars (s : string) : list ascii :=
  match s with EmptyString => [] | String c rest => c :: chars rest end.

(** [{ ...v }]: the own enumerable properties of [v] (a string's
    characters are its one-byte characters). *)
Definition spread (v : option json) : jsobj :=
  match v with
  | Some (JObj fs) => fold_left (fun o p => obj_set o (fst p) (Some (snd p))) fs []
  | Some (JArr xs) => indexed (fun x => x) 0 xs
  | Some (JStr s) => indexed (fun c => JStr (String c EmptyString)) 0 (chars s)
  | _ => []
  end.

(** The index a key denotes when it is an array index
    (a canonical decimal below 2^32 - 1). *)
Definition array_index (k : string) : option Z :=
  match digits_value k 0 with
  | Some n => if (n <? 4294967295) && String.eqb (z_to_dec n) k then Some n else None
  | None => None
  end.

Fixpoint insert_by_index (n : Z) (p : string * option json) (o : jsobj) : jsobj :=
  match o with
  | [] => [p]
  | q :: rest =>
      match array_index (fst q) with
      | Some m => if n <? m then p :: o else q :: insert_by_index n p rest
      | None => p :: o
      end
  end.

(** Property order: array indices ascending, then the other keys in
    creation order. *)
Definition js_key_order (o : jsobj) : jsobj :=
  fold_left (fun acc p => match array_index (fst p) with
                          | Some n => insert_by_index n p acc
                          | None => acc
                          end) o []
  ++ filter (fun p => match array_index (fst p) with
                      | Some _ => false
                      | None => true
                      end) o.

(** The object as [Response.json] serializes it: [undefined] properties
    are left out. *)
Definition obj_json (o : jsobj) : json :=
  JObj (flat_map (fun p => match snd p with Some v => [(fst p, v)] | None => [] end)
                 (js_key_order o)).

(** [thumbs.results.forEach(t => { thumbsObj[t.thumbnail_type] = t.url; })]
    from an empty object; [None] when it throws. *)
Definition thumbs_obj (thumbs : option json) : option jsobj :=
  match jfield thumbs "results" with
  | Some (JArr rows) =>
      fold_left (fun acc t =>
                   match acc, t with
                   | None, _ => None
                   | Some _, JNull => None
                   | Some o, _ =>
                       Some (obj_assign o (prop_key (jfield (Some t) "thumbnail_type"))
                                        (jfield (Some t) "url"))
                   end) rows (Some [])
  | _ => None
  end.

Definition q_thumbs (v : bval) : query :=
  mkQuery "SELECT url, thumbnail_type FROM thumbnails WHERE fs_id = ?" [v].

(** [{ ...file, thumbs: thumbsObj }] *)
Definition with_thumbs (file : option json) (o : jsobj) : json :=
  obj_json (obj_set (spread file) "thumbs" (Some (obj_json o))).

Fixpoint all_ok (xs : list (option json)) : option (list json) :=
  match xs with
  | [] => Some []
  | Some x :: rest => option_map (cons x) (all_ok rest)
  | None :: _ => None
  end.

(** One file of [getShareFromDb]'s [Promise.all]: the thumbnail query it
    issues and the object it resolves to ([None]: it rejects). Reading
    [fs_id] of [null] rejects before any query. *)
Definition file_with_thumbs (c : d1conn) (file : json) : option json * list query :=
  match file with
  | JNull => (None, [])
  | _ =>
      let q := q_thumbs (BJson (jfield (Some file) "fs_id")) in
      match d1_all c q with
      | IThrow => (None, [q])
      | IOk th =>
          match thumbs_obj th with
          | None => (None, [q])
          | Some o => (Some (with_thumbs (Some file) o), [q])
          end
      end
  end.

(** [getShareFromDb(db, shareId)]: [IOk None] is [null], [IThrow] a
    rejection; with the statements issued, in order. *)
Definition getShareFromDb (c : d1conn) (shareId : string) : io json * list query :=
  let qs := mkQuery "SELECT * FROM shares WHERE share_id = ?" [BStr shareId] in
  match d1_first c qs with
  | IThrow => (IThrow, [qs])
  | IOk share =>
      if negb (truthy share) then (IOk None, [qs]) else
      let qf := mkQuery "SELECT * FROM media_files WHERE share_id = ?" [BStr shareId] in
      match d1_all c qf with
      | IThrow => (IThrow, [qs; qf])
      | IOk files =>
          match jfield files "results" with
          | Some (JArr rows) =>
              let rs := map (file_with_thumbs c) rows in
              let issued := [qs; qf] ++ flat_map snd rs in
              match all_ok (map fst rs) with
              | Some items =>
                  (IOk (Some (obj_json (obj_set (spread share) "list"
                                               (Some (JArr items))))), issued)
              | None => (IThrow, issued)
              end
          | _ => (IThrow, [qs; qf])
          end
      end
  end.

Section Lookup.
(** [err?.message || 'unknown'] of what the [try] block threw. *)
Variable err_details : json.

Definition handleLookup (d1 : option d1conn) (p : params) : response * list query :=
  let surl := p "surl" in
  let fid := p "fid" in
  if negb (str_truthy surl) && negb (str_truthy fid) then
    (badRequest "Missing surl or fid parameter" (Some ["surl"; "fid"]), [])
  else
  match d1 with
  | None => (errorJson 503 "D1 database not configured" "d1_unavailable" None None, [])
  | Some c =>
      let db_error := errorJson 500 "Database query failed" "db_error"
                        (Some err_details) None in
      match fid with
      | Some (String _ _ as f) =>
          let qf := mkQuery "SELECT * FROM media_files WHERE fs_id = ?" [BStr f] in
          match d1_first c qf with
          | IThrow => (db_error, [qf])
          | IOk file =>
              if negb (truthy file) then
                (errorJson 404 "File not found" "not_found"
                   (Some (JObj [("fid", JStr f)])) None, [qf])
              else
              let qt := q_thumbs (BStr f) in
              match d1_all c qt with
              | IThrow => (db_error, [qf; qt])
              | IOk th =>
                  match thumbs_obj th with
                  | None => (db_error, [qf; qt])
                  | Some o =>
                      (RJson (envelope "d1" (truthy (jfield file "dlink")) "data"
                                (with_thumbs file o)), [qf; qt])
                  end
              end
          end
      | _ =>
          let s := match surl with Some s => s | None => "" end in
          match getShareFromDb c s with
          | (IThrow, qs) => (db_error, qs)
          | (IOk shareData, qs) =>
              let not_found :=
                errorJson 404 "Share not found in D1. Use mode=resolve first."
                  "not_found" (Some (JObj [("surl", JStr s)])) None in
              match shareData with
              | None => (not_found, qs)
              | Some sd =>
                  if negb (truthy (Some sd)) then (not_found, qs) else
                  let hasDlink :=
                    match jfield (Some sd) "list" with
                    | Some (JArr xs) =>
                        existsb (fun f => truthy (jfield (Some f) "dlink")) xs
                    | _ => false
                    end in
                  (RJson (envelope "d1" hasDlink "data" sd), qs)
              end
          end
      end
  end.

End Lookup.

(* ------------------------------------------------------------------ *)
(** ** Router guard: [isAdminAuthorized] (src/unnamed/part_004) *)

(** [key = url.searchParams.get('key') || request.headers.get('x-admin-key');
     return !env.ADMIN_KEY || key === env.ADMIN_KEY]; [None] is [null] or
    [undefined]. *)
Definition isAdminAuthorized (param_key header_key admin_key : option string) : bool :=
  let key := if str_truthy param_key then param_key else header_key in
  negb (str_truthy admin_key)
  || match key, admin_key with
     | Some k, Some a => String.eqb k a
     | _, _ => false
     end.

(* ------------------------------------------------------------------ *)
(** ** [handleAdminShareDetail] *)

(** The properties of [Object.prototype]. *)
Definition object_proto_names : list string :=
  ["constructor"; "__defineGetter__"; "__defineSetter__"; "hasOwnProperty";
   "__lookupGetter__"; "__lookupSetter__"; "isPrototypeOf";
   "propertyIsEnumerable"; "toString"; "valueOf"; "__proto__";
   "toLocaleString"].

(** A write to this property of the built-in function [Object.prototype[k]]
    throws: [length] and [name] are read-only, [caller] and [arguments]
    are inherited accessors that throw, and [Object.prototype] is
    read-only on [Object]. *)
Definition fn_readonly (k ty : string) : bool :=
  existsb (String.eqb ty) ["length"; "name"; "caller"; "arguments"]
  || (String.eqb k "constructor" && String.eqb ty "prototype").

(** The state of the grouping loop: the own properties of [thumbsByFsId]
    (each a plain object) and the properties the loop added to
    [Object.prototype] (taken as pristine when the request starts). *)
Definition groups := list (string * jsobj).

Fixpoint group_get (g : groups) (k : string) : option jsobj :=
  match g with
  | [] => None
  | (k', o) :: rest => if String.eqb k' k then Some o else group_get rest k
  end.

Fixpoint group_put (g : groups) (k : string) (o : jsobj) : groups :=
  match g with
  | [] => [(k, o)]
  | (k', o') :: rest =>
      if String.eqb k' k then (k, o) :: rest else (k', o') :: group_put rest k o
  end.

(** One pass of [if (!thumbsByFsId[t.fs_id]) thumbsByFsId[t.fs_id] = {};
    thumbsByFsId[t.fs_id][t.thumbnail_type] = t.url;]; [None] when it
    throws (module code is strict: a property write to a string, number or
    boolean throws). D1 cells are strings, numbers or [null], so an object
    reached through [Object.prototype] is never written here. *)
Definition group_step (s : option (groups * jsobj)) (t : json)
  : option (groups * jsobj) :=
  match s, t with
  | None, _ => None
  | Some _, JNull => None
  | Some (g, proto), _ =>
      let k := prop_key (jfield (Some t) "fs_id") in
      let ty := prop_key (jfield (Some t) "thumbnail_type") in
      let u := jfield (Some t) "url" in
      let create := Some (group_put g k (obj_assign [] ty u), proto) in
      match group_get g k with
      | Some o => Some (group_put g k (obj_assign o ty u), proto)
      | None =>
          match find (fun p => String.eqb (fst p) k) proto with
          | Some (_, v) =>
              if negb (truthy v) then create else
              match v with
              | Some (JStr _) | Some (JNum _) | Some (JBool _) =>
                  (* [__proto__] is the inherited setter, which ignores a
                     primitive receiver; any other write throws *)
                  if String.eqb ty "__proto__" then Some (g, proto) else None
              | _ => Some (g, proto)
              end
          | None =>
              if String.eqb k "__proto__" then
                (* the write lands on [Object.prototype] *)
                if String.eqb ty "__proto__" then
                  match u with
                  | Some JNull => Some (g, proto)
                  | Some (JArr _) | Some (JObj _) => None
                  | _ => Some (g, proto)
                  end
                else Some (g, obj_set proto ty u)
              else if existsb (String.eqb k) object_proto_names then
                (* the write lands on a built-in function *)
                if fn_readonly k ty then None else Some (g, proto)
              else create
          end
      end
  end.

Definition groups_json (g : groups) : json :=
  obj_json (map (fun p => (fst p, Some (obj_json (snd p)))) g).

(** [(files?.results || []).map(f => f.fs_id).filter(Boolean)];
    [None] when it throws. *)
Definition file_ids (results : option json) : option (list json) :=
  match results with
  | Some (JArr rows) =>
      if existsb (fun f => match f with JNull => true | _ => false end) rows
      then None
      else Some (flat_map (fun f => match jfield (Some f) "fs_id" with
                                    | Some v => if truthy (Some v) then [v] else []
                                    | None => []
                                    end) rows)
  | _ => None
  end.

Definition in_query (ids : list json) : query :=
  mkQuery ("SELECT fs_id, url, thumbnail_type FROM thumbnails WHERE fs_id IN ("
           ++ join_str "," (map (fun _ => "?") ids) ++ ")")
          (map (fun v => BJson (Some v)) ids).

Definition handleAdminShareDetail (d1 : option d1conn) (p : params) (shareId : string)
  : response * list query :=
  if String.eqb shareId "" then (badRequest "Missing share_id" None, []) else
  match requireD1 (d1_is_bound d1), d1 with
  | Some missing, _ => (missing, [])
  | None, None => (RThrow "sharedfile is undefined", [])
  | None, Some c =>
      let qs := mkQuery "SELECT * FROM shares WHERE share_id = ?" [BStr shareId] in
      match d1_first c qs with
      | IThrow => (RThrow "D1 query failed", [qs])
      | IOk share =>
          match share with
          | None => (errorJson 404 "Share not found" "not_found"
                       (Some (JObj [("share_id", JStr shareId)])) None, [qs])
          | Some sh =>
          if negb (truthy share) then
            (errorJson 404 "Share not found" "not_found"
               (Some (JObj [("share_id", JStr shareId)])) None, [qs]) else
          let page := parsePositiveInt (p "page") 1 in
          let pageSize := clamp (parsePositiveInt (p "pageSize") 50) 1 200 in
          let offset := (page - 1) * pageSize in
          let qt := mkQuery "SELECT COUNT(*) as total FROM media_files WHERE share_id = ?"
                      [BStr shareId] in
          match d1_first c qt with
          | IThrow => (RThrow "D1 query failed", [qs; qt])
          | IOk totalFilesRow =>
          let qf := mkQuery ("SELECT * FROM media_files" ++ nl7
                             ++ "WHERE share_id = ?" ++ nl7
                             ++ "ORDER BY server_mtime DESC" ++ nl7
                             ++ "LIMIT ? OFFSET ?")
                      [BStr shareId; BNum (Some pageSize); BNum (Some offset)] in
          match d1_all c qf with
          | IThrow => (RThrow "D1 query failed", [qs; qt; qf])
          | IOk files =>
          let results := js_or (jfield files "results") (Some (JArr [])) in
          let answer g := RJson (JObj [("share", sh); ("files", sql results);
                                       ("thumbsByFsId", groups_json g);
                                       ("page", JNum page); ("pageSize", JNum pageSize);
                                       ("totalFiles", sql (js_or (jfield totalFilesRow "total")
                                                                 (Some (JNum 0))))]) in
          match file_ids results with
          | None => (RThrow "TypeError", [qs; qt; qf])
          | Some ids =>
              if (0 <? Z.of_nat (List.length ids)) && (Z.of_nat (List.length ids) <=? 200)
              then
                let qth := in_query ids in
                match d1_all c qth with
                | IThrow => (RThrow "D1 query failed", [qs; qt; qf; qth])
                | IOk thumbs =>
                    match js_or (jfield thumbs "results") (Some (JArr [])) with
                    | Some (JArr rows) =>
                        match fold_left group_step rows (Some ([], [])) with
                        | Some (g, _) => (answer g, [qs; qt; qf; qth])
                        | None => (RThrow "TypeError", [qs; qt; qf; qth])
                        end
                    | _ => (RThrow "TypeError", [qs; qt; qf; qth])
                    end
                end
              else (answer [], [qs; qt; qf])
          end
          end
          end
          end
      end
  end.

(* ------------------------------------------------------------------ *)
(** ** [handleAdminFileDetail] *)

(** [(thumbs?.results || []).forEach(t => { thumbsObj[t.thumbnail_type] = t.url; })]
    from an empty object; [None] when it throws. *)
Definition admin_thumbs_obj (thumbs : option json) : option jsobj :=
  match js_or (jfield thumbs "results") (Some (JArr [])) with
  | Some (JArr rows) =>
      fold_left (fun acc t =>
                   match acc, t with
                   | None, _ => None
                   | Some _, JNull => None
                   | Some o, _ =>
                       Some (obj_assign o (prop_key (jfield (Some t) "thumbnail_type"))
                                        (jfield (Some t) "url"))
                   end) rows (Some [])
  | _ => None
  end.

Definition handleAdminFileDetail (d1 : option d1conn) (fsId : string)
  : response * list query :=
  if String.eqb fsId "" then (badRequest "Missing fs_id" None, []) else
  match requireD1 (d1_is_bound d1), d1 with
  | Some missing, _ => (missing, [])
  | None, None => (RThrow "sharedfile is undefined", [])
  | None, Some c =>
      let qf := mkQuery "SELECT * FROM media_files WHERE fs_id = ?" [BStr fsId] in
      match d1_first c qf with
      | IThrow => (RThrow "D1 query failed", [qf])
      | IOk file =>
          match file with
          | None => (errorJson 404 "File not found" "not_found"
                       (Some (JObj [("fs_id", JStr fsId)])) None, [qf])
          | Some f =>
          if negb (truthy file) then
            (errorJson 404 "File not found" "not_found"
               (Some (JObj [("fs_id", JStr fsId)])) None, [qf]) else
          let qt := mkQuery "SELECT url, thumbnail_type FROM thumbnails WHERE fs_id = ?"
                      [BStr fsId] in
          match d1_all c qt with
          | IThrow => (RThrow "D1 query failed", [qf; qt])
          | IOk thumbs =>
              match admin_thumbs_obj thumbs with
              | None => (RThrow "TypeError", [qf; qt])
              | Some o => (RJson (JObj [("file", f); ("thumbs", obj_json o)]), [qf; qt])
              end
          end
          end
      end
  end.

(* ------------------------------------------------------------------ *)
(** ** [handleAdminKvEntry] *)

Section KvEntry.
(** [err?.message || 'unknown'] of a failed KV read. *)
Variable kv_err_message : string.

Definition handleAdminKvEntry (e : env) (p : params) : M response :=
  match requireKv (kv_bound e) with
  | Some missing => ret missing
  | None =>
      let surl := match p "surl" with Some s => s | None => "" end in
      if String.eqb surl "" then ret (badRequest "Missing surl" None) else
      r <- kv_read_json e ("share:" ++ surl) ;;
      match r with
      | IThrow =>
          ret (errorJson 500 "KV read failed" "kv_error"
                 (Some (JStr (if String.eqb kv_err_message "" then "unknown"
                              else kv_err_message))) None)
      | IOk record =>
          match record with
          | Some v =>
              if truthy record then ret (RJson (JObj [("surl", JStr surl); ("data", v)]))
              else ret (errorJson 404 "KV entry not found" "not_found"
                          (Some (JObj [("surl", JStr surl)])) None)
          | None => ret (errorJson 404 "KV entry not found" "not_found"
                           (Some (JObj [("surl", JStr surl)])) None)
          end
      end
  end.
End KvEntry.

(* ------------------------------------------------------------------ *)
(** ** [buildHeaders] and the headers [handleSegment] forwards *)

(** [{...o, ...src}] for an object [o] already built: [src]'s own
    properties in enumeration order, each defined on the result. *)
Definition spread_into (o src : jsobj) : jsobj :=
  fold_left (fun acc p => obj_set acc (fst p) (snd p)) (js_key_order src) o.

Definition default_user_agent : string := "Mozilla/5.0 (Windows NT 10.0; Win64; x64)".

(** [buildHeaders(request, extra)], [cookie] being
    [request.headers.get('Cookie')]. *)
Definition buildHeaders (cookie : option string) (extra : jsobj) : jsobj :=
  let headers := spread_into [("User-Agent", Some (JStr default_user_agent))] extra in
  match cookie with
  | Some c => if String.eqb c "" then headers else obj_set headers "Cookie" (Some (JStr c))
  | None => headers
  end.

(** [const v = request.headers.get(name); if (v) forwardHeaders[name] = v;] *)
Definition forward_header (get : string -> option string) (o : jsobj) (name : string)
  : jsobj :=
  match get name with
  | Some v => if String.eqb v "" then o else obj_set o name (Some (JStr v))
  | None => o
  end.

Definition forwardHeaders (get : string -> option string) : jsobj :=
  let o := forward_header get [] "Range" in
  let o := forward_header get o "If-Range" in
  let o := forward_header get o "If-Modified-Since" in
  let o := forward_header get o "If-None-Match" in
  forward_header get o "Accept-Encoding".

(** The headers of [handleSegment]'s upstream fetch:
    [buildHeaders(request, { Referer: ..., ...forwardHeaders })]. *)
Definition segment_headers (get : string -> option string) : jsobj :=
  buildHeaders (get "Cookie")
    (spread_into [("Referer", Some (JStr "https://www.terabox.com/"))] (forwardHeaders get)).

(* ================================================================== *)
(** * Properties *)

(* ------------------------------------------------------------------ *)
(** ** Upstream client *)

Lemma fetch_mkSt url os tr :
  fetch url (mkSt os tr) = (nth_out os 0, mkSt (tl os) (tr ++ [EFetch url])).
Proof. destruct os; reflexivity. Qed.

Lemma nth_out_tl os i : nth_out (tl os) i = nth_out os (S i).
Proof. destruct os, i; reflexivity. Qed.

Lemma skipn_tl {A} (os : list A) k : skipn k (tl os) = skipn (S k) os.
Proof. destruct os, k; reflexivity. Qed.

Lemma retry_loop_spec url R b n :
  forall a os tr le, (a + n = R)%nat ->
  exists k, (k <= n)%nat /\
    (forall i, (i < k)%nat -> stops (nth_out os i) = false) /\
    ((k < n)%nat -> stops (nth_out os k) = true) /\
    retry_loop url R b a (S n) le (mkSt os tr)
    = (result_of (nth_out os k),
       mkSt (skipn (S k) os) (tr ++ attempts_from url b a k)).
Proof.
  induction n as [|n IH]; intros a os tr le Ha.
  - exists O. split; [lia|]. split; [intros; lia|]. split; [intros; lia|].
    cbn [retry_loop]. unfold bind. rewrite fetch_mkSt.
    replace (Nat.eqb a R) with true by (symmetry; apply Nat.eqb_eq; lia).
    destruct (nth_out os 0) as [r|m]; cbn.
    + rewrite orb_true_r. reflexivity.
    + reflexivity.
  - assert (Hne : Nat.eqb a R = false) by (apply Nat.eqb_neq; lia).
    cbn [retry_loop]. unfold bind at 1. rewrite fetch_mkSt.
    destruct (stops (nth_out os 0)) eqn:Hs.
    + exists O. split; [lia|]. split; [intros; lia|]. split; [intros; exact Hs|].
      destruct (nth_out os 0) as [r|m]; cbn in Hs |- *; [|discriminate].
      rewrite Hs. reflexivity.
    + assert (Hstep : forall le',
        exists k, (k <= S n)%nat /\
          (forall i, (i < k)%nat -> stops (nth_out os i) = false) /\
          ((k < S n)%nat -> stops (nth_out os k) = true) /\
          (sleep (b * 2 ^ Z.of_nat a) ;;; retry_loop url R b (S a) (S n) le')
            (mkSt (tl os) (tr ++ [EFetch url]))
          = (result_of (nth_out os k),
             mkSt (skipn (S k) os) (tr ++ attempts_from url b a k))).
      { intros le'.
        destruct (IH (S a) (tl os)
                    ((tr ++ [EFetch url]) ++ [ESleep (b * 2 ^ Z.of_nat a)])
                    le' ltac:(lia))
          as (k & Hk & Hbefore & Hstop & Hrun).
        exists (S k). split; [lia|]. split.
        { intros [|i] Hi; [exact Hs|]. rewrite <- nth_out_tl. apply Hbefore; lia. }
        split.
        { intros Hlt. rewrite <- nth_out_tl. apply Hstop; lia. }
        unfold sleep, emit, bind at 1. cbn [script trace].
        unfold bind in Hrun |- *. rewrite Hrun, nth_out_tl, skipn_tl.
        f_equal. f_equal. unfold attempts_from. rewrite <- !app_assoc.
        reflexivity. }
      destruct (nth_out os 0) as [r|m] eqn:Ho; cbn in Hs.
      * rewrite Hs, Hne. cbn [orb]. exact (Hstep (Some "Transient upstream status")).
      * rewrite Hne. exact (Hstep (Some m)).
Qed.

(** C3. [fetchWithRetry url retries base] makes at most [retries + 1]
    attempts; it goes on to another attempt only after a transient status
    (408, 429, 500..599) or a network error, returns the first ok or
    non-transient response, returns (or throws) the outcome of the last
    attempt with no delay after it, and sleeps [base * 2^n] ms between
    attempts [n] and [n+1]. With the defaults (2 retries, 200 ms) the
    statuses [500; 500; 200] give the 200 response and [500; 500; 500]
    give the third 500, each after exactly three fetches. *)
Theorem fetchWithRetry_contract :
  (forall url retries base os tr,
   exists k, (k <= retries)%nat /\
     (forall i, (i < k)%nat -> stops (nth_out os i) = false) /\
     ((k < retries)%nat -> stops (nth_out os k) = true) /\
     fetchWithRetry url retries base (mkSt os tr)
     = (result_of (nth_out os k),
        mkSt (skipn (S k) os) (tr ++ attempts_from url base 0 k))) /\
  (forall url,
   fetchWithRetry url 2 200 (mkSt (map status_resp [500; 500; 200]) [])
   = (FRes (mkResp 200 "" None),
      mkSt [] [EFetch url; ESleep 200; EFetch url; ESleep 400; EFetch url])) /\
  (forall url,
   fetchWithRetry url 2 200 (mkSt (map status_resp [500; 500; 500; 200]) [])
   = (FRes (mkResp 500 "" None),
      mkSt [status_resp 200]
           [EFetch url; ESleep 200; EFetch url; ESleep 400; EFetch url])).
Proof.
  split; [|split; intros url; reflexivity].
  intros url retries base os tr.
  apply (retry_loop_spec url retries base retries 0 os tr None); lia.
Qed.

(* ------------------------------------------------------------------ *)
(** ** Segment relay *)

Definition segment_reject : response :=
  errorJson 403 "Invalid segment URL: only TeraBox domains allowed"
    "invalid_segment_url" None None.

(** C1. For a non-empty [url] parameter: the URL passes validation exactly
    when it parses and its hostname equals an allowed domain or ends with
    ["." ++ domain]; when it does not, the relay answers 403
    [invalid_segment_url] and the state is untouched (no fetch issued);
    when it does, the one effect is a fetch of that URL. The hosts
    [teraboxcdn.com] and [sub.terabox.com] pass, [evil.example] does not. *)
Theorem handleSegment_allow_list hostname_of p targetUrl os tr
  (Hget : p "url" = Some targetUrl) (Hne : targetUrl <> "") :
  (isAllowedSegmentUrl hostname_of targetUrl = true <->
     exists h d, hostname_of targetUrl = Some h /\
       In d ALLOWED_SEGMENT_DOMAINS /\
       (h = d \/ ends_with h ("." ++ d)%string = true)) /\
  (isAllowedSegmentUrl hostname_of targetUrl = false ->
     handleSegment hostname_of p (mkSt os tr) = (segment_reject, mkSt os tr)) /\
  (isAllowedSegmentUrl hostname_of targetUrl = true ->
     exists r, handleSegment hostname_of p (mkSt os tr)
               = (r, mkSt (tl os) (tr ++ [EFetch targetUrl]))) /\
  (hostname_of targetUrl = Some "teraboxcdn.com" ->
     isAllowedSegmentUrl hostname_of targetUrl = true) /\
  (hostname_of targetUrl = Some "sub.terabox.com" ->
     isAllowedSegmentUrl hostname_of targetUrl = true) /\
  (hostname_of targetUrl = Some "evil.example" ->
     isAllowedSegmentUrl hostname_of targetUrl = false).
Proof.
  assert (Hneq : String.eqb targetUrl "" = false)
    by (apply String.eqb_neq; exact Hne).
  unfold handleSegment. rewrite Hget, Hneq.
  split; [|split; [|split; [|split; [|split]]]].
  - unfold isAllowedSegmentUrl. destruct (hostname_of targetUrl) as [h|].
    + rewrite existsb_exists. split.
      * intros (d & Hin & Hd). exists h, d. split; [reflexivity|].
        split; [exact Hin|].
        apply orb_true_iff in Hd as [Hd|Hd];
          [left; apply String.eqb_eq; exact Hd | right; exact Hd].
      * intros (h' & d & Hh & Hin & Hd). injection Hh as <-.
        exists d. split; [exact Hin|]. apply orb_true_iff.
        destruct Hd as [->|Hd]; [left; apply String.eqb_refl | right; exact Hd].
    + split; [discriminate|]. intros (h & d & Hh & _). discriminate.
  - intros Hf. rewrite Hf. reflexivity.
  - intros Ht. rewrite Ht. cbn. unfold bind. rewrite fetch_mkSt.
    destruct (nth_out os 0); eexists; reflexivity.
  - intros Hh. unfold isAllowedSegmentUrl. rewrite Hh. reflexivity.
  - intros Hh. unfold isAllowedSegmentUrl. rewrite Hh. reflexivity.
  - intros Hh. unfold isAllowedSegmentUrl. rewrite Hh. reflexivity.
Qed.

Lemma handleSegment_allow_list_witness :
  let p := fun k => if String.eqb k "url"
                    then Some "http://evil.example/seg.ts" else None in
  handleSegment simple_hostname p (mkSt [] [])
  = (segment_reject, mkSt [] []) /\
  isAllowedSegmentUrl simple_hostname "https://teraboxcdn.com/seg.ts" = true /\
  isAllowedSegmentUrl simple_hostname "https://sub.terabox.com/seg.ts" = true.
Proof.
  intros p. split; [|split; reflexivity].
  destruct (handleSegment_allow_list simple_hostname p
              "http://evil.example/seg.ts" [] [] eq_refl ltac:(discriminate))
    as (_ & Hrej & _).
  apply Hrej. reflexivity.
Defined.

(* ------------------------------------------------------------------ *)
(** ** Manifest rewriter *)

Lemma form_decode_encode_char c t :
  form_decode (form_encode_char c ++ t) = String c (form_decode t).
Proof. destruct c as [[] [] [] [] [] [] [] []]; reflexivity. Qed.

Lemma form_decode_encode s : form_decode (form_encode s) = s.
Proof.
  induction s as [|c s IH]; [reflexivity|].
  cbn [form_encode]. rewrite form_decode_encode_char, IH. reflexivity.
Qed.

(** [c] does not occur in [s]. *)
Fixpoint no_char (c : ascii) (s : string) : bool :=
  match s with
  | EmptyString => true
  | String d rest => negb (Ascii.eqb d c) && no_char c rest
  end.

Lemma no_char_app c a b : no_char c (a ++ b) = no_char c a && no_char c b.
Proof.
  induction a as [|d a IH]; [reflexivity|]. cbn. rewrite IH, andb_assoc.
  reflexivity.
Qed.

Lemma no_amp_encode s : no_char "&" (form_encode s) = true.
Proof.
  induction s as [|c s IH]; [reflexivity|]. cbn [form_encode].
  rewrite no_char_app, IH, andb_true_r.
  destruct c as [[] [] [] [] [] [] [] []]; reflexivity.
Qed.

Lemma split_on_no_char sep s : no_char sep s = true -> split_on sep s = [s].
Proof.
  induction s as [|c s IH]; [reflexivity|]. cbn.
  intros H. apply andb_prop in H as [Hc Hs]. apply negb_true_iff in Hc.
  rewrite Hc, (IH Hs). reflexivity.
Qed.

Lemma split_on_nonempty sep s : split_on sep s <> [].
Proof.
  induction s as [|c s IH]; cbn; [discriminate|].
  destruct (Ascii.eqb c sep); [discriminate|].
  destruct (split_on sep s); discriminate.
Qed.

Lemma join_cons_char sep c x xs :
  join_with sep (String c x :: xs) = String c (join_with sep (x :: xs)).
Proof. destruct xs; reflexivity. Qed.

Lemma join_split sep s : join_with sep (split_on sep s) = s.
Proof.
  induction s as [|c s IH]; [reflexivity|]. cbn [split_on].
  destruct (Ascii.eqb c sep) eqn:Hc.
  - apply Ascii.eqb_eq in Hc. subst c.
    pose proof (split_on_nonempty sep s) as Hne.
    destruct (split_on sep s) as [|x xs] eqn:Hs; [congruence|].
    cbn [join_with]. rewrite <- IH. reflexivity.
  - pose proof (split_on_nonempty sep s) as Hne.
    destruct (split_on sep s) as [|x xs]; [congruence|].
    rewrite join_cons_char, IH. reflexivity.
Qed.

(** The query [rewriteM3U8] builds for a line. *)
Definition segment_query (line : string) : string :=
  ("mode=segment&url=" ++ form_encode line)%string.

Lemma parse_segment_query line :
  parse_query (segment_query line) = [("mode", "segment"); ("url", line)].
Proof.
  unfold parse_query, segment_query.
  change ("mode=segment&url=" ++ form_encode line)%string
    with (String "m" (String "o" (String "d" (String "e" (String "="
          (String "s" (String "e" (String "g" (String "m" (String "e"
          (String "n" (String "t" (String "&"
          ("url=" ++ form_encode line)%string))))))))))))).
  cbn [split_on]. cbn.
  rewrite (split_on_no_char "&" (form_encode line) (no_amp_encode line)).
  cbn. rewrite form_decode_encode. reflexivity.
Qed.

Lemma starts_http_not_blank line :
  starts_with line "http" = true -> trim_is_empty line = false.
Proof.
  destruct line as [|c line]; [discriminate|]. unfold starts_with.
  intros H. destruct c as [[] [] [] [] [] [] [] []];
    cbn in H |- *; try discriminate; reflexivity.
Qed.

(** The rewritten form of a line, as [url_toString] prints it. *)
Definition segment_url (request_url : url) (line : string) : string :=
  (url_pre request_url ++ "?" ++ segment_query line
   ++ (if String.eqb (url_hash request_url) "" then ""
       else "#" ++ url_hash request_url))%string.

Lemma rewrite_line_eq r line :
  starts_with line "http" = true ->
  url_toString (url_set_param (url_set_param
      (mkUrl (url_pre r) "" (url_hash r)) "mode" "segment") "url" line)
  = segment_url r line.
Proof.
  intros _. reflexivity.
Qed.

Definition req0 : url :=
  mkUrl "https://proxy.example/" "mode=stream&surl=abc" "".

Definition playlist0 : string :=
  ("#EXTM3U" ++ String newline (String newline
     ("http://cdn.example/seg1.ts" ++ String newline "")))%string.

(** C4 (counterexample). An absolute URL line whose scheme is not [http]
    (here [ftp://...]) is left unchanged, and a relative line that merely
    starts with [http] ([http_seg1.ts]) is rewritten. *)
Lemma rewriteM3U8_prefix_test_counterexample :
  rewriteM3U8 "ftp://cdn.example/seg1.ts" req0 = "ftp://cdn.example/seg1.ts"
  /\ rewriteM3U8 "http_seg1.ts" req0 <> "http_seg1.ts".
Proof. split; [reflexivity | vm_compute; discriminate]. Qed.

(** C4 (amended). [rewriteM3U8] splits the text at newlines (a split that
    the join gives back unchanged), keeps every line that starts with [#]
    or does not start with [http] (blank lines among them), and replaces
    every other line with the request URL's part before the query,
    followed by [?mode=segment&url=<encoded line>] (and the request's
    fragment, if any); the [url] parameter of that query reads back as the
    original line and [mode] as [segment]. On ["#EXTM3U\n\nhttp://cdn.example/seg1.ts\n"]
    the first two lines and the final empty line are kept and line 3
    becomes a same-origin URL whose [url] parameter is the segment URL. *)
Theorem rewriteM3U8_line_by_line :
  (forall content r,
     rewriteM3U8 content r
     = join_with newline
         (map (fun line =>
                 if starts_with line "#" || negb (starts_with line "http")
                 then line else segment_url r line)
              (split_on newline content))) /\
  (forall content, join_with newline (split_on newline content) = content) /\
  (forall line,
     query_get (segment_query line) "url" = Some line /\
     query_get (segment_query line) "mode" = Some "segment") /\
  (split_on newline (rewriteM3U8 playlist0 req0)
   = ["#EXTM3U"; ""; "https://proxy.example/?"
                     ++ segment_query "http://cdn.example/seg1.ts"; ""]%string /\
   query_get (segment_query "http://cdn.example/seg1.ts") "url"
   = Some "http://cdn.example/seg1.ts").
Proof.
  split; [|split; [|split]].
  - intros content r. unfold rewriteM3U8. f_equal. apply map_ext.
    intros line.
    destruct (starts_with line "#"); [reflexivity|].
    destruct (starts_with line "http") eqn:Hh; cbn [orb negb].
    + rewrite (starts_http_not_blank line Hh). apply rewrite_line_eq; exact Hh.
    + rewrite orb_true_r. reflexivity.
  - apply join_split.
  - intros line. unfold query_get. rewrite parse_segment_query. split; reflexivity.
  - split; vm_compute; reflexivity.
Qed.

(* ------------------------------------------------------------------ *)
(** ** Resolution pipeline: cache tiers *)

(** [m] answers a value satisfying [Q] and only appends events satisfying
    [P] to the trace. *)
Definition runs_ok {A} (P : event -> Prop) (Q : A -> Prop) (m : M A) : Prop :=
  forall s, Q (fst (m s)) /\
    exists added, trace (snd (m s)) = trace s ++ added /\ Forall P added.

Lemma runs_ret {A} P (Q : A -> Prop) a : Q a -> runs_ok P Q (ret a).
Proof. intros HQ s. split; [exact HQ|]. exists []. rewrite app_nil_r. auto. Qed.

Lemma runs_bind {A B} P (Q : B -> Prop) (m : M A) (k : A -> M B) :
  runs_ok P (fun _ => True) m -> (forall a, runs_ok P Q (k a)) ->
  runs_ok P Q (bind m k).
Proof.
  intros Hm Hk s. unfold bind. destruct (Hm s) as [_ (a1 & E1 & F1)].
  destruct (m s) as [a s1]. cbn in E1.
  destruct (Hk a s1) as [HQ (a2 & E2 & F2)]. split; [exact HQ|].
  exists (a1 ++ a2). rewrite E2, E1, app_assoc. split; [reflexivity|].
  apply Forall_app; auto.
Qed.

Lemma runs_emit P ev : P ev -> runs_ok P (fun _ => True) (emit ev).
Proof. intros HP s. split; [exact I|]. exists [ev]. auto. Qed.

Lemma runs_fetch P url : P (EFetch url) -> runs_ok P (fun _ => True) (fetch url).
Proof.
  intros HP [os tr]. rewrite fetch_mkSt. split; [exact I|]. exists [EFetch url].
  auto.
Qed.

Lemma runs_retry_loop P url R b :
  (forall u, P (EFetch u)) -> (forall ms, P (ESleep ms)) ->
  forall fuel a le, runs_ok P (fun _ => True) (retry_loop url R b a fuel le).
Proof.
  intros HF HS fuel. induction fuel as [|fuel IH]; intros a le; cbn [retry_loop].
  - apply runs_ret. exact I.
  - apply runs_bind; [apply runs_fetch, HF|]. intros [r|m].
    + destruct (_ || _); [apply runs_ret; exact I|].
      apply runs_bind; [apply runs_emit, HS|]. intros _. apply IH.
    + destruct (Nat.eqb a R); [apply runs_ret; exact I|].
      apply runs_bind; [apply runs_emit, HS|]. intros _. apply IH.
Qed.

(** Events that touch neither the fast-cache entry of [surl] nor the
    durable store's read path. *)
Definition no_tier_read (surl : string) (ev : event) : Prop :=
  match ev with
  | EKvGet k => k <> ("share:" ++ surl)%string
  | ED1Get _ => False
  | _ => True
  end.

Definition tagged_live (r : response) : Prop :=
  forall b, r = RJson b -> jfield (Some b) "source" = Some (JStr "live").

Ltac runs_solve :=
  repeat match goal with
  | |- runs_ok _ _ (bind _ _) => apply runs_bind; [|intros ?]
  | |- runs_ok _ _ (ret _) => apply runs_ret
  | |- runs_ok _ _ (emit _) => apply runs_emit
  | |- runs_ok _ _ (fetchWithRetry _ _ _) =>
      apply runs_retry_loop; intros; exact I
  | |- runs_ok _ _ (if ?b then _ else _) => destruct b
  | |- runs_ok _ _ (match ?x with _ => _ end) => destruct x
  | |- True => exact I
  | |- no_tier_read _ _ => cbn [no_tier_read]; try exact I
  | |- tagged_live (RJson _) => intros ? Hb; injection Hb as <-; reflexivity
  | |- tagged_live _ => intros ? Hb; discriminate Hb
  end.

Lemma after_api_runs e surl raw apiRes :
  runs_ok (no_tier_read surl) tagged_live (after_api e surl raw apiRes).
Proof. unfold after_api, kv_put. runs_solve. Qed.

Lemma api_then_finish_runs e surl raw t :
  runs_ok (no_tier_read surl) tagged_live (api_then_finish e surl raw t).
Proof.
  unfold api_then_finish. runs_solve. apply after_api_runs.
Qed.

Lemma token_key_not_share e surl k :
  token_key e surl = Some k -> k <> ("share:" ++ surl)%string.
Proof.
  unfold token_key. destruct (kv_bound e); [|discriminate].
  intros Hk. injection Hk as <-. discriminate.
Qed.

Lemma scrape_path_runs e surl raw tk :
  (forall k, tk = Some k -> k <> ("share:" ++ surl)%string) ->
  runs_ok (no_tier_read surl) tagged_live (scrape_path e surl raw tk).
Proof.
  intros Htk. unfold scrape_path, kv_put. runs_solve;
    try apply api_then_finish_runs.
Qed.

Lemma resolve_live_runs e surl raw :
  runs_ok (no_tier_read surl) tagged_live (resolve_live e surl raw).
Proof.
  unfold resolve_live.
  pose proof (token_key_not_share e surl) as Htk.
  destruct (token_key e surl) as [k|] eqn:Hk.
  - unfold kv_read_text, kv_delete.
    apply runs_bind.
    + runs_solve. apply Htk. reflexivity.
    + intros [[[|c t]|]|]; try (apply scrape_path_runs; intros k' Hk'; injection Hk' as <-; apply Htk; reflexivity).
      runs_solve; try apply after_api_runs;
        apply scrape_path_runs; intros k' Hk'; injection Hk' as <-; apply Htk; reflexivity.
  - runs_solve; apply scrape_path_runs; discriminate.
Qed.

Lemma handleResolve_surl e p surl :
  p "surl" = Some surl -> surl <> "" ->
  handleResolve e p =
    if negb (param_is_one (p "refresh")) && negb (param_is_one (p "raw")) then
      r <- kv_read_json e ("share:" ++ surl)%string ;;
      match r with
      | IOk (Some stored) =>
          if truthy (Some stored) then
            ret (RJson (envelope "kv" (truthy (jfield (Some stored) "dlink"))
                                 "data" stored))
          else resolve_d1_then_live e surl (param_is_one (p "refresh"))
                 (param_is_one (p "raw"))
      | _ => resolve_d1_then_live e surl (param_is_one (p "refresh"))
               (param_is_one (p "raw"))
      end
    else resolve_d1_then_live e surl (param_is_one (p "refresh"))
           (param_is_one (p "raw")).
Proof.
  intros Hs Hne. unfold handleResolve. rewrite Hs.
  destruct surl; [congruence|reflexivity].
Qed.

Definition env_kv_hit (v : json) : env :=
  mkEnv true (fun _ => IOk (Some v)) (fun _ => IOk None) (fun _ => false)
        (fun _ => false) true (fun _ => IOk (Some v)) "" 0.

Definition params_of (kvs : list (string * string)) : params :=
  fun k => match find (fun p => String.eqb (fst p) k) kvs with
           | Some (_, v) => Some v
           | None => None
           end.

Definition cached_record : json :=
  JObj [("name", JStr "a.mp4"); ("dlink", JStr "https://d.example/x");
        ("list", JArr [])].

(** C2 (counterexample). A fast-cache hit is tagged ["kv"], not
    ["fast-cache"], and a durable-store hit is tagged ["d1"], not
    ["durable-store"]. *)
Lemma handleResolve_tag_counterexample :
  fst (handleResolve (env_kv_hit cached_record)
         (params_of [("surl", "abc123")]) (mkSt [] []))
  = RJson (envelope "kv" true "data" cached_record) /\
  fst (handleResolve (env_kv_hit cached_record)
         (params_of [("surl", "abc123"); ("raw", "1")]) (mkSt [] []))
  = RJson (envelope "d1" false "data" cached_record) /\
  "kv" <> "fast-cache" /\ "d1" <> "durable-store".
Proof. repeat split; try reflexivity; discriminate. Qed.

(** C2 (amended). With [refresh] and [raw] read as [=== '1']: with neither
    flag, the fast cache ([SHARE_KV] key [share:<surl>]) is read first and a
    truthy value is returned at once tagged ["kv"], with that read as the
    only effect; on a miss or read failure the pipeline goes live without
    reading the durable store. With [raw] and no [refresh], the fast cache
    is not read; when the D1 binding is configured it is read first and a
    truthy record is returned tagged ["d1"], with that read as the only
    effect; otherwise the pipeline goes live. With [refresh], the pipeline
    goes live at once. The live path reads neither tier and tags every JSON
    answer ["live"]. *)
Theorem handleResolve_cache_tiers e p surl s
  (Hs : p "surl" = Some surl) (Hne : surl <> "") :
  let refresh := param_is_one (p "refresh") in
  let raw := param_is_one (p "raw") in
  let key := ("share:" ++ surl)%string in
  (refresh = true -> handleResolve e p s = resolve_live e surl raw s) /\
  (refresh = false -> raw = false -> kv_bound e = true ->
   forall v, kv_get_json e key = IOk (Some v) -> truthy (Some v) = true ->
   handleResolve e p s
   = (RJson (envelope "kv" (truthy (jfield (Some v) "dlink")) "data" v),
      mkSt (script s) (trace s ++ [EKvGet key]))) /\
  (refresh = false -> raw = false ->
   (forall v, kv_get_json e key = IOk (Some v) -> truthy (Some v) = false) ->
   handleResolve e p s
   = resolve_live e surl false
       (if kv_bound e then mkSt (script s) (trace s ++ [EKvGet key]) else s)) /\
  (refresh = false -> raw = true -> d1_bound e = true ->
   forall v hasDlink, d1_get e surl = IOk (Some v) -> truthy (Some v) = true ->
   some_dlink (jfield (Some v) "list") = Some hasDlink ->
   handleResolve e p s
   = (RJson (envelope "d1" hasDlink "data" v),
      mkSt (script s) (trace s ++ [ED1Get surl]))) /\
  (refresh = false -> raw = true ->
   (forall v, d1_get e surl = IOk (Some v) ->
      truthy (Some v) = false \/ some_dlink (jfield (Some v) "list") = None) ->
   handleResolve e p s
   = resolve_live e surl true
       (if d1_bound e then mkSt (script s) (trace s ++ [ED1Get surl]) else s)) /\
  runs_ok (no_tier_read surl) tagged_live (resolve_live e surl raw).
Proof.
  intros refresh raw key. subst refresh raw key.
  rewrite (handleResolve_surl e p surl Hs Hne).
  split; [|split; [|split; [|split; [|split]]]].
  - intros ->. cbn [negb andb]. unfold resolve_d1_then_live.
    rewrite andb_false_r. reflexivity.
  - intros -> -> Hkv v Hv Ht. cbn [negb andb]. unfold kv_read_json.
    rewrite Hkv, Hv. unfold bind, emit, ret. destruct s. cbv beta iota.
    rewrite Ht. reflexivity.
  - intros -> -> Hmiss. cbn [negb andb]. unfold kv_read_json, resolve_d1_then_live.
    cbn [andb]. destruct (kv_bound e).
    + unfold bind, emit, ret. destruct s. cbv beta iota.
      destruct (kv_get_json e ("share:" ++ surl)%string) as [[v|]|] eqn:Hv;
        try reflexivity.
      rewrite (Hmiss v eq_refl). reflexivity.
    + reflexivity.
  - intros -> -> Hd1 v hd Hv Ht Hl. cbn [negb andb]. unfold resolve_d1_then_live.
    rewrite Hd1. cbn [negb andb]. unfold d1_read. rewrite Hv.
    unfold bind, emit, ret. destruct s. cbv beta iota.
    rewrite Ht, Hl. reflexivity.
  - intros -> -> Hmiss. cbn [negb andb]. unfold resolve_d1_then_live.
    destruct (d1_bound e); [|reflexivity]. cbn [negb andb].
    unfold d1_read, bind, emit, ret. destruct s. cbv beta iota.
    destruct (d1_get e surl) as [[v|]|] eqn:Hv; try reflexivity.
    destruct (Hmiss v eq_refl) as [Ht|Hl].
    + rewrite Ht. reflexivity.
    + rewrite Hl. destruct (truthy (Some v)); reflexivity.
  - apply resolve_live_runs.
Qed.

Lemma handleResolve_cache_tiers_witness :
  handleResolve (env_kv_hit cached_record) (params_of [("surl", "abc123")])
    (mkSt [] [])
  = (RJson (envelope "kv" true "data" cached_record),
     mkSt [] [EKvGet "share:abc123"]).
Proof.
  destruct (handleResolve_cache_tiers (env_kv_hit cached_record)
              (params_of [("surl", "abc123")]) "abc123" (mkSt [] [])
              eq_refl ltac:(discriminate))
    as (_ & Hhit & _).
  apply (Hhit eq_refl eq_refl eq_refl cached_record eq_refl eq_refl).
Defined.

(* ------------------------------------------------------------------ *)
(** ** Resolution pipeline: token handling *)

Lemma token_key_bound e surl k : token_key e surl = Some k -> kv_bound e = true.
Proof. unfold token_key. destruct (kv_bound e); [reflexivity|discriminate]. Qed.

(** C5. With the token store configured (token key [k]): a cached token
    whose API call (with retry) ends in 401 or 403 is deleted and the
    pipeline continues with the same page-scrape path it takes when no
    token is cached; if the page fetch (with retry) ends in an ok page with
    no token in it, the answer is 403 [token_extract_failed] and nothing
    else happens (the scrape is not retried); if a token is found it is
    written to the token store with a 600-second TTL and then the API is
    called with it. *)
Theorem resolve_live_token_handling e surl raw k
  (Hk : token_key e surl = Some k) :
  (forall t s s1 apiRes,
     kv_get_text e k = IOk (Some t) -> t <> "" ->
     fetchWithRetry (buildApiUrl t surl "1") 2 200
       (mkSt (script s) (trace s ++ [EKvGet k])) = (FRes apiRes, s1) ->
     status apiRes = 401 \/ status apiRes = 403 ->
     resolve_live e surl raw s
     = scrape_path e surl raw (Some k)
         (mkSt (script s1) (trace s1 ++ [EKvDelete k]))) /\
  (forall s, kv_get_text e k = IOk None ->
     resolve_live e surl raw s
     = scrape_path e surl raw (Some k)
         (mkSt (script s) (trace s ++ [EKvGet k]))) /\
  (forall s s1 page,
     fetchWithRetry (pageUrl surl) 2 200 s = (FRes page, s1) ->
     resp_ok page = true ->
     extractJsToken (body_text page) = None \/
     extractJsToken (body_text page) = Some "" ->
     scrape_path e surl raw (Some k) s
     = (errorJson 403 "Failed to extract jsToken" "token_extract_failed"
          None None, s1)) /\
  (forall s s1 page t,
     fetchWithRetry (pageUrl surl) 2 200 s = (FRes page, s1) ->
     resp_ok page = true ->
     extractJsToken (body_text page) = Some t -> t <> "" ->
     scrape_path e surl raw (Some k) s
     = api_then_finish e surl raw t
         (mkSt (script s1) (trace s1 ++ [EKvPut k (JStr t) 600]))).
Proof.
  pose proof (token_key_bound e surl k Hk) as Hb.
  split; [|split; [|split]].
  - intros t s s1 apiRes Hget Hne Hf Hst.
    destruct t as [|c t]; [congruence|].
    unfold resolve_live. rewrite Hk. unfold kv_read_text. rewrite Hb, Hget.
    unfold bind at 1 2, emit, ret. cbv beta iota.
    unfold bind at 1. rewrite Hf. cbv beta iota.
    replace ((status apiRes =? 401) || (status apiRes =? 403)) with true
      by (destruct Hst as [-> | ->]; reflexivity).
    unfold kv_delete. rewrite Hb. unfold bind, emit, ret. destruct s1.
    cbv beta iota. destruct (kv_delete_fails e k); reflexivity.
  - intros s Hget.
    unfold resolve_live. rewrite Hk. unfold kv_read_text. rewrite Hb, Hget.
    unfold bind at 1 2, emit, ret. destruct s. reflexivity.
  - intros s s1 page Hf Hok Hx.
    unfold scrape_path, bind at 1. rewrite Hf. cbv beta iota. rewrite Hok.
    cbn [negb]. destruct Hx as [-> | ->]; reflexivity.
  - intros s s1 page t Hf Hok Hx Hne.
    unfold scrape_path, bind at 1. rewrite Hf. cbv beta iota. rewrite Hok.
    cbn [negb]. rewrite Hx. destruct t as [|c t]; [congruence|].
    unfold kv_put. rewrite Hb. unfold bind, emit, ret. destruct s1.
    cbv beta iota. destruct (kv_put_fails e k); reflexivity.
Qed.

Definition env_live : env :=
  mkEnv true (fun _ => IOk None) (fun _ => IOk (Some "TOK")) (fun _ => false)
        (fun _ => false) false (fun _ => IOk None) "" 1700000000000.

Lemma resolve_live_token_handling_witness :
  token_key env_live "abc123" = Some "token:abc123:anon" /\
  resolve_live env_live "abc123" false
    (mkSt [status_resp 401; Resp (mkResp 200 "<html>none</html>" None)] [])
  = (errorJson 403 "Failed to extract jsToken" "token_extract_failed" None None,
     mkSt [] [EKvGet "token:abc123:anon";
              EFetch (buildApiUrl "TOK" "abc123" "1");
              EKvDelete "token:abc123:anon";
              EFetch (pageUrl "abc123")]).
Proof.
  split; [reflexivity|].
  destruct (resolve_live_token_handling env_live "abc123" false
              "token:abc123:anon" eq_refl) as (Hdel & _ & Hnone & _).
  rewrite (Hdel "TOK" (mkSt [status_resp 401; Resp (mkResp 200 "<html>none</html>" None)] [])
             (mkSt [Resp (mkResp 200 "<html>none</html>" None)]
                   [EKvGet "token:abc123:anon"; EFetch (buildApiUrl "TOK" "abc123" "1")])
             (mkResp 401 "" None) eq_refl ltac:(discriminate) eq_refl
             (or_introl eq_refl)).
  apply (Hnone (mkSt [Resp (mkResp 200 "<html>none</html>" None)]
                      [EKvGet "token:abc123:anon";
                       EFetch (buildApiUrl "TOK" "abc123" "1");
                       EKvDelete "token:abc123:anon"])
               (mkSt [] [EKvGet "token:abc123:anon";
                         EFetch (buildApiUrl "TOK" "abc123" "1");
                         EKvDelete "token:abc123:anon";
                         EFetch (pageUrl "abc123")])
               (mkResp 200 "<html>none</html>" None) eq_refl eq_refl
               (or_introl eq_refl)).
Defined.

(* ------------------------------------------------------------------ *)
(** ** Resolution pipeline: validating the API answer *)

(** C6. After an ok API response: a body that is not JSON gives 502
    [upstream_non_json], a parsed body whose [list] is missing or empty
    gives 502 [upstream_empty]; both leave the state as it was (no further
    fetch, no other effect), and an ok response ends [fetchWithRetry] at
    the first attempt. *)
Theorem after_api_data_errors e surl raw apiRes s
  (Hok : resp_ok apiRes = true) :
  (body_json apiRes = None ->
   after_api e surl raw apiRes s
   = (errorJson 502 "Upstream returned non-JSON" "upstream_non_json"
        (status_details apiRes) None, s)) /\
  (forall upstream, body_json apiRes = Some upstream ->
   jfield (Some upstream) "list" = None \/
   jfield (Some upstream) "list" = Some (JArr []) ->
   after_api e surl raw apiRes s
   = (errorJson 502 "Empty share list from upstream" "upstream_empty" None None,
      s)) /\
  (forall url os tr,
   fetchWithRetry url 2 200 (mkSt (Resp apiRes :: os) tr)
   = (FRes apiRes, mkSt os (tr ++ [EFetch url]))).
Proof.
  split; [|split].
  - intros Hb. unfold after_api. rewrite Hok, Hb. reflexivity.
  - intros u Hb Hl. unfold after_api. rewrite Hok, Hb.
    destruct Hl as [Hl|Hl]; rewrite Hl; reflexivity.
  - intros url os tr. unfold fetchWithRetry. cbn [retry_loop].
    unfold bind. rewrite fetch_mkSt. cbn [nth_out nth]. rewrite Hok.
    reflexivity.
Qed.

Lemma after_api_data_errors_witness :
  resp_ok (mkResp 200 "<html>" None) = true /\
  after_api env_live "abc123" false (mkResp 200 "<html>" None) (mkSt [] [])
  = (errorJson 502 "Upstream returned non-JSON" "upstream_non_json"
       (Some (JObj [("status", JNum 200)])) None, mkSt [] []).
Proof.
  split; [reflexivity|].
  destruct (after_api_data_errors env_live "abc123" false
              (mkResp 200 "<html>" None) (mkSt [] []) eq_refl) as (H & _).
  apply H. reflexivity.
Defined.

(* ------------------------------------------------------------------ *)
(** ** Resolution pipeline: the canonical record *)

(** [v] when it is truthy, else [fallback]. *)
Definition pick (v : option json) (fallback : json) : json :=
  match v with
  | Some x => if truthy (Some x) then x else fallback
  | None => fallback
  end.

(** The largest available thumbnail: [url3], else [url2], else [url1],
    else [null]. *)
Definition best_thumb (thumbs : option json) : json :=
  pick (jfield thumbs "url3")
    (pick (jfield thumbs "url2") (pick (jfield thumbs "url1") JNull)).

Lemma js_or_pick a fb : js_or a (Some fb) = Some (pick a fb).
Proof. destruct a as [x|]; unfold js_or, pick; [destruct (truthy (Some x))|]; reflexivity. Qed.

Lemma canonical_record_fields e surl u f :
  let rec := canonical_record e surl u f in
  jfield (Some rec) "thumb" = Some (best_thumb (jfield (Some f) "thumbs")) /\
  jfield (Some rec) "name" = jfield (Some f) "server_filename" /\
  jfield (Some rec) "dlink" = jfield (Some f) "dlink" /\
  jfield (Some rec) "fid" = jfield (Some f) "fs_id".
Proof.
  intros rec. subst rec. unfold canonical_record.
  rewrite !js_or_pick.
  destruct (jfield (Some f) "server_filename"), (jfield (Some f) "dlink"),
           (jfield (Some u) "uk"),
           (js_or (jfield (Some u) "shareid") (jfield (Some u) "share_id")),
           (jfield (Some f) "fs_id");
    repeat split; reflexivity.
Qed.

(** C7. In canonical (non-raw) mode, for an ok API response whose parsed
    [list] is an array with a non-null first element [f] (a [null] one
    makes [file.server_filename] throw), with the fast cache bound:
    the answer is the record projected from [f], tagged ["live"]; its
    [thumb] is [url3], else [url2], else [url1], else [null]; the record is
    written under [share:<surl>] with TTL 604800 (after the D1 write, when
    D1 is bound) and that same record is the answer's [data]; and the
    outcome of the write does not change anything. *)
Theorem after_api_canonical e surl apiRes upstream f rest s
  (Hok : resp_ok apiRes = true) (Hb : body_json apiRes = Some upstream)
  (Hl : jfield (Some upstream) "list" = Some (JArr (f :: rest)))
  (Hnn : f <> JNull) (Hkv : kv_bound e = true) :
  let rec := canonical_record e surl upstream f in
  after_api e surl false apiRes s
  = (RJson (envelope "live" (truthy (jfield (Some rec) "dlink")) "data" rec),
     mkSt (script s)
          (trace s ++ (if d1_bound e then [ED1Store surl upstream] else [])
                   ++ [EKvPut ("share:" ++ surl)%string rec 604800])) /\
  jfield (Some rec) "thumb" = Some (best_thumb (jfield (Some f) "thumbs")) /\
  jfield (Some rec) "name" = jfield (Some f) "server_filename" /\
  jfield (Some rec) "fid" = jfield (Some f) "fs_id" /\
  (forall fails, after_api (with_put_fails e fails) surl false apiRes s
                 = after_api e surl false apiRes s).
Proof.
  intros rec.
  destruct (canonical_record_fields e surl upstream f) as (Ht & Hn & _ & Hf).
  split; [|split; [exact Ht|split; [exact Hn|split; [exact Hf|]]]].
  - unfold after_api. rewrite Hok, Hb, Hl. cbn [negb truthy js_length_of List.length Z.of_nat Z.eqb js_index0].
    unfold kv_put. rewrite Hkv. destruct s as [os tr].
    destruct f; [contradiction|..];
    destruct (d1_bound e); unfold bind, emit, ret; cbv beta iota;
      destruct (kv_put_fails e _); cbn [script trace];
      rewrite <- ?app_assoc; reflexivity.
  - intros fails. unfold after_api, kv_put. rewrite Hok, Hb, Hl.
    cbn [negb truthy js_length_of List.length Z.of_nat Z.eqb js_index0].
    unfold with_put_fails. cbn [kv_bound d1_bound kv_put_fails].
    rewrite Hkv. destruct s as [os tr].
    destruct f; [contradiction|..];
    destruct (d1_bound e); unfold bind, emit, ret; cbv beta iota;
      destruct (fails ("share:" ++ surl)%string), (kv_put_fails e ("share:" ++ surl)%string); reflexivity.
Qed.

Definition file0 : json :=
  JObj [("fs_id", JNum 42); ("server_filename", JStr "a.mp4"); ("size", JStr "1024");
        ("thumbs", JObj [("url1", JStr "t1"); ("url3", JStr "")])].

Definition upstream0 : json :=
  JObj [("uk", JNum 7); ("list", JArr [file0])].

Definition env_put_fails : env :=
  mkEnv true (fun _ => IOk None) (fun _ => IOk None) (fun _ => true)
        (fun _ => false) false (fun _ => IOk None) "" 1700000000000.

Lemma after_api_canonical_witness :
  jfield (Some (canonical_record env_put_fails "abc123" upstream0 file0)) "thumb"
  = Some (JStr "t1") /\
  after_api env_put_fails "abc123" false (mkResp 200 "" (Some upstream0)) (mkSt [] [])
  = (RJson (envelope "live" false "data"
              (canonical_record env_put_fails "abc123" upstream0 file0)),
     mkSt [] [EKvPut "share:abc123"
                (canonical_record env_put_fails "abc123" upstream0 file0) 604800]).
Proof.
  destruct (after_api_canonical env_put_fails "abc123" (mkResp 200 "" (Some upstream0))
              upstream0 file0 [] (mkSt [] []) eq_refl eq_refl eq_refl ltac:(discriminate) eq_refl)
    as (Hrun & Ht & _).
  split; [rewrite Ht; reflexivity|]. rewrite Hrun. reflexivity.
Defined.

(* ------------------------------------------------------------------ *)
(** ** D1 store *)

Lemma upsertMedia_thumbnails fails sid file d :
  thumbnails (snd (upsertMedia fails sid file d)) = thumbnails d.
Proof.
  unfold upsertMedia. destruct (fs_key _); [|reflexivity].
  destruct (fails _); [reflexivity|]. destruct (existsb _ _); reflexivity.
Qed.

Lemma saveThumbnails_media fails k th d :
  media_files (snd (saveThumbnails fails k th d)) = media_files d.
Proof.
  unfold saveThumbnails. destruct (fs_key k); [|reflexivity].
  destruct (fails _); [reflexivity|]. destruct (thumb_batch th); [reflexivity|].
  destruct (fails _); reflexivity.
Qed.

Lemma saveMediaFile_split fails sid file d :
  saveMediaFile fails sid file d =
  match upsertMedia fails sid file d with
  | (DOk _, d1) =>
      match jfield (Some file) "thumbs" with
      | Some thumbs =>
          if truthy (Some thumbs)
          then saveThumbnails fails (jfield (Some file) "fs_id") thumbs d1
          else (DOk tt, d1)
      | None => (DOk tt, d1)
      end
  | (DErr, d1) => (DErr, d1)
  end.
Proof.
  unfold saveMediaFile, dbind. destruct (upsertMedia fails sid file d) as [[]].
  - destruct (jfield (Some file) "thumbs"); [destruct (truthy _)|]; reflexivity.
  - reflexivity.
Qed.

Lemma find_map_update {A} (p : A -> bool) (g : A -> A) l old :
  find p l = Some old -> (forall r, p r = true -> p (g r) = true) ->
  find p (map (fun r => if p r then g r else r) l) = Some (g old).
Proof.
  intros Hf Hg. induction l as [|r l IH]; [discriminate|].
  cbn in Hf |- *. destruct (p r) eqn:Hp.
  - injection Hf as <-. rewrite (Hg r Hp). reflexivity.
  - rewrite Hp. apply IH, Hf.
Qed.

(** C10. Re-saving a file whose [fs_id] already has a row (and whose
    upsert statement succeeds) updates [share_id], [category], [md5],
    [path], [server_filename], [server_mtime], [size], [is_adult], [cmd5]
    and [dlink] from the new file and keeps [isdir], [local_ctime],
    [local_mtime], [play_forbid] and [server_ctime] (and [id],
    [created_at]) of the stored row, whatever the rest of the save does. *)
Theorem saveMediaFile_conflict_columns fails sid file d key old
  (Hkey : fs_key (jfield (Some file) "fs_id") = Some key)
  (Hok : fails (SUpsertMedia key) = false)
  (Hold : find (fun r => String.eqb (m_fs_id r) key) (media_files d) = Some old) :
  let ex := media_insert_row (next_id d) key sid file (now_ts d) in
  exists new,
    find (fun r => String.eqb (m_fs_id r) key)
         (media_files (snd (saveMediaFile fails sid file d))) = Some new /\
    m_isdir new = m_isdir old /\ m_local_ctime new = m_local_ctime old /\
    m_local_mtime new = m_local_mtime old /\
    m_play_forbid new = m_play_forbid old /\
    m_server_ctime new = m_server_ctime old /\
    m_id new = m_id old /\ m_created_at new = m_created_at old /\
    m_fs_id new = m_fs_id old /\
    m_share_id new = JStr sid /\ m_category new = m_category ex /\
    m_md5 new = m_md5 ex /\ m_path new = m_path ex /\
    m_server_filename new = m_server_filename ex /\
    m_server_mtime new = m_server_mtime ex /\ m_size new = m_size ex /\
    m_is_adult new = m_is_adult ex /\ m_cmd5 new = m_cmd5 ex /\
    m_dlink new = m_dlink ex.
Proof.
  intros ex. exists (media_conflict_update old ex).
  assert (Hex : existsb (fun r => String.eqb (m_fs_id r) key) (media_files d) = true).
  { apply existsb_exists. apply find_some in Hold. exists old. exact Hold. }
  assert (Hmed : media_files (snd (saveMediaFile fails sid file d))
                 = map (fun r => if String.eqb (m_fs_id r) key
                                 then media_conflict_update r ex else r)
                       (media_files d)).
  { rewrite saveMediaFile_split. unfold upsertMedia. rewrite Hkey, Hok, Hex.
    destruct (jfield (Some file) "thumbs"); [destruct (truthy _)|];
      try reflexivity.
    rewrite saveThumbnails_media. reflexivity. }
  rewrite Hmed. split.
  - apply (find_map_update (fun r => String.eqb (m_fs_id r) key)
             (fun r => media_conflict_update r ex)); [exact Hold|].
    intros r Hr. exact Hr.
  - repeat split.
Qed.

Definition file_a : json :=
  JObj [("fs_id", JNum 1); ("isdir", JNum 1); ("category", JNum 2);
        ("thumbs", JObj [("url1", JStr "http://t/1")])].

Definition row_a : media_row :=
  mkMediaRow 5 "1" (JStr "old") (JNum 9) (JNum 0) JNull JNull JNull JNull
             (JNum 0) JNull JNull JNull JNull (JNum 0) JNull JNull 100.

Definition db_a : db :=
  mkDb [] [row_a] [mkThumbRow 7 "1" (JStr "http://t/old3") "url3"] 8 200.

Lemma saveMediaFile_conflict_columns_witness :
  exists new,
    find (fun r => String.eqb (m_fs_id r) "1")
         (media_files (snd (saveMediaFile (fun _ => false) "s" file_a db_a)))
    = Some new /\ m_isdir new = JNum 0 /\ m_category new = JNum 2.
Proof.
  destruct (saveMediaFile_conflict_columns (fun _ => false) "s" file_a db_a "1"
              row_a eq_refl eq_refl eq_refl)
    as (new & Hf & Hisdir & _ & _ & _ & _ & _ & _ & _ & _ & Hcat & _).
  exists new. split; [exact Hf|]. split; [exact Hisdir|].
  rewrite Hcat. reflexivity.
Defined.

Definition key_rows (key : string) (ts : list thumb_row) : list (json * string) :=
  map (fun t => (t_url t, t_type t))
      (filter (fun t => String.eqb (t_fs_id t) key) ts).

Definition other_rows (key : string) (ts : list thumb_row) : list thumb_row :=
  filter (fun t => negb (String.eqb (t_fs_id t) key)) ts.

Definition file_no_thumbs : json := JObj [("fs_id", JNum 1)].

(** C9 (counterexample). Re-saving the file with fs_id 1 without a
    [thumbs] object (an empty new thumbnail set) succeeds and leaves the
    stored [url3] row of that file in place. *)
Lemma saveMediaFile_stale_thumbs_counterexample :
  let '(r, d') := saveMediaFile (fun _ => false) "s" file_no_thumbs db_a in
  r = DOk tt /\ thumb_batch (JObj []) = [] /\
  key_rows "1" (thumbnails d') = [(JStr "http://t/old3", "url3")].
Proof. vm_compute. repeat split. Qed.

Lemma filter_number_rows key id b :
  filter (fun t => String.eqb (t_fs_id t) key) (number_rows id key b)
  = number_rows id key b /\
  filter (fun t => negb (String.eqb (t_fs_id t) key)) (number_rows id key b) = [] /\
  map (fun t => (t_url t, t_type t)) (number_rows id key b) = b.
Proof.
  revert id. induction b as [|[u ty] b IH]; intros id; [repeat split|].
  cbn. rewrite String.eqb_refl. cbn.
  destruct (IH (id + 1)) as (H1 & H2 & H3). rewrite H1, H2, H3. repeat split.
Qed.

Lemma filter_key_other key ts :
  filter (fun t => String.eqb (t_fs_id t) key)
    (filter (fun t => negb (String.eqb (t_fs_id t) key)) ts) = [].
Proof.
  induction ts as [|t ts IH]; [reflexivity|]. cbn.
  destruct (String.eqb (t_fs_id t) key) eqn:E; cbn; [exact IH|].
  rewrite E. exact IH.
Qed.

Lemma filter_other_idem key ts :
  filter (fun t => negb (String.eqb (t_fs_id t) key))
    (filter (fun t => negb (String.eqb (t_fs_id t) key)) ts)
  = filter (fun t => negb (String.eqb (t_fs_id t) key)) ts.
Proof.
  induction ts as [|t ts IH]; [reflexivity|]. cbn.
  destruct (negb (String.eqb (t_fs_id t) key)) eqn:E; cbn; [rewrite E, IH|];
    reflexivity || exact IH.
Qed.

(** C9 (amended). When a save of a file carrying a truthy [thumbs] value
    succeeds, the thumbnail rows of its fs_id are afterwards exactly one
    row per truthy tag among [url1], [url2], [url3], [icon] (in that
    order), and the rows of other files are unchanged; a file with no
    truthy [thumbs] leaves the thumbnail table as it was. *)
Theorem saveMediaFile_thumbnail_replacement fails sid file d d' key
  (Hkey : fs_key (jfield (Some file) "fs_id") = Some key)
  (Hsave : saveMediaFile fails sid file d = (DOk tt, d')) :
  (forall th, jfield (Some file) "thumbs" = Some th -> truthy (Some th) = true ->
     key_rows key (thumbnails d') = thumb_batch th /\
     other_rows key (thumbnails d') = other_rows key (thumbnails d)) /\
  ((forall th, jfield (Some file) "thumbs" = Some th -> truthy (Some th) = false) ->
     thumbnails d' = thumbnails d).
Proof.
  rewrite saveMediaFile_split in Hsave.
  pose proof (upsertMedia_thumbnails fails sid file d) as Hup.
  destruct (upsertMedia fails sid file d) as [[u|] d1]; [|discriminate].
  cbn [snd] in Hup. split.
  - intros th Hth Ht. rewrite Hth, Ht in Hsave.
    unfold saveThumbnails in Hsave. rewrite Hkey in Hsave.
    destruct (fails (SDeleteThumbs key)); [discriminate|].
    unfold key_rows, other_rows.
    destruct (thumb_batch th) as [|b0 bs] eqn:Hb.
    + injection Hsave as <-. cbn [thumbnails]. rewrite Hup.
      rewrite filter_key_other, filter_other_idem. split; reflexivity.
    + destruct (fails (SInsertThumbs key)); [discriminate|].
      injection Hsave as <-. cbn [thumbnails]. rewrite Hup.
      destruct b0 as [u0 ty0].
      destruct (filter_number_rows key (next_id d1) ((u0, ty0) :: bs))
        as (H1 & H2 & H3).
      cbn [number_rows] in H1, H2, H3.
      rewrite !filter_app, filter_key_other, filter_other_idem, H1, H2.
      rewrite app_nil_l, app_nil_r, H3. split; reflexivity.
  - intros Hno. destruct (jfield (Some file) "thumbs") as [th|] eqn:Hth.
    + rewrite (Hno th eq_refl) in Hsave. injection Hsave as <-. exact Hup.
    + injection Hsave as <-. exact Hup.
Qed.

Lemma saveMediaFile_thumbnail_replacement_witness :
  saveMediaFile (fun _ => false) "s" file_a db_a
  = (DOk tt, snd (saveMediaFile (fun _ => false) "s" file_a db_a)) /\
  key_rows "1" (thumbnails (snd (saveMediaFile (fun _ => false) "s" file_a db_a)))
  = [(JStr "http://t/1", "url1")].
Proof.
  split; [reflexivity|].
  destruct (saveMediaFile_thumbnail_replacement (fun _ => false) "s" file_a db_a
              (snd (saveMediaFile (fun _ => false) "s" file_a db_a)) "1"
              eq_refl eq_refl) as [Hrep _].
  destruct (Hrep (JObj [("url1", JStr "http://t/1")]) eq_refl eq_refl) as [H _].
  rewrite H. reflexivity.
Defined.

Definition upstream_two : json :=
  JObj [("list", JArr [JObj [("fs_id", JNum 1)]; JObj [("fs_id", JNum 2)]])].

Definition fails_media_1 (s : stmt) : bool :=
  match s with
  | SUpsertMedia k => String.eqb k "1"
  | _ => false
  end.

Definition db_empty : db := mkDb [] [] [] 1 0.

(** C8 (counterexample). With two files in the list and the upsert of the
    first one failing, [storeUpstreamData] reports [false] and the second
    file (fs_id 2) is never written. *)
Lemma storeUpstreamData_abort_counterexample :
  let '(ok, d') := storeUpstreamData fails_media_1 "s" upstream_two db_empty in
  ok = false /\
  existsb (fun r => String.eqb (m_fs_id r) "2") (media_files d') = false /\
  saveMediaFile fails_media_1 "s" (JObj [("fs_id", JNum 2)]) db_empty
  = (DOk tt, snd (saveMediaFile fails_media_1 "s" (JObj [("fs_id", JNum 2)]) db_empty)).
Proof. vm_compute. repeat split. Qed.

Lemma saveFiles_app fails sid l1 l2 d :
  saveFiles fails sid (l1 ++ l2) d =
  match saveFiles fails sid l1 d with
  | (DOk _, d') => saveFiles fails sid l2 d'
  | (DErr, d') => (DErr, d')
  end.
Proof.
  revert d. induction l1 as [|f l1 IH]; intros d; [reflexivity|].
  cbn [app saveFiles]. unfold dbind.
  destruct (saveMediaFile fails sid f d) as [[]]; [apply IH|reflexivity].
Qed.

(** C8 (amended). The durable-store write is one sequential, all-or-nothing
    report: the share row and then the files of [list] are saved in order;
    when saving file [f] fails after the share and the files before it were
    saved, the files after [f] are not attempted, the changes already made
    (share, earlier files, and [f]'s partial writes) stay in place, and the
    write reports [false]. *)
Theorem storeUpstreamData_first_failure fails sid upstream d pre f post d0 d1 d2
  (Hlist : jfield (Some upstream) "list" = Some (JArr (pre ++ f :: post)))
  (Hshare : saveShare fails sid upstream d = (DOk tt, d0))
  (Hpre : saveFiles fails sid pre d0 = (DOk tt, d1))
  (Hf : saveMediaFile fails sid f d1 = (DErr, d2)) :
  storeUpstreamData fails sid upstream d = (false, d2) /\
  (forall d3, saveFiles fails sid (pre ++ f :: post) d0 = (DOk tt, d3) -> False).
Proof.
  assert (Hall : saveFiles fails sid (pre ++ f :: post) d0 = (DErr, d2)).
  { rewrite saveFiles_app, Hpre. cbn [saveFiles]. unfold dbind. rewrite Hf.
    reflexivity. }
  split.
  - unfold storeUpstreamData, dbind. rewrite Hshare, Hlist, Hall. reflexivity.
  - intros d3 H. rewrite Hall in H. discriminate.
Qed.

Lemma storeUpstreamData_first_failure_witness :
  storeUpstreamData fails_media_1 "s" upstream_two db_empty
  = (false, snd (saveMediaFile fails_media_1 "s" (JObj [("fs_id", JNum 1)])
                   (snd (saveShare fails_media_1 "s" upstream_two db_empty)))).
Proof.
  destruct (storeUpstreamData_first_failure fails_media_1 "s" upstream_two db_empty
              [] (JObj [("fs_id", JNum 1)]) [JObj [("fs_id", JNum 2)]]
              (snd (saveShare fails_media_1 "s" upstream_two db_empty))
              (snd (saveShare fails_media_1 "s" upstream_two db_empty))
              (snd (saveMediaFile fails_media_1 "s" (JObj [("fs_id", JNum 1)])
                      (snd (saveShare fails_media_1 "s" upstream_two db_empty))))
              eq_refl eq_refl eq_refl eq_refl) as [H _].
  exact H.
Defined.

(* ------------------------------------------------------------------ *)
(** ** Admin helpers and list handlers *)

(** Number of [?] placeholders in an SQL text. *)
Fixpoint count_qmarks (s : string) : nat :=
  match s with
  | EmptyString => 0
  | String c rest => (if Ascii.eqb c "?" then 1 else 0) + count_qmarks rest
  end.

Lemma count_qmarks_app a b :
  count_qmarks (a ++ b) = (count_qmarks a + count_qmarks b)%nat.
Proof.
  induction a as [|c a IH]; [reflexivity|]. cbn [append count_qmarks].
  rewrite IH. lia.
Qed.

Lemma count_qmarks_join xs :
  count_qmarks (join_str " AND " xs) = list_sum (map count_qmarks xs).
Proof.
  induction xs as [|x xs IH]; [reflexivity|].
  destruct xs as [|y ys]; [cbn; lia|].
  change (join_str " AND " (x :: y :: ys))
    with (x ++ " AND " ++ join_str " AND " (y :: ys))%string.
  rewrite !count_qmarks_app, IH. cbn [map list_sum count_qmarks Ascii.eqb]. cbn. lia.
Qed.

Lemma count_qmarks_where xs :
  count_qmarks (where_of xs) = list_sum (map count_qmarks xs).
Proof.
  destruct xs as [|x xs]; [reflexivity|]. unfold where_of.
  rewrite count_qmarks_app, count_qmarks_join. reflexivity.
Qed.

Lemma normalizeSort_in s allowed fb :
  In fb allowed -> In (normalizeSort s allowed fb) allowed.
Proof.
  intros Hfb. unfold normalizeSort. destruct s as [s|]; [|exact Hfb].
  destruct (existsb (String.eqb s) allowed) eqn:E; [|exact Hfb].
  apply existsb_exists in E as (x & Hx & Hsx). apply String.eqb_eq in Hsx.
  subst. exact Hx.
Qed.

Lemma normalizeOrder_cases o :
  normalizeOrder o = "ASC" \/ normalizeOrder o = "DESC".
Proof.
  unfold normalizeOrder. destruct o as [o|]; [|right; reflexivity].
  destruct (_ && _); [left|right]; reflexivity.
Qed.

Lemma clamp_range v lo hi : lo <= hi -> lo <= clamp v lo hi <= hi.
Proof. unfold clamp. lia. Qed.

Lemma parsePositiveInt_pos v fb : 1 <= fb -> 1 <= parsePositiveInt v fb.
Proof.
  unfold parsePositiveInt. destruct (parseInt10 v) as [n|]; [|lia].
  destruct (n <=? 0) eqn:E; lia.
Qed.

Lemma count_then_list_snd c qc ql pg ps :
  snd (count_then_list c qc ql pg ps) = [qc] \/
  snd (count_then_list c qc ql pg ps) = [qc; ql].
Proof.
  unfold count_then_list. destruct (d1_first c qc); [|left; reflexivity].
  destruct (d1_all c ql); right; reflexivity.
Qed.

(** The filter fragments present, as the handlers select them. *)
Definition sel (b : bool) (frag : string) : list string := if b then [frag] else [].

Definition shares_where (b : bool) : string :=
  if b then "WHERE share_id LIKE ? OR title LIKE ? OR uk LIKE ?" else "".

Definition files_where (b1 b2 b3 b4 : bool) : string :=
  where_of (sel b1 "share_id = ?" ++ sel b2 "(server_filename LIKE ? OR fs_id LIKE ?)"
            ++ sel b3 "size >= ?" ++ sel b4 "size <= ?").

Definition thumbs_where (b1 b2 : bool) : string :=
  where_of (sel b1 "fs_id = ?" ++ sel b2 "thumbnail_type = ?").

Definition admin_page (p : params) : Z := parsePositiveInt (p "page") 1.
Definition admin_page_size (p : params) : Z :=
  clamp (parsePositiveInt (p "pageSize") 50) 1 200.

Definition page_tail (p : params) : list bval :=
  [BNum (Some (admin_page_size p));
   BNum (Some ((admin_page p - 1) * admin_page_size p))].

Definition shares_sort (p : params) : string :=
  normalizeSort (p "sort") ["updated_at"; "server_time"; "title"] "updated_at".

Definition files_sort (p : params) : string :=
  normalizeSort (p "sort") ["server_mtime"; "size"; "server_filename"] "server_mtime".

Lemma handleAdminShares_shape c p :
  let b := str_truthy (param_trim p "q") in
  exists binds,
    count_qmarks (shares_where b) = List.length binds /\
    handleAdminShares (Some c) p =
    count_then_list c
      (mkQuery ("SELECT COUNT(*) as total FROM shares " ++ shares_where b) binds)
      (mkQuery ("SELECT share_id, uk, title, server_time, request_id, updated_at"
                ++ nl7 ++ "FROM shares " ++ shares_where b
                ++ nl7 ++ "ORDER BY " ++ shares_sort p ++ " "
                ++ normalizeOrder (p "order")
                ++ nl7 ++ "LIMIT ? OFFSET ?")
               (binds ++ page_tail p))
      (admin_page p) (admin_page_size p).
Proof.
  cbv zeta. unfold handleAdminShares. cbn [requireD1 d1_is_bound].
  destruct (param_trim p "q") as [[|ch s]|];
    (eexists; split; [|reflexivity]); reflexivity.
Qed.

Lemma handleAdminFiles_shape c p :
  let b1 := str_truthy (param_trim p "share_id") in
  let b2 := str_truthy (param_trim p "q") in
  let b3 := str_truthy (p "size_min") in
  let b4 := str_truthy (p "size_max") in
  exists binds,
    count_qmarks (files_where b1 b2 b3 b4) = List.length binds /\
    handleAdminFiles (Some c) p =
    count_then_list c
      (mkQuery ("SELECT COUNT(*) as total FROM media_files "
                ++ files_where b1 b2 b3 b4) binds)
      (mkQuery ("SELECT * FROM media_files " ++ files_where b1 b2 b3 b4
                ++ nl7 ++ "ORDER BY " ++ files_sort p ++ " "
                ++ normalizeOrder (p "order")
                ++ nl7 ++ "LIMIT ? OFFSET ?")
               (binds ++ page_tail p))
      (admin_page p) (admin_page_size p).
Proof.
  cbv zeta. unfold handleAdminFiles. cbn [requireD1 d1_is_bound].
  destruct (param_trim p "share_id") as [[|c1 s1]|];
  destruct (param_trim p "q") as [[|c2 s2]|];
  destruct (p "size_min") as [[|c3 s3]|];
  destruct (p "size_max") as [[|c4 s4]|];
    (eexists; split; [|reflexivity]); reflexivity.
Qed.

Lemma handleAdminThumbnails_shape c p :
  let b1 := str_truthy (param_trim p "fs_id") in
  let b2 := str_truthy (param_trim p "type") in
  exists binds,
    count_qmarks (thumbs_where b1 b2) = List.length binds /\
    handleAdminThumbnails (Some c) p =
    count_then_list c
      (mkQuery ("SELECT COUNT(*) as total FROM thumbnails " ++ thumbs_where b1 b2)
               binds)
      (mkQuery ("SELECT * FROM thumbnails " ++ thumbs_where b1 b2
                ++ nl7 ++ "ORDER BY id DESC"
                ++ nl7 ++ "LIMIT ? OFFSET ?")
               (binds ++ page_tail p))
      (admin_page p) (admin_page_size p).
Proof.
  cbv zeta. unfold handleAdminThumbnails. cbn [requireD1 d1_is_bound].
  destruct (param_trim p "fs_id") as [[|c1 s1]|];
  destruct (param_trim p "type") as [[|c2 s2]|];
    (eexists; split; [|reflexivity]); reflexivity.
Qed.

Lemma str_app_assoc (a b c : string) :
  ((a ++ b) ++ c)%string = (a ++ (b ++ c))%string.
Proof. induction a as [|x a IH]; [reflexivity|]. cbn. rewrite IH. reflexivity. Qed.

Lemma count_then_list_nth c qc ql pg ps i q :
  nth_error (snd (count_then_list c qc ql pg ps)) i = Some q ->
  (i = 0%nat /\ q = qc) \/ (i = 1%nat /\ q = ql).
Proof.
  intros H. destruct (count_then_list_snd c qc ql pg ps) as [E|E]; rewrite E in H;
    destruct i as [|[|i]]; cbn in H; try discriminate;
    try (destruct i; discriminate); injection H as <-; auto.
Qed.

Lemma count_then_list_fst c qc ql pg ps body :
  fst (count_then_list c qc ql pg ps) = RJson body ->
  jfield (Some body) "page" = Some (JNum pg) /\
  jfield (Some body) "pageSize" = Some (JNum ps).
Proof.
  unfold count_then_list. destruct (d1_first c qc); [|discriminate].
  destruct (d1_all c ql); [|discriminate]. cbn. intros H. injection H as <-.
  split; reflexivity.
Qed.

Lemma shares_sort_cases p :
  In (shares_sort p) ["updated_at"; "server_time"; "title"].
Proof. apply normalizeSort_in. left. reflexivity. Qed.

Lemma files_sort_cases p :
  In (files_sort p) ["server_mtime"; "size"; "server_filename"].
Proof. apply normalizeSort_in. left. reflexivity. Qed.

Lemma count_in_list x l :
  In x l -> forallb (fun y => Nat.eqb (count_qmarks y) 0) l = true ->
  count_qmarks x = 0%nat.
Proof.
  intros Hin Hall. rewrite forallb_forall in Hall.
  apply Nat.eqb_eq, Hall, Hin.
Qed.

Lemma order_no_q o : count_qmarks (normalizeOrder o) = 0%nat.
Proof. destruct (normalizeOrder_cases o) as [-> | ->]; reflexivity. Qed.

Ltac count_goal Hc :=
  cbn [q_sql q_binds];
  rewrite ?count_qmarks_app, ?length_app, Hc;
  repeat match goal with
  | |- context [count_qmarks (shares_sort ?p)] =>
      rewrite (count_in_list _ _ (shares_sort_cases p) eq_refl)
  | |- context [count_qmarks (files_sort ?p)] =>
      rewrite (count_in_list _ _ (files_sort_cases p) eq_refl)
  | |- context [count_qmarks (normalizeOrder ?o)] => rewrite (order_no_q o)
  end;
  cbn; lia.

Ltac ctl_cases :=
  match goal with
  | |- context [snd (count_then_list ?c ?a ?b ?x ?y)] =>
      destruct (count_then_list_snd c a b x y) as [-> | ->]
  end.

(** Every statement the admin list handlers prepare ([handleAdminShares],
    [handleAdminFiles], [handleAdminThumbnails],
    [handleAdminAnalyticsProcessed]) carries exactly as many bound values
    as it has [?] placeholders, whatever the query parameters and whatever
    the database answers. *)
Theorem admin_placeholders_match_binds d1 p :
  Forall (fun q => count_qmarks (q_sql q) = List.length (q_binds q))
         (snd (handleAdminShares d1 p)) /\
  Forall (fun q => count_qmarks (q_sql q) = List.length (q_binds q))
         (snd (handleAdminFiles d1 p)) /\
  Forall (fun q => count_qmarks (q_sql q) = List.length (q_binds q))
         (snd (handleAdminThumbnails d1 p)) /\
  Forall (fun q => count_qmarks (q_sql q) = List.length (q_binds q))
         (snd (handleAdminAnalyticsProcessed d1 p)).
Proof.
  destruct d1 as [c|]; [|repeat split; constructor].
  split; [|split; [|split]].
  - destruct (handleAdminShares_shape c p) as (bs & Hc & ->).
    ctl_cases; repeat constructor; count_goal Hc.
  - destruct (handleAdminFiles_shape c p) as (bs & Hc & ->).
    ctl_cases; repeat constructor; count_goal Hc.
  - destruct (handleAdminThumbnails_shape c p) as (bs & Hc & ->).
    ctl_cases; repeat constructor; count_goal Hc.
  - unfold handleAdminAnalyticsProcessed. cbn [requireD1 d1_is_bound].
    destruct (d1_all c _); repeat constructor.
Qed.

(** The SQL text of every statement [handleAdminShares], [handleAdminFiles]
    and [handleAdminThumbnails] prepare depends only on which filters are
    present (a non-empty trimmed [q], [share_id], [fs_id], [type], a
    non-empty [size_min], [size_max]) and on the normalized sort column and
    order: two requests that agree on these get the same SQL texts, the
    filter values themselves reaching the database only as bound values. *)
Theorem admin_sql_text_fixed c c' p p' :
  (str_truthy (param_trim p "q") = str_truthy (param_trim p' "q") ->
   shares_sort p = shares_sort p' ->
   normalizeOrder (p "order") = normalizeOrder (p' "order") ->
   forall i q q',
     nth_error (snd (handleAdminShares (Some c) p)) i = Some q ->
     nth_error (snd (handleAdminShares (Some c') p')) i = Some q' ->
     q_sql q = q_sql q') /\
  (str_truthy (param_trim p "share_id") = str_truthy (param_trim p' "share_id") ->
   str_truthy (param_trim p "q") = str_truthy (param_trim p' "q") ->
   str_truthy (p "size_min") = str_truthy (p' "size_min") ->
   str_truthy (p "size_max") = str_truthy (p' "size_max") ->
   files_sort p = files_sort p' ->
   normalizeOrder (p "order") = normalizeOrder (p' "order") ->
   forall i q q',
     nth_error (snd (handleAdminFiles (Some c) p)) i = Some q ->
     nth_error (snd (handleAdminFiles (Some c') p')) i = Some q' ->
     q_sql q = q_sql q') /\
  (str_truthy (param_trim p "fs_id") = str_truthy (param_trim p' "fs_id") ->
   str_truthy (param_trim p "type") = str_truthy (param_trim p' "type") ->
   forall i q q',
     nth_error (snd (handleAdminThumbnails (Some c) p)) i = Some q ->
     nth_error (snd (handleAdminThumbnails (Some c') p')) i = Some q' ->
     q_sql q = q_sql q').
Proof.
  split; [|split].
  - intros H1 Hs Ho i q q' Hq Hq'.
    destruct (handleAdminShares_shape c p) as (bs & _ & E).
    destruct (handleAdminShares_shape c' p') as (bs' & _ & E').
    rewrite E in Hq. rewrite E' in Hq'.
    apply count_then_list_nth in Hq as [[-> ->] | [-> ->]];
      apply count_then_list_nth in Hq' as [[Hi ->] | [Hi ->]];
      try discriminate; cbn [q_sql]; rewrite ?H1, ?Hs, ?Ho; reflexivity.
  - intros H1 H2 H3 H4 Hs Ho i q q' Hq Hq'.
    destruct (handleAdminFiles_shape c p) as (bs & _ & E).
    destruct (handleAdminFiles_shape c' p') as (bs' & _ & E').
    rewrite E in Hq. rewrite E' in Hq'.
    apply count_then_list_nth in Hq as [[-> ->] | [-> ->]];
      apply count_then_list_nth in Hq' as [[Hi ->] | [Hi ->]];
      try discriminate; cbn [q_sql]; rewrite ?H1, ?H2, ?H3, ?H4, ?Hs, ?Ho;
      reflexivity.
  - intros H1 H2 i q q' Hq Hq'.
    destruct (handleAdminThumbnails_shape c p) as (bs & _ & E).
    destruct (handleAdminThumbnails_shape c' p') as (bs' & _ & E').
    rewrite E in Hq. rewrite E' in Hq'.
    apply count_then_list_nth in Hq as [[-> ->] | [-> ->]];
      apply count_then_list_nth in Hq' as [[Hi ->] | [Hi ->]];
      try discriminate; cbn [q_sql]; rewrite ?H1, ?H2; reflexivity.
Qed.

(** Paging of the admin list handlers: [page] is at least 1, [pageSize]
    lies in [1, 200] and the offset [(page - 1) * pageSize] is
    non-negative, whatever the [page] and [pageSize] parameters; the page
    statement of [handleAdminShares] and [handleAdminFiles] ends in
    [ORDER BY <column> <ASC|DESC> LIMIT ? OFFSET ?] with the column one of
    the handler's allowed ones, the page statement of all three list
    handlers binds [pageSize] and the offset last, and a JSON answer
    reports that [page] and [pageSize]. [handleAdminAnalyticsProcessed]
    binds a [limit] in [1, 180]. *)
Theorem admin_paging_bounds c p :
  let page := parsePositiveInt (p "page") 1 in
  let pageSize := clamp (parsePositiveInt (p "pageSize") 50) 1 200 in
  let tail := [BNum (Some pageSize); BNum (Some ((page - 1) * pageSize))] in
  1 <= page /\ 1 <= pageSize <= 200 /\ 0 <= (page - 1) * pageSize /\
  (forall ql, nth_error (snd (handleAdminShares (Some c) p)) 1 = Some ql ->
     exists pre srt ord bs,
       In srt ["updated_at"; "server_time"; "title"] /\ In ord ["ASC"; "DESC"] /\
       q_sql ql = (pre ++ "ORDER BY " ++ srt ++ " " ++ ord ++ nl7
                   ++ "LIMIT ? OFFSET ?")%string /\
       q_binds ql = bs ++ tail) /\
  (forall ql, nth_error (snd (handleAdminFiles (Some c) p)) 1 = Some ql ->
     exists pre srt ord bs,
       In srt ["server_mtime"; "size"; "server_filename"] /\
       In ord ["ASC"; "DESC"] /\
       q_sql ql = (pre ++ "ORDER BY " ++ srt ++ " " ++ ord ++ nl7
                   ++ "LIMIT ? OFFSET ?")%string /\
       q_binds ql = bs ++ tail) /\
  (forall ql, nth_error (snd (handleAdminThumbnails (Some c) p)) 1 = Some ql ->
     exists bs, q_binds ql = bs ++ tail) /\
  (forall body,
     fst (handleAdminShares (Some c) p) = RJson body \/
     fst (handleAdminFiles (Some c) p) = RJson body \/
     fst (handleAdminThumbnails (Some c) p) = RJson body ->
     jfield (Some body) "page" = Some (JNum page) /\
     jfield (Some body) "pageSize" = Some (JNum pageSize)) /\
  (forall qr, In qr (snd (handleAdminAnalyticsProcessed (Some c) p)) ->
     exists limit, q_binds qr = [BNum (Some limit)] /\ 1 <= limit <= 180).
Proof.
  cbv zeta.
  pose proof (parsePositiveInt_pos (p "page") 1 ltac:(lia)) as Hp.
  pose proof (clamp_range (parsePositiveInt (p "pageSize") 50) 1 200 ltac:(lia))
    as Hs.
  split; [exact Hp|]. split; [exact Hs|]. split; [nia|].
  split; [|split; [|split; [|split]]].
  - intros ql Hq. destruct (handleAdminShares_shape c p) as (bs & _ & E).
    rewrite E in Hq. apply count_then_list_nth in Hq as [[Hi _] | [_ ->]];
      [discriminate|].
    exists ("SELECT share_id, uk, title, server_time, request_id, updated_at"
            ++ nl7 ++ "FROM shares " ++ shares_where (str_truthy (param_trim p "q"))
            ++ nl7)%string,
           (shares_sort p), (normalizeOrder (p "order")), bs.
    split; [apply shares_sort_cases|].
    split; [destruct (normalizeOrder_cases (p "order")) as [-> | ->];
            [left | right; left]; reflexivity|].
    split; [cbn [q_sql]; rewrite !str_app_assoc; reflexivity | reflexivity].
  - intros ql Hq. destruct (handleAdminFiles_shape c p) as (bs & _ & E).
    rewrite E in Hq. apply count_then_list_nth in Hq as [[Hi _] | [_ ->]];
      [discriminate|].
    exists ("SELECT * FROM media_files "
            ++ files_where (str_truthy (param_trim p "share_id"))
                 (str_truthy (param_trim p "q")) (str_truthy (p "size_min"))
                 (str_truthy (p "size_max"))
            ++ nl7)%string,
           (files_sort p), (normalizeOrder (p "order")), bs.
    split; [apply files_sort_cases|].
    split; [destruct (normalizeOrder_cases (p "order")) as [-> | ->];
            [left | right; left]; reflexivity|].
    split; [cbn [q_sql]; rewrite !str_app_assoc; reflexivity | reflexivity].
  - intros ql Hq. destruct (handleAdminThumbnails_shape c p) as (bs & _ & E).
    rewrite E in Hq. apply count_then_list_nth in Hq as [[Hi _] | [_ ->]];
      [discriminate|].
    exists bs. reflexivity.
  - intros body [Hb | [Hb | Hb]].
    + destruct (handleAdminShares_shape c p) as (bs & _ & E). rewrite E in Hb.
      exact (count_then_list_fst _ _ _ _ _ _ Hb).
    + destruct (handleAdminFiles_shape c p) as (bs & _ & E). rewrite E in Hb.
      exact (count_then_list_fst _ _ _ _ _ _ Hb).
    + destruct (handleAdminThumbnails_shape c p) as (bs & _ & E). rewrite E in Hb.
      exact (count_then_list_fst _ _ _ _ _ _ Hb).
  - intros qr Hq. unfold handleAdminAnalyticsProcessed in Hq.
    cbn [requireD1 d1_is_bound] in Hq.
    assert (Hl : 1 <= clamp (parsePositiveInt (p "limit") 30) 1 180 <= 180)
      by (apply clamp_range; lia).
    destruct (d1_all c _); destruct Hq as [<- | []];
      eexists; split; [reflexivity | exact Hl | reflexivity | exact Hl].
Qed.

(* ------------------------------------------------------------------ *)
(** ** [parsePositiveInt] on decimal texts *)

Lemma digit10_code k : 0 <= k < 10 ->
  Z.of_nat (nat_of_ascii (digit10 k)) = 48 + k.
Proof.
  intros Hk. unfold digit10. rewrite nat_ascii_embedding by lia. lia.
Qed.

Lemma digits_prefix_digit k r a s : 0 <= k < 10 ->
  digits_prefix (String (digit10 k) r) a s = digits_prefix r (a * 10 + k) true.
Proof.
  intros Hk. cbn [digits_prefix]. rewrite digit10_code by exact Hk.
  replace ((48 <=? 48 + k) && (48 + k <=? 57)) with true
    by (symmetry; apply andb_true_iff; split; apply Z.leb_le; lia).
  f_equal. lia.
Qed.

Lemma dec_aux_read f n acc s :
  (f <> 0)%nat -> 0 <= n < 10 ^ Z.of_nat f ->
  digits_prefix (dec_aux f n acc) 0 s = digits_prefix acc n true.
Proof.
  revert n acc s. induction f as [|f IH]; intros n acc s Hf Hn; [congruence|].
  cbn [dec_aux].
  assert (Hm : 0 <= n mod 10 < 10) by (apply Z.mod_pos_bound; lia).
  destruct (n / 10 =? 0) eqn:E.
  - apply Z.eqb_eq in E. rewrite digits_prefix_digit by exact Hm.
    f_equal. pose proof (Z.div_mod n 10 ltac:(lia)). lia.
  - apply Z.eqb_neq in E.
    assert (Hf' : f <> 0%nat).
    { intros ->. cbn in Hn. pose proof (Z.div_small n 10 ltac:(lia)). lia. }
    assert (Hd : 0 <= n / 10 < 10 ^ Z.of_nat f).
    { split; [apply Z.div_pos; lia|].
      apply Z.div_lt_upper_bound; [lia|].
      rewrite <- Z.pow_succ_r by lia. rewrite <- Nat2Z.inj_succ. lia. }
    rewrite (IH _ _ _ Hf' Hd), digits_prefix_digit by exact Hm.
    f_equal. pose proof (Z.div_mod n 10 ltac:(lia)). lia.
Qed.

Lemma dec_aux_head f n acc :
  (f <> 0)%nat -> 0 <= n ->
  exists k r, 0 <= k < 10 /\ dec_aux f n acc = String (digit10 k) r.
Proof.
  revert n acc. induction f as [|f IH]; intros n acc Hf Hn; [congruence|].
  cbn [dec_aux].
  assert (Hm : 0 <= n mod 10 < 10) by (apply Z.mod_pos_bound; lia).
  destruct (n / 10 =? 0).
  - exists (n mod 10), acc. split; [exact Hm | reflexivity].
  - destruct f as [|f'].
    + exists (n mod 10), acc. split; [exact Hm | reflexivity].
    + apply IH; [congruence | apply Z.div_pos; lia].
Qed.

Lemma parse_digit_head k r : 0 <= k < 10 ->
  parseInt10 (Some (String (digit10 k) r))
  = digits_prefix (String (digit10 k) r) 0 false.
Proof.
  intros Hk.
  assert (Hc : k = 0 \/ k = 1 \/ k = 2 \/ k = 3 \/ k = 4 \/ k = 5 \/ k = 6 \/
               k = 7 \/ k = 8 \/ k = 9) by lia.
  repeat destruct Hc as [-> | Hc]; try (subst k); reflexivity.
Qed.

Lemma parseInt10_dec n : 0 <= n < 10 ^ 40 -> parseInt10 (Some (z_to_dec n)) = Some n.
Proof.
  intros Hn. unfold z_to_dec.
  replace (n <? 0) with false by (symmetry; apply Z.ltb_ge; lia).
  destruct (dec_aux_head 40 n EmptyString ltac:(discriminate) ltac:(lia))
    as (k & r & Hk & E).
  rewrite E, parse_digit_head by exact Hk. rewrite <- E.
  rewrite dec_aux_read by (try discriminate; exact Hn). reflexivity.
Qed.

(** [parsePositiveInt] reads back the decimal text of an integer of
    magnitude at most 2^53 (as [String(n)] writes it; every such integer
    is a double, so [Number.parseInt] returns it exactly): a positive [n]
    gives [n], zero or a negative [n] gives the fallback. *)
Theorem parsePositiveInt_decimal n fallback
  (Hn : - 2 ^ 53 <= n <= 2 ^ 53) :
  parsePositiveInt (Some (z_to_dec n)) fallback
  = if 0 <? n then n else fallback.
Proof.
  assert (Hb : 2 ^ 53 < 10 ^ 40) by reflexivity.
  assert (Hn' : - 10 ^ 40 < n < 10 ^ 40) by lia. clear Hn Hb. rename Hn' into Hn.
  destruct (Z.ltb_spec 0 n) as [Hpos|Hneg].
  - unfold parsePositiveInt. rewrite parseInt10_dec by lia.
    replace (n <=? 0) with false by (symmetry; apply Z.leb_gt; lia). reflexivity.
  - destruct (Z.eq_dec n 0) as [->|Hnz].
    + unfold parsePositiveInt. rewrite parseInt10_dec by lia. reflexivity.
    + unfold parsePositiveInt, z_to_dec.
      replace (n <? 0) with true by (symmetry; apply Z.ltb_lt; lia).
      change (parseInt10 (Some (String "-" (dec_aux 40 (- n) EmptyString))))
        with (option_map Z.opp (digits_prefix (dec_aux 40 (- n) EmptyString) 0 false)).
      rewrite dec_aux_read by (try discriminate; lia). cbn [option_map digits_prefix].
      replace (- - n <=? 0) with true by (symmetry; apply Z.leb_le; lia).
      reflexivity.
Qed.

Lemma parsePositiveInt_decimal_witness :
  - 2 ^ 53 <= 25 <= 2 ^ 53 /\ parsePositiveInt (Some "25") 1 = 25.
Proof.
  assert (H : - 2 ^ 53 <= 25 <= 2 ^ 53) by (split; apply Z.leb_le; reflexivity).
  split; [exact H|].
  exact (parsePositiveInt_decimal 25 1 H).
Defined.

(* ------------------------------------------------------------------ *)
(** ** [hashString] *)

(** Every character of [s] satisfies [p]. *)
Fixpoint all_chars (p : ascii -> bool) (s : string) : bool :=
  match s with
  | EmptyString => true
  | String c rest => p c && all_chars p rest
  end.

(** A digit of [toString(36)]: [0-9] or [a-z]. *)
Definition base36_char (c : ascii) : bool :=
  let n := nat_of_ascii c in
  ((48 <=? n) && (n <=? 57))%nat || ((97 <=? n) && (n <=? 122))%nat.

Lemma to_int32_range z : - 2 ^ 31 <= to_int32 z < 2 ^ 31.
Proof.
  unfold to_int32. pose proof (Z.mod_pos_bound z (2 ^ 32) ltac:(lia)).
  destruct (2 ^ 31 <=? z mod 2 ^ 32) eqn:E;
    [apply Z.leb_le in E | apply Z.leb_gt in E]; lia.
Qed.

Lemma hash_loop_range h s :
  - 2 ^ 31 <= h < 2 ^ 31 -> - 2 ^ 31 <= hash_loop h s < 2 ^ 31.
Proof.
  revert h. induction s as [|c s IH]; intros h Hh; [exact Hh|].
  cbn [hash_loop]. apply IH, to_int32_range.
Qed.

Lemma digit36_ok d : 0 <= d < 36 -> base36_char (digit36 d) = true.
Proof.
  intros Hd. unfold digit36, base36_char.
  destruct (d <? 10) eqn:E; [apply Z.ltb_lt in E | apply Z.ltb_ge in E];
    rewrite nat_ascii_embedding by lia; apply orb_true_iff;
    [left | right]; apply andb_true_iff; split; apply Nat.leb_le; lia.
Qed.

Lemma base36_aux_shape f n acc k :
  0 <= n < 36 ^ Z.of_nat k -> (1 <= k)%nat ->
  (String.length (base36_aux f n acc) <= String.length acc + k)%nat /\
  ((f <> 0)%nat -> (String.length acc < String.length (base36_aux f n acc))%nat) /\
  (all_chars base36_char acc = true ->
   all_chars base36_char (base36_aux f n acc) = true).
Proof.
  revert n acc k. induction f as [|f IH]; intros n acc k Hn Hk.
  - cbn. split; [lia|]. split; [congruence | auto].
  - cbn [base36_aux].
    assert (Hm : 0 <= n mod 36 < 36) by (apply Z.mod_pos_bound; lia).
    pose proof (digit36_ok _ Hm) as Hd.
    destruct (n / 36 =? 0) eqn:E.
    + cbn [String.length all_chars]. rewrite Hd. split; [lia|]. split; [lia|auto].
    + apply Z.eqb_neq in E.
      assert (Hk2 : (2 <= k)%nat).
      { destruct k as [|[|k]]; [lia| |lia]. cbn in Hn.
        pose proof (Z.div_small n 36 ltac:(lia)). lia. }
      assert (Hd' : 0 <= n / 36 < 36 ^ Z.of_nat (k - 1)).
      { split; [apply Z.div_pos; lia|].
        apply Z.div_lt_upper_bound; [lia|].
        rewrite <- Z.pow_succ_r by lia.
        replace (Z.succ (Z.of_nat (k - 1))) with (Z.of_nat k) by lia. lia. }
      destruct (IH (n / 36) (String (digit36 (n mod 36)) acc) (k - 1)%nat Hd'
                  ltac:(lia)) as (H1 & H2 & H3).
      cbn [String.length all_chars] in H1, H2, H3. rewrite Hd in H3.
      split; [lia|]. split.
      * intros _. destruct f as [|f]; [cbn; lia|]. specialize (H2 ltac:(lia)). lia.
      * intros Ha. apply H3. exact Ha.
Qed.

(** [hashString] always gives between 1 and 6 characters, each a digit
    [0-9] or a lower-case letter [a-z]: the absolute value of a 32-bit hash
    is at most 2^31, below 36^6. *)
Theorem hashString_shape input :
  (1 <= String.length (hashString input) <= 6)%nat /\
  all_chars base36_char (hashString input) = true.
Proof.
  unfold hashString, to_base36.
  pose proof (hash_loop_range 5381 input ltac:(lia)) as Hr.
  destruct (base36_aux_shape 16 (Z.abs (hash_loop 5381 input)) EmptyString 6
              ltac:(cbn; lia) ltac:(lia)) as (H1 & H2 & H3).
  cbn [String.length] in H1, H2. split; [split|].
  - specialize (H2 ltac:(discriminate)). lia.
  - lia.
  - apply H3. reflexivity.
Qed.

(* ------------------------------------------------------------------ *)
(** ** [findBetween] and [extractJsToken] *)

Transparent String.prefix.

Lemma prefix_app_self m r : String.prefix m (m ++ r) = true.
Proof.
  induction m as [|c m IH]; [destruct r; reflexivity|]. cbn.
  destruct (ascii_dec c c) as [_|n]; [exact IH | congruence].
Qed.

Lemma index_app_shift x n b y :
  String.index (String.length x + n) b (x ++ y)
  = option_map (Nat.add (String.length x)) (String.index n b y).
Proof.
  induction x as [|c x IH].
  - cbn. destruct (String.index n b y); reflexivity.
  - cbn [String.length append Nat.add]. cbn [String.index].
    rewrite IH. destruct (String.index n b y); reflexivity.
Qed.

Lemma substring_app_shift x n m y :
  substring (String.length x + n) m (x ++ y) = substring n m y.
Proof. induction x as [|c x IH]; [reflexivity|]. exact IH. Qed.

Lemma substring_app_prefix t r :
  substring 0 (String.length t) (t ++ r) = t.
Proof.
  induction t as [|c t IH]; [destruct r; reflexivity|].
  cbn [String.length append]. cbn. rewrite IH. reflexivity.
Qed.

Lemma index_first m pre rest :
  m <> EmptyString ->
  (forall c r, no_char "%" (String c r) = true ->
               String.prefix m (String c r ++ m ++ rest) = false) ->
  no_char "%" pre = true ->
  String.index 0 m (pre ++ m ++ rest) = Some (String.length pre).
Proof.
  intros Hm Hno. induction pre as [|c pre IH]; intros Hpre.
  - cbn [append String.length]. destruct m as [|c0 m0]; [congruence|].
    cbn [append]. cbn [String.index].
    pose proof (prefix_app_self (String c0 m0) rest) as Hp.
    cbn [append] in Hp. rewrite Hp. reflexivity.
  - cbn [append]. cbn [String.index].
    pose proof (Hno c pre Hpre) as Hp. cbn [append] in Hp. rewrite Hp.
    cbn in Hpre. apply andb_prop in Hpre as [_ Hpre].
    rewrite (IH Hpre). reflexivity.
Qed.

Lemma start_marker_skip c r post :
  no_char "%" (String c r) = true ->
  String.prefix "fn%28%22" (String c r ++ "fn%28%22" ++ post) = false.
Proof.
  intros H. cbn in H. apply andb_prop in H as [_ H].
  destruct r as [|d [|e r]]; cbn [append].
  - cbn [String.prefix]. destruct (ascii_dec "f" c); [|reflexivity].
    destruct (ascii_dec "n" "f"); [discriminate|reflexivity].
  - cbn [String.prefix]. destruct (ascii_dec "f" c); [|reflexivity].
    destruct (ascii_dec "n" d); [|reflexivity].
    destruct (ascii_dec "%" "f"); [discriminate|reflexivity].
  - cbn in H. apply andb_prop in H as [_ H]. apply andb_prop in H as [He _].
    cbn [String.prefix]. destruct (ascii_dec "f" c); [|reflexivity].
    destruct (ascii_dec "n" d); [|reflexivity].
    destruct (ascii_dec "%" e) as [<-|]; [discriminate|reflexivity].
Qed.

Lemma end_marker_skip c r post :
  no_char "%" (String c r) = true ->
  String.prefix "%22%29" (String c r ++ "%22%29" ++ post) = false.
Proof.
  intros H. cbn in H. apply andb_prop in H as [Hc _].
  cbn [append String.prefix]. destruct (ascii_dec "%" c) as [<-|]; [discriminate|reflexivity].
Qed.

(** [extractJsToken] returns the token [t] of a page
    [pre ++ "fn%28%22" ++ t ++ "%22%29" ++ post] when neither the text
    before the marker nor the token contains a [%] (a [jsToken] is written
    as [fn%28%22<token>%22%29]). *)
Theorem extractJsToken_marked pre t post
  (Hpre : no_char "%" pre = true) (Ht : no_char "%" t = true) :
  extractJsToken (pre ++ "fn%28%22" ++ t ++ "%22%29" ++ post) = Some t.
Proof.
  unfold extractJsToken, findBetween.
  rewrite (index_first "fn%28%22" pre (t ++ "%22%29" ++ post)
             ltac:(discriminate)
             (fun c r H => start_marker_skip c r _ H) Hpre).
  change (String.length "fn%28%22") with (String.length "fn%28%22" + 0)%nat.
  rewrite index_app_shift, index_app_shift.
  rewrite (index_first "%22%29" t post ltac:(discriminate)
             (fun c r H => end_marker_skip c r _ H) Ht).
  cbn [option_map].
  replace (String.length pre + (String.length "fn%28%22" + String.length t)
           - (String.length pre + (String.length "fn%28%22" + 0)))%nat
    with (String.length t) by lia.
  rewrite substring_app_shift, substring_app_shift, substring_app_prefix.
  reflexivity.
Qed.

Lemma extractJsToken_marked_witness :
  no_char "%" "<script>" = true /\ no_char "%" "ABC123" = true /\
  extractJsToken ("<script>" ++ "fn%28%22" ++ "ABC123" ++ "%22%29" ++ ";")
  = Some "ABC123".
Proof.
  split; [reflexivity|]. split; [reflexivity|].
  exact (extractJsToken_marked "<script>" "ABC123" ";" eq_refl eq_refl).
Defined.

Lemma prefix_length s1 s2 :
  String.prefix s1 s2 = true -> (String.length s1 <= String.length s2)%nat.
Proof.
  revert s2. induction s1 as [|a s1 IH]; intros s2 H; [cbn; lia|].
  destruct s2 as [|b s2]; [discriminate|]. cbn in H |- *.
  destruct (ascii_dec a b); [apply IH in H; lia | discriminate].
Qed.

Lemma index_bounds n s1 s2 m :
  String.index n s1 s2 = Some m ->
  (n <= m)%nat /\ (m + String.length s1 <= String.length s2)%nat.
Proof.
  revert n m. induction s2 as [|b s2 IH]; intros n m H.
  - destruct n; cbn in H; [|discriminate].
    destruct s1; [injection H as <-; cbn; lia | discriminate].
  - destruct n as [|n].
    + cbn [String.index] in H. destruct (String.prefix s1 (String b s2)) eqn:Ep.
      * injection H as <-. apply prefix_length in Ep. lia.
      * destruct (String.index 0 s1 s2) as [k|] eqn:Ek; [|discriminate].
        injection H as <-. apply IH in Ek. cbn. lia.
    + cbn [String.index] in H.
      destruct (String.index n s1 s2) as [k|] eqn:Ek; [|discriminate].
      injection H as <-. apply IH in Ek. cbn. lia.
Qed.

Lemma substring_length n m s :
  String.length (substring n m s) = Nat.min m (String.length s - n).
Proof.
  revert n m. induction s as [|c s IH]; intros n m.
  - destruct n, m; reflexivity.
  - destruct n as [|n].
    + destruct m as [|m]; [reflexivity|]. cbn [substring String.length].
      rewrite IH. cbn. lia.
    + cbn [substring String.length]. rewrite IH. reflexivity.
Qed.

(** [findBetween(str, start, end)] returns [t] only when [start] first
    occurs in [str] at some position [i], [t] is the text right after it,
    [end] occurs right after [t], and [end] does not occur at any earlier
    position after [start]: [t] is the text between the first [start] and
    the next [end]. *)
Theorem findBetween_spec str start fin t
  (H : findBetween str start fin = Some t) :
  exists i,
    substring i (String.length start) str = start /\
    (forall p, (p < i)%nat -> substring p (String.length start) str <> start) /\
    substring (i + String.length start) (String.length t) str = t /\
    substring (i + String.length start + String.length t)
              (String.length fin) str = fin /\
    (forall p, (i + String.length start <= p < i + String.length start
                                                  + String.length t)%nat ->
       substring p (String.length fin) str <> fin).
Proof.
  unfold findBetween in H.
  destruct (String.index 0 start str) as [i|] eqn:Ei; [|discriminate].
  destruct (String.index (i + String.length start) fin str) as [j|] eqn:Ej;
    [|discriminate].
  injection H as Ht.
  destruct (index_bounds _ _ _ _ Ej) as [Hij Hj].
  assert (Hlen : String.length t = (j - (i + String.length start))%nat).
  { rewrite <- Ht, substring_length. lia. }
  exists i. split; [exact (index_correct1 _ _ _ _ Ei)|].
  split; [intros p Hp; apply (index_correct2 _ _ _ _ Ei); lia|].
  split; [rewrite Hlen; exact Ht|].
  replace (i + String.length start + String.length t)%nat with j by lia.
  split; [exact (index_correct1 _ _ _ _ Ej)|].
  intros p Hp. apply (index_correct2 _ _ _ _ Ej); lia.
Qed.

Lemma findBetween_spec_witness :
  findBetween "a[x]b]" "[" "]" = Some "x" /\
  substring 1 1 "a[x]b]" = "[" /\ substring 3 1 "a[x]b]" = "]".
Proof.
  assert (H : findBetween "a[x]b]" "[" "]" = Some "x") by reflexivity.
  split; [exact H|].
  destruct (findBetween_spec _ _ _ _ H) as (i & H1 & H2 & _ & H4 & _).
  assert (Hi : i = 1%nat).
  { destruct i as [|[|i]]; [discriminate H1 | reflexivity |].
    exfalso. apply (H2 1%nat); [lia | reflexivity]. }
  subst i. split; [exact H1 | exact H4].
Defined.

(* ------------------------------------------------------------------ *)
(** ** Query strings built with [searchParams.set] *)

Lemma split_app_sep sep x y :
  no_char sep x = true ->
  split_on sep (x ++ String sep y) = x :: split_on sep y.
Proof.
  induction x as [|c x IH]; intros H.
  - cbn. rewrite Ascii.eqb_refl. reflexivity.
  - cbn in H. apply andb_prop in H as [Hc Hx]. apply negb_true_iff in Hc.
    cbn [append split_on]. rewrite Hc, (IH Hx). reflexivity.
Qed.

Lemma split_join sep xs :
  Forall (fun x => no_char sep x = true) xs -> xs <> [] ->
  split_on sep (join_with sep xs) = xs.
Proof.
  induction xs as [|x xs IH]; intros Hall Hne; [congruence|].
  inversion Hall as [|? ? Hx Hxs]; subst.
  destruct xs as [|y ys].
  - apply split_on_no_char; exact Hx.
  - change (join_with sep (x :: y :: ys))
      with (x ++ String sep (join_with sep (y :: ys)))%string.
    rewrite split_app_sep by exact Hx. rewrite IH by (auto; discriminate).
    reflexivity.
Qed.

Lemma split_eq_cons c s :
  c <> "="%char ->
  split_eq (String c s) = let '(n, v) := split_eq s in (String c n, v).
Proof.
  intros H. destruct c as [[] [] [] [] [] [] [] []]; try reflexivity.
  exfalso; apply H; reflexivity.
Qed.

Lemma split_eq_app x y :
  no_char "=" x = true -> split_eq (x ++ String "=" y) = (x, y).
Proof.
  induction x as [|c x IH]; intros H; [reflexivity|].
  cbn in H. apply andb_prop in H as [Hc Hx]. apply negb_true_iff in Hc.
  cbn [append]. rewrite split_eq_cons.
  - rewrite (IH Hx). reflexivity.
  - intros E. subst c. rewrite Ascii.eqb_refl in Hc. discriminate.
Qed.

Lemma no_eq_encode s : no_char "=" (form_encode s) = true.
Proof.
  induction s as [|c s IH]; [reflexivity|]. cbn [form_encode].
  rewrite no_char_app, IH, andb_true_r.
  destruct c as [[] [] [] [] [] [] [] []]; reflexivity.
Qed.

Lemma parse_serialize_pieces ps :
  map (fun piece => let '(n, v) := split_eq piece in
                    (form_decode n, form_decode v))
      (filter (fun piece => negb (String.eqb piece ""))
         (map (fun '(n, v) => (form_encode n ++ "=" ++ form_encode v)%string) ps))
  = ps.
Proof.
  induction ps as [|[n v] ps IH]; [reflexivity|].
  cbn [map filter].
  change ("=" ++ form_encode v)%string with (String "=" (form_encode v)).
  replace (String.eqb (form_encode n ++ String "=" (form_encode v)) "")
    with false by (destruct (form_encode n); reflexivity).
  cbn [negb map]. rewrite split_eq_app by apply no_eq_encode.
  rewrite !form_decode_encode, IH. reflexivity.
Qed.

(** Serializing a list of pairs and parsing the result gives the list back. *)
Lemma parse_serialize ps : parse_query (serialize_query ps) = ps.
Proof.
  destruct ps as [|p ps]; [reflexivity|].
  unfold parse_query, serialize_query.
  rewrite split_join.
  - apply parse_serialize_pieces.
  - apply Forall_forall. intros x Hx. apply in_map_iff in Hx as [[n v] [<- _]].
    rewrite !no_char_app, !no_amp_encode. reflexivity.
  - destruct p; discriminate.
Qed.

Lemma str_app_nil_r (a : string) : (a ++ "")%string = a.
Proof. induction a as [|x a IH]; [reflexivity|]. cbn. rewrite IH. reflexivity. Qed.

Lemma url_set_param_serialized pre ps h n v :
  url_set_param (mkUrl pre (serialize_query ps) h) n v
  = mkUrl pre (serialize_query (params_set ps n v)) h.
Proof. unfold url_set_param. cbn [url_pre url_query url_hash].
  rewrite parse_serialize. reflexivity. Qed.

(** [buildApiUrl t s r] is the share-list endpoint with a query whose
    parameters read back, in this order, as exactly [jsToken = t],
    [shorturl = s] and [root = r], whatever characters the three strings
    hold. *)
Theorem buildApiUrl_query t s r :
  let q := serialize_query [("jsToken", t); ("shorturl", s); ("root", r)] in
  buildApiUrl t s r = ("https://dm.terabox.app/share/list?" ++ q)%string
  /\ parse_query q = [("jsToken", t); ("shorturl", s); ("root", r)].
Proof.
  intros q. split; [|apply parse_serialize].
  unfold buildApiUrl.
  change (mkUrl "https://dm.terabox.app/share/list" "" "")
    with (mkUrl "https://dm.terabox.app/share/list" (serialize_query []) "").
  rewrite !url_set_param_serialized.
  unfold url_toString. cbn -[serialize_query append].
  fold q. replace (String.eqb q "") with false by reflexivity.
  rewrite str_app_nil_r, <- str_app_assoc. reflexivity.
Qed.

(** The share page URL [handlePage] and the scrape path fetch is the
    sharing-link page with a query that reads back as exactly
    [surl = surl]. *)
Theorem pageUrl_query surl :
  pageUrl surl
  = ("https://www.terabox.app/sharing/link?" ++ serialize_query [("surl", surl)])%string
  /\ parse_query (serialize_query [("surl", surl)]) = [("surl", surl)].
Proof.
  split; [|apply parse_serialize].
  unfold pageUrl.
  change (mkUrl "https://www.terabox.app/sharing/link" "" "")
    with (mkUrl "https://www.terabox.app/sharing/link" (serialize_query []) "").
  rewrite url_set_param_serialized.
  unfold url_toString. cbn -[serialize_query append].
  replace (String.eqb (serialize_query [("surl", surl)]) "") with false
    by reflexivity.
  rewrite str_app_nil_r, <- str_app_assoc. reflexivity.
Qed.

(* ------------------------------------------------------------------ *)
(** ** [jsonUpstream], [handlePage], [handleApi] *)

Lemma str_truthy_false v :
  str_truthy v = false -> v = None \/ v = Some "".
Proof. destruct v as [[|c s]|]; cbn; auto; discriminate. Qed.

(** [jsonUpstream] passes a JSON body through only from a 2xx response
    and with that response's status; a non-2xx response always becomes a
    502 [upstream_error] whose details start with the upstream status; and
    it throws exactly when a 2xx response announced as JSON has a body that
    does not parse. *)
Theorem jsonUpstream_status ct res msg :
  (forall st b, jsonUpstream ct res msg = AJson st b ->
     200 <= st <= 299 /\ st = status res /\ body_json res = Some b)
  /\ (resp_ok res = false ->
      exists rest, jsonUpstream ct res msg
        = AResp (RError 502 msg "upstream_error"
                   (Some (JObj (("status", JNum (status res)) :: rest))) None))
  /\ (jsonUpstream ct res msg = AResp (RThrow "SyntaxError") <->
      resp_ok res = true /\ str_includes ct "application/json" = true
      /\ body_json res = None).
Proof.
  unfold jsonUpstream, resp_ok.
  destruct ((200 <=? status res) && (status res <=? 299)) eqn:Hok; cbn [negb].
  - apply andb_prop in Hok as [H1 H2]. apply Z.leb_le in H1, H2.
    destruct (str_includes ct "application/json"), (body_json res) as [b|];
      repeat split; intros; try discriminate; try congruence;
      try (destruct H as [? [? ?]]; discriminate);
      try (inversion H; subst; lia);
      try (inversion H; subst; reflexivity).
  - repeat split; intros; try discriminate.
    + eexists. reflexivity.
    + destruct H as [H _]; discriminate.
Qed.


(** [handleApi] answers 400 naming both parameters, without any network
    call, when [jsToken] or [shorturl] is missing or empty; otherwise it
    makes exactly one fetch, of [buildApiUrl jsToken shorturl "1"], with no
    retry, and answers with [jsonUpstream] of that response. *)
Theorem handleApi_one_fetch ctype_of p s0 :
  (str_truthy (p "jsToken") = false \/ str_truthy (p "shorturl") = false ->
   handleApi ctype_of p s0
   = (AResp (badRequest "Missing jsToken or shorturl"
               (Some ["jsToken"; "shorturl"])), s0))
  /\ (forall t u o rest, p "jsToken" = Some t -> p "shorturl" = Some u ->
      t <> "" -> u <> "" -> script s0 = o :: rest ->
      handleApi ctype_of p s0
      = (match o with
         | Resp res => jsonUpstream (content_type ctype_of res) res
                         "Upstream API request failed"
         | NetErr m => AResp (RThrow m)
         end,
         mkSt rest (trace s0 ++ [EFetch (buildApiUrl t u "1")]))).
Proof.
  unfold handleApi. split.
  - intros [H|H]; apply str_truthy_false in H as [H|H]; rewrite H;
      destruct (p "jsToken") as [t|], (p "shorturl") as [u|];
      rewrite ?orb_true_r; reflexivity.
  - intros t u o rest Ht Hu Hnt Hnu Hs. rewrite Ht, Hu.
    apply String.eqb_neq in Hnt, Hnu. rewrite Hnt, Hnu. cbn [orb].
    unfold bind, fetch. rewrite Hs. destruct o; reflexivity.
Qed.

(* ------------------------------------------------------------------ *)
(** ** Objects built at run time *)

Lemma existsb_key_in (o : jsobj) k :
  existsb (fun p => String.eqb (fst p) k) o = true <-> In k (map fst o).
Proof.
  rewrite existsb_exists, in_map_iff. split.
  - intros [p [Hp E]]. apply String.eqb_eq in E. eauto.
  - intros [p [E Hp]]. exists p. split; [exact Hp|]. apply String.eqb_eq; exact E.
Qed.

Lemma obj_set_keys o k v :
  map fst (obj_set o k v)
  = if existsb (fun p => String.eqb (fst p) k) o then map fst o
    else map fst o ++ [k].
Proof.
  unfold obj_set. destruct (existsb _ o) eqn:E.
  - rewrite map_map. apply map_ext. intros [k' v']. cbn.
    destruct (String.eqb k' k) eqn:Ek; [apply String.eqb_eq in Ek; auto|reflexivity].
  - rewrite map_app. reflexivity.
Qed.

Lemma obj_set_in o k v k' :
  In k' (map fst (obj_set o k v)) <-> k' = k \/ In k' (map fst o).
Proof.
  rewrite obj_set_keys. destruct (existsb _ o) eqn:E.
  - apply existsb_key_in in E. split; [auto|]. intros [->|H]; auto.
  - rewrite in_app_iff. cbn. intuition.
Qed.

Lemma obj_set_nodup o k v :
  NoDup (map fst o) -> NoDup (map fst (obj_set o k v)).
Proof.
  intros H. rewrite obj_set_keys. destruct (existsb _ o) eqn:E; [exact H|].
  apply NoDup_app; auto.
  - constructor; [intros []|constructor].
  - intros x Hx [Ex|[]]. subst k. apply (proj2 (existsb_key_in o x)) in Hx.
    congruence.
Qed.

Lemma obj_get_cons k' v' o k :
  obj_get ((k', v') :: o) k = if String.eqb k' k then v' else obj_get o k.
Proof. unfold obj_get. cbn. destruct (String.eqb k' k); reflexivity. Qed.

Lemma obj_get_notin o k : ~ In k (map fst o) -> obj_get o k = None.
Proof.
  induction o as [|[k' v'] o IH]; intros H; [reflexivity|].
  rewrite obj_get_cons. cbn in H.
  destruct (String.eqb k' k) eqn:E.
  - apply String.eqb_eq in E. tauto.
  - apply IH. tauto.
Qed.

Lemma obj_get_in o k v :
  NoDup (map fst o) -> In (k, v) o -> obj_get o k = v.
Proof.
  induction o as [|[k' v'] o IH]; intros Hnd Hin; [destruct Hin|].
  inversion Hnd as [|? ? Hk Hnd']; subst. rewrite obj_get_cons.
  destruct Hin as [E|Hin].
  - inversion E; subst. rewrite String.eqb_refl. reflexivity.
  - destruct (String.eqb k' k) eqn:E.
    + apply String.eqb_eq in E. subst. exfalso. apply Hk.
      apply in_map_iff. exists (k, v). auto.
    + auto.
Qed.

Lemma obj_get_set_same o k v : obj_get (obj_set o k v) k = v.
Proof.
  unfold obj_set. destruct (existsb _ o) eqn:E.
  - apply existsb_key_in in E. induction o as [|[k' v'] o IH]; [destruct E|].
    cbn [map fst]. destruct (String.eqb k' k) eqn:Ek.
    + rewrite obj_get_cons, String.eqb_refl. reflexivity.
    + rewrite obj_get_cons, Ek. apply IH. cbn in E.
      destruct E as [->|E]; [rewrite String.eqb_refl in Ek; discriminate|exact E].
  - induction o as [|[k' v'] o IH].
    + cbn. rewrite obj_get_cons, String.eqb_refl. reflexivity.
    + cbn in E. apply orb_false_iff in E as [E1 E2].
      cbn [app]. rewrite obj_get_cons, E1. auto.
Qed.

Lemma obj_get_set_other o k v k' :
  k <> k' -> obj_get (obj_set o k v) k' = obj_get o k'.
Proof.
  intros Hne. unfold obj_set. destruct (existsb _ o).
  - induction o as [|[k0 v0] o IH]; [reflexivity|]. cbn [map fst].
    destruct (String.eqb k0 k) eqn:E.
    + apply String.eqb_eq in E. subst k0.
      rewrite !obj_get_cons. apply String.eqb_neq in Hne. rewrite Hne. exact IH.
    + rewrite !obj_get_cons. destruct (String.eqb k0 k'); auto.
  - induction o as [|[k0 v0] o IH].
    + cbn. rewrite obj_get_cons. apply String.eqb_neq in Hne. rewrite Hne.
      reflexivity.
    + cbn [app]. rewrite !obj_get_cons. destruct (String.eqb k0 k'); auto.
Qed.

Lemma insert_by_index_perm n p o :
  Permutation (insert_by_index n p o) (p :: o).
Proof.
  induction o as [|q o IH]; [reflexivity|]. cbn.
  destruct (array_index (fst q)) as [m|]; [|reflexivity].
  destruct (n <? m); [reflexivity|].
  rewrite IH. apply perm_swap.
Qed.

Lemma key_order_fold_perm o acc :
  Permutation
    (fold_left (fun acc p => match array_index (fst p) with
                             | Some n => insert_by_index n p acc
                             | None => acc
                             end) o acc)
    (acc ++ filter (fun p => match array_index (fst p) with
                             | Some _ => true
                             | None => false
                             end) o).
Proof.
  revert acc. induction o as [|p o IH]; intros acc; cbn.
  - rewrite app_nil_r. reflexivity.
  - rewrite IH. destruct (array_index (fst p)) as [n|].
    + rewrite insert_by_index_perm. cbn. apply Permutation_middle.
    + reflexivity.
Qed.

Lemma filter_split_perm {A} (f : A -> bool) (o : list A) :
  Permutation (filter f o ++ filter (fun x => negb (f x)) o) o.
Proof.
  induction o as [|x o IH]; [reflexivity|]. cbn.
  destruct (f x); cbn.
  - constructor. exact IH.
  - rewrite <- Permutation_middle. constructor. exact IH.
Qed.

Lemma js_key_order_perm o : Permutation (js_key_order o) o.
Proof.
  unfold js_key_order. rewrite key_order_fold_perm. cbn.
  etransitivity; [|apply (filter_split_perm
    (fun p : string * option json =>
       match array_index (fst p) with Some _ => true | None => false end))].
  apply Permutation_app; [reflexivity|].
  replace (filter _ o) with
    (filter (fun p : string * option json =>
       negb (match array_index (fst p) with Some _ => true | None => false end)) o)
    ; [reflexivity|].
  apply filter_ext. intros p. destruct (array_index (fst p)); reflexivity.
Qed.

Lemma find_drop_undefined (l : jsobj) k :
  NoDup (map fst l) ->
  find (fun p => String.eqb (fst p) k)
       (flat_map (fun p => match snd p with Some v => [(fst p, v)] | None => [] end) l)
  = match obj_get l k with Some v => Some (k, v) | None => None end.
Proof.
  induction l as [|[k' v'] l IH]; intros Hnd; [reflexivity|].
  inversion Hnd as [|? ? Hk Hnd']; subst. rewrite obj_get_cons. cbn [flat_map snd fst].
  destruct (String.eqb k' k) eqn:E.
  - apply String.eqb_eq in E. subst k'. destruct v' as [v|].
    + cbn. rewrite String.eqb_refl. reflexivity.
    + cbn [app]. rewrite IH by exact Hnd'. rewrite obj_get_notin by exact Hk.
      reflexivity.
  - destruct v' as [v|]; cbn [app]; [cbn; rewrite E|]; apply IH; exact Hnd'.
Qed.

Lemma obj_get_perm l l' k :
  NoDup (map fst l) -> Permutation l l' -> obj_get l' k = obj_get l k.
Proof.
  intros Hnd Hp. assert (Hnd' : NoDup (map fst l')).
  { eapply Permutation_NoDup; [apply Permutation_map; exact Hp|exact Hnd]. }
  destruct (in_dec string_dec k (map fst l)) as [Hin|Hin].
  - apply in_map_iff in Hin as [[k0 v] [E Hin]]. cbn in E. subst k0.
    rewrite (obj_get_in l k v Hnd Hin).
    apply obj_get_in; [exact Hnd'|]. eapply Permutation_in; eauto.
  - rewrite !obj_get_notin; auto.
    intros H. apply Hin. eapply Permutation_in; [|exact H].
    apply Permutation_map. symmetry. exact Hp.
Qed.

(** Reading a property of the serialized object. *)
Lemma jfield_obj_json o k :
  NoDup (map fst o) -> jfield (Some (obj_json o)) k = obj_get o k.
Proof.
  intros Hnd. unfold obj_json. cbn [jfield].
  assert (Hnd' : NoDup (map fst (js_key_order o))).
  { eapply Permutation_NoDup; [|exact Hnd].
    apply Permutation_map. symmetry. apply js_key_order_perm. }
  rewrite find_drop_undefined by exact Hnd'.
  rewrite (obj_get_perm o (js_key_order o)) by
    (auto; symmetry; apply js_key_order_perm).
  destruct (obj_get o k); reflexivity.
Qed.

Definition thumb_key (t : json) : string :=
  prop_key (jfield (Some t) "thumbnail_type").

Definition thumb_step (o : jsobj) (t : json) : jsobj :=
  obj_assign o (thumb_key t) (jfield (Some t) "url").

Lemma thumbs_fold_none rows :
  fold_left (fun acc t =>
               match acc, t with
               | None, _ => None
               | Some _, JNull => None
               | Some o, _ =>
                   Some (obj_assign o (prop_key (jfield (Some t) "thumbnail_type"))
                                    (jfield (Some t) "url"))
               end) rows None = None.
Proof. induction rows; auto. Qed.

Lemma thumbs_fold_some rows o0 o :
  fold_left (fun acc t =>
               match acc, t with
               | None, _ => None
               | Some _, JNull => None
               | Some o, _ =>
                   Some (obj_assign o (prop_key (jfield (Some t) "thumbnail_type"))
                                    (jfield (Some t) "url"))
               end) rows (Some o0) = Some o ->
  ~ In JNull rows /\ o = fold_left thumb_step rows o0.
Proof.
  revert o0. induction rows as [|t rows IH]; intros o0 H.
  - cbn in H. inversion H; subst. split; [intros []|reflexivity].
  - cbn [fold_left] in H. destruct t eqn:Et;
      try (rewrite thumbs_fold_none in H; discriminate);
      (apply IH in H as [Hn Ho]; split;
       [intros [E|E]; [discriminate|contradiction]|exact Ho]).
Qed.

Lemma thumb_fold_nodup rows o0 :
  NoDup (map fst o0) -> NoDup (map fst (fold_left thumb_step rows o0)).
Proof.
  revert o0. induction rows as [|t rows IH]; intros o0 H; [exact H|].
  cbn. apply IH. unfold thumb_step, obj_assign.
  destruct (String.eqb (thumb_key t) "__proto__"); [exact H|].
  apply obj_set_nodup. exact H.
Qed.

Lemma thumb_fold_keys rows o0 k :
  In k (map fst (fold_left thumb_step rows o0))
  <-> In k (map fst o0)
      \/ exists t, In t rows /\ thumb_key t = k /\ k <> "__proto__".
Proof.
  revert o0. induction rows as [|t rows IH]; intros o0.
  - cbn. split; [auto|]. intros [H|[t [[] _]]]. exact H.
  - cbn [fold_left]. rewrite IH. unfold thumb_step, obj_assign.
    destruct (String.eqb (thumb_key t) "__proto__") eqn:Ep.
    + apply String.eqb_eq in Ep. split.
      * intros [H|[t' [Ht' E]]]; eauto using in_cons.
      * intros [H|[t' [[<-|Ht'] [E Hk]]]]; [auto|congruence|eauto 6].
    + apply String.eqb_neq in Ep. rewrite obj_set_in. split.
      * intros [[->|H]|[t' [Ht' E]]]; eauto 6 using in_eq, in_cons.
      * intros [H|[t' [[<-|Ht'] [E Hk]]]]; eauto 6.
Qed.

Lemma thumb_fold_other rows o1 k :
  (forall t, In t rows -> thumb_key t <> k) ->
  obj_get (fold_left thumb_step rows o1) k = obj_get o1 k.
Proof.
  revert o1. induction rows as [|t rows IH]; intros o1 H; [reflexivity|].
  cbn [fold_left]. rewrite IH by (intros; apply H; right; assumption).
  unfold thumb_step, obj_assign.
  destruct (String.eqb (thumb_key t) "__proto__"); [reflexivity|].
  apply obj_get_set_other. apply H. left. reflexivity.
Qed.

(** The thumbnail object [handleLookup] and [getShareFromDb] build from
    the rows of a file: it is built only when [results] is an array with
    no [null] row; its keys are without repetition and are exactly the
    rows' [thumbnail_type]s other than [__proto__] (whose assignment
    creates no property); and each other type maps to the [url] of the
    last row of that type, so a later row overrides an earlier one. *)
Theorem thumbs_obj_last_wins th o (H : thumbs_obj th = Some o) :
  exists rows,
    jfield th "results" = Some (JArr rows) /\ ~ In JNull rows
    /\ NoDup (map fst o)
    /\ (forall k, In k (map fst o) <->
                  (exists t, In t rows /\ thumb_key t = k) /\ k <> "__proto__")
    /\ (forall pre t post, rows = pre ++ t :: post ->
          thumb_key t <> "__proto__" ->
          (forall t', In t' post -> thumb_key t' <> thumb_key t) ->
          obj_get o (thumb_key t) = jfield (Some t) "url").
Proof.
  unfold thumbs_obj in H.
  destruct (jfield th "results") as [[| | | |rows|]|]; try discriminate.
  apply thumbs_fold_some in H as [Hn ->].
  exists rows. split; [reflexivity|]. split; [exact Hn|]. split.
  { apply thumb_fold_nodup. constructor. }
  split.
  - intros k. rewrite thumb_fold_keys. cbn [map In]. split.
    + intros [[]|[t [Ht [Hk Hp]]]]. split; [exists t; split; assumption|exact Hp].
    + intros [[t [Ht Hk]] Hp]. right. exists t. split; [exact Ht|split; assumption].
  - intros pre t post -> Hp Hpost. rewrite fold_left_app. cbn [fold_left].
    rewrite thumb_fold_other by exact Hpost. unfold thumb_step, obj_assign.
    apply String.eqb_neq in Hp. rewrite Hp. apply obj_get_set_same.
Qed.

Lemma spread_obj_fold (fs : list (string * json)) acc :
  NoDup (map fst fs) ->
  (forall k, In k (map fst fs) -> ~ In k (map fst acc)) ->
  fold_left (fun o p => obj_set o (fst p) (Some (snd p))) fs acc
  = acc ++ map (fun p => (fst p, Some (snd p))) fs.
Proof.
  revert acc. induction fs as [|[k v] fs IH]; intros acc Hnd Hdis.
  - rewrite app_nil_r. reflexivity.
  - inversion Hnd as [|? ? Hk Hnd']; subst. cbn [fold_left fst snd].
    assert (E : obj_set acc k (Some v) = acc ++ [(k, Some v)]).
    { unfold obj_set.
      destruct (existsb _ acc) eqn:Ex; [|reflexivity].
      apply existsb_key_in in Ex. exfalso. apply (Hdis k); [left; reflexivity|exact Ex]. }
    rewrite E, IH, <- app_assoc; [reflexivity|exact Hnd'|].
    intros k' Hk' Hin. rewrite map_app, in_app_iff in Hin. destruct Hin as [Hin|[E'|[]]].
    + apply (Hdis k'); [right; exact Hk'|exact Hin].
    + cbn in E'. subst k'. contradiction.
Qed.

Lemma spread_obj fs :
  NoDup (map fst fs) ->
  spread (Some (JObj fs)) = map (fun p => (fst p, Some (snd p))) fs.
Proof.
  intros Hnd. unfold spread. rewrite spread_obj_fold; auto.
Qed.

Lemma obj_get_lift (fs : list (string * json)) k :
  obj_get (map (fun p => (fst p, Some (snd p))) fs) k = jfield (Some (JObj fs)) k.
Proof.
  induction fs as [|[k' v] fs IH]; [reflexivity|]. cbn [map fst snd].
  rewrite obj_get_cons, IH. cbn. destruct (String.eqb k' k); reflexivity.
Qed.

Lemma lift_keys (fs : list (string * json)) :
  map fst (map (fun p => (fst p, Some (snd p))) fs) = map fst fs.
Proof. rewrite map_map. reflexivity. Qed.

(** [{ ...file, thumbs: o }] for a row object: [thumbs] is the thumbnail
    object, every other property is the row's. *)
Lemma with_thumbs_fields fs o k :
  NoDup (map fst fs) ->
  jfield (Some (with_thumbs (Some (JObj fs)) o)) k
  = if String.eqb k "thumbs" then Some (obj_json o) else jfield (Some (JObj fs)) k.
Proof.
  intros Hnd. unfold with_thumbs. rewrite spread_obj by exact Hnd.
  rewrite jfield_obj_json.
  - destruct (String.eqb k "thumbs") eqn:E.
    + apply String.eqb_eq in E. subst. apply obj_get_set_same.
    + apply String.eqb_neq in E. rewrite obj_get_set_other by congruence.
      apply obj_get_lift.
  - apply obj_set_nodup. rewrite lift_keys. exact Hnd.
Qed.

(** [handleLookup] answers 400 naming both parameters when neither [surl]
    nor [fid] is given (whether or not D1 is bound), answers 503 when one
    is given but D1 is not bound, issues no statement in either case, and
    never rejects: every failure of a statement or of reading its result
    becomes a 500 [db_error] answer. *)
Theorem handleLookup_guards err d1 p :
  (str_truthy (p "surl") = false -> str_truthy (p "fid") = false ->
   handleLookup err d1 p
   = (badRequest "Missing surl or fid parameter" (Some ["surl"; "fid"]), []))
  /\ (str_truthy (p "surl") || str_truthy (p "fid") = true ->
      handleLookup err None p
      = (errorJson 503 "D1 database not configured" "d1_unavailable" None None, []))
  /\ (forall m, fst (handleLookup err d1 p) <> RThrow m).
Proof.
  unfold handleLookup. split; [|split].
  - intros H1 H2. rewrite H1, H2. reflexivity.
  - intros H. destruct (str_truthy (p "surl")), (str_truthy (p "fid"));
      try discriminate; reflexivity.
  - intros m.
    destruct (negb (str_truthy (p "surl")) && negb (str_truthy (p "fid")));
      [discriminate|].
    destruct d1 as [c|]; [|discriminate].
    destruct (p "fid") as [[|c0 f]|].
    + destruct (getShareFromDb c _) as [[[sd|]|] qs];
        [destruct (negb (truthy (Some sd)))|..]; cbn; discriminate.
    + destruct (d1_first c _) as [file|]; cbn; [|discriminate].
      destruct (negb (truthy file)); [discriminate|].
      destruct (d1_all c _) as [th|]; [|discriminate].
      destruct (thumbs_obj th); discriminate.
    + destruct (getShareFromDb c _) as [[[sd|]|] qs];
        [destruct (negb (truthy (Some sd)))|..]; cbn; discriminate.
Qed.

(** With a non-empty [fid], [handleLookup] looks the file up by [fid]
    alone: the answer does not depend on [surl], and every statement it
    issues binds exactly [fid]. *)
Theorem handleLookup_fid_first err c p f
    (Hf : p "fid" = Some f) (Hne : f <> "") :
  (forall s', handleLookup err (Some c)
                (fun k => if String.eqb k "surl" then s' else p k)
              = handleLookup err (Some c) p)
  /\ Forall (fun q => q_binds q = [BStr f]) (snd (handleLookup err (Some c) p)).
Proof.
  destruct f as [|c0 f0]; [congruence|]. split.
  - intros s'. unfold handleLookup. cbn [String.eqb Ascii.eqb Bool.eqb].
    rewrite Hf. cbn [str_truthy negb]. rewrite !andb_false_r. reflexivity.
  - unfold handleLookup. rewrite Hf. cbn [str_truthy negb]. rewrite andb_false_r.
    destruct (d1_first c _) as [file|]; [|repeat constructor].
    destruct (negb (truthy file)); [repeat constructor|].
    destruct (d1_all c _) as [th|]; [|repeat constructor].
    destruct (thumbs_obj th); repeat constructor.
Qed.

(** A file found by [fid] is answered as the [d1] envelope of the row
    with a [thumbs] property holding the thumbnail object of its rows (see
    [thumbs_obj_last_wins]); every other property is the row's, and the
    [dlink] note is present exactly when the row's [dlink] is falsy. *)
Theorem handleLookup_fid_answer err c p f fs th o
    (Hf : p "fid" = Some f) (Hne : f <> "")
    (Hfile : d1_first c (mkQuery "SELECT * FROM media_files WHERE fs_id = ?" [BStr f])
             = IOk (Some (JObj fs)))
    (Hnd : NoDup (map fst fs))
    (Hth : d1_all c (q_thumbs (BStr f)) = IOk th)
    (Ho : thumbs_obj th = Some o) :
  exists data,
    handleLookup err (Some c) p
    = (RJson (envelope "d1" (truthy (jfield (Some (JObj fs)) "dlink")) "data" data),
       [mkQuery "SELECT * FROM media_files WHERE fs_id = ?" [BStr f];
        q_thumbs (BStr f)])
    /\ jfield (Some data) "thumbs" = Some (obj_json o)
    /\ (forall k, k <> "thumbs" -> jfield (Some data) k = jfield (Some (JObj fs)) k).
Proof.
  exists (with_thumbs (Some (JObj fs)) o). split; [|split].
  - unfold handleLookup. rewrite Hf.
    destruct f as [|c0 f0]; [congruence|]. cbn [str_truthy negb].
    rewrite andb_false_r. rewrite Hfile. cbn [truthy negb]. rewrite Hth, Ho.
    reflexivity.
  - rewrite with_thumbs_fields by exact Hnd. reflexivity.
  - intros k Hk. rewrite with_thumbs_fields by exact Hnd.
    apply String.eqb_neq in Hk. rewrite Hk. reflexivity.
Qed.

Definition not_null (v : json) : bool :=
  match v with JNull => false | _ => true end.

Lemma file_with_thumbs_issued c rows :
  flat_map snd (map (file_with_thumbs c) rows)
  = map (fun f => q_thumbs (BJson (jfield (Some f) "fs_id"))) (filter not_null rows).
Proof.
  induction rows as [|f rows IH]; [reflexivity|].
  cbn [map flat_map filter]. rewrite IH.
  destruct f; cbn [not_null]; try reflexivity;
    unfold file_with_thumbs;
    (destruct (d1_all c _) as [th|]; [destruct (thumbs_obj th)|]; reflexivity).
Qed.

Lemma all_ok_length xs ys : all_ok xs = Some ys -> List.length ys = List.length xs.
Proof.
  revert ys. induction xs as [|[x|] xs IH]; intros ys H; cbn in H.
  - inversion H; reflexivity.
  - destruct (all_ok xs) as [zs|] eqn:E; cbn in H; [|discriminate].
    inversion H; subst. cbn. f_equal. apply IH. reflexivity.
  - discriminate.
Qed.

Lemma all_ok_null c rows :
  In JNull rows -> all_ok (map fst (map (file_with_thumbs c) rows)) = None.
Proof.
  induction rows as [|f rows IH]; intros H; [destruct H|].
  destruct H as [->|H]; [reflexivity|].
  cbn [map all_ok]. destruct (fst (file_with_thumbs c f)); [|reflexivity].
  rewrite IH by exact H. reflexivity.
Qed.

(** [getShareFromDb] for a stored share whose file rows are [rows]: it
    issues the share query, the file query, then one thumbnail query per
    non-null file row, in row order, each bound to that row's [fs_id];
    it rejects when a row is [null]; and a share it returns has a [list]
    with one entry per file row. *)
Theorem getShareFromDb_queries c s sfs files rows
    (Hs : d1_first c (mkQuery "SELECT * FROM shares WHERE share_id = ?" [BStr s])
          = IOk (Some (JObj sfs)))
    (Hnd : NoDup (map fst sfs))
    (Hf : d1_all c (mkQuery "SELECT * FROM media_files WHERE share_id = ?" [BStr s])
          = IOk files)
    (Hr : jfield files "results" = Some (JArr rows)) :
  snd (getShareFromDb c s)
  = [mkQuery "SELECT * FROM shares WHERE share_id = ?" [BStr s];
     mkQuery "SELECT * FROM media_files WHERE share_id = ?" [BStr s]]
    ++ map (fun f => q_thumbs (BJson (jfield (Some f) "fs_id"))) (filter not_null rows)
  /\ (In JNull rows -> fst (getShareFromDb c s) = IThrow)
  /\ (forall sd, fst (getShareFromDb c s) = IOk (Some sd) ->
      exists items, jfield (Some sd) "list" = Some (JArr items)
                    /\ List.length items = List.length rows).
Proof.
  unfold getShareFromDb. rewrite Hs. cbn [truthy negb]. rewrite Hf, Hr.
  split; [|split].
  - destruct (all_ok _); cbn [snd]; rewrite file_with_thumbs_issued; reflexivity.
  - intros Hn. rewrite all_ok_null by exact Hn. reflexivity.
  - intros sd H. destruct (all_ok _) as [items|] eqn:E; [|discriminate].
    cbn in H. inversion H; subst sd. exists items. split.
    + rewrite jfield_obj_json.
      * apply obj_get_set_same.
      * apply obj_set_nodup.
        rewrite spread_obj_fold; [|exact Hnd|intros ? ? []].
        rewrite app_nil_l, lift_keys. exact Hnd.
    + apply all_ok_length in E. rewrite E, !length_map. reflexivity.
Qed.

(* ------------------------------------------------------------------ *)
(** ** The D1 store keeps its keys unique *)

Definition share_keys (d : db) : list string := map sh_share_id (shares d).
Definition media_keys (d : db) : list string := map m_fs_id (media_files d).

Definition keys_unique (d : db) : Prop :=
  NoDup (share_keys d) /\ NoDup (media_keys d).

(** A statement run keeps the keys unique and drops none of them. *)
Definition keeps_keys {A} (m : DBM A) : Prop :=
  forall d, (keys_unique d -> keys_unique (snd (m d)))
            /\ incl (share_keys d) (share_keys (snd (m d)))
            /\ incl (media_keys d) (media_keys (snd (m d))).

Lemma keeps_dret {A} (a : A) : keeps_keys (dret a).
Proof. intros d. cbn. split; [auto|split; apply incl_refl]. Qed.

Lemma keeps_dbind {A B} (m : DBM A) (k : A -> DBM B) :
  keeps_keys m -> (forall a, keeps_keys (k a)) -> keeps_keys (dbind m k).
Proof.
  intros Hm Hk d. unfold dbind. destruct (Hm d) as [U [I1 I2]].
  destruct (m d) as [[a|] d'] eqn:E; cbn [snd] in *.
  - destruct (Hk a d') as [U' [I1' I2']].
    split; [auto|split; eapply incl_tran; eauto].
  - auto.
Qed.

Lemma map_replace_keys {R} (key : R -> string) (rows : list R) k (f : R -> R) :
  (forall r, key r = k -> key (f r) = k) ->
  map key (map (fun r => if String.eqb (key r) k then f r else r) rows)
  = map key rows.
Proof.
  intros Hf. rewrite map_map. apply map_ext. intros r.
  destruct (String.eqb (key r) k) eqn:E; [|reflexivity].
  apply String.eqb_eq in E. rewrite (Hf r E), E. reflexivity.
Qed.

Lemma nodup_snoc (xs : list string) k :
  NoDup xs -> ~ In k xs -> NoDup (xs ++ [k]).
Proof.
  intros H Hk. apply NoDup_app; auto.
  - repeat constructor. intros [].
  - intros x Hx [Ex|[]]. subst. contradiction.
Qed.

Lemma existsb_key_false {R} (key : R -> string) (rows : list R) k :
  existsb (fun r => String.eqb (key r) k) rows = false -> ~ In k (map key rows).
Proof.
  intros H Hin. apply in_map_iff in Hin as [r [E Hr]].
  assert (existsb (fun r => String.eqb (key r) k) rows = true) as H'
    by (apply existsb_exists; exists r; split; [exact Hr|apply String.eqb_eq; exact E]).
  congruence.
Qed.

Lemma existsb_key_true {R} (key : R -> string) (rows : list R) k :
  existsb (fun r => String.eqb (key r) k) rows = true -> In k (map key rows).
Proof.
  intros H. apply existsb_exists in H as [r [Hr E]]. apply String.eqb_eq in E.
  apply in_map_iff. eauto.
Qed.

Lemma keeps_saveShare fails sid data : keeps_keys (saveShare fails sid data).
Proof.
  intros d. unfold saveShare.
  destruct (fails (SUpsertShare sid)); [cbn; split; [auto|split; apply incl_refl]|].
  unfold keys_unique, share_keys, media_keys. cbn [snd shares media_files].
  destruct (existsb _ (shares d)) eqn:E.
  - rewrite map_replace_keys by (intros r _; reflexivity).
    split; [auto|split; apply incl_refl].
  - rewrite map_app. cbn [map sh_share_id]. split; [|split].
    + intros [H1 H2]. split; [|exact H2].
      apply nodup_snoc; [exact H1|]. apply (existsb_key_false sh_share_id). exact E.
    + apply incl_appl, incl_refl.
    + apply incl_refl.
Qed.

Lemma keeps_upsertMedia fails sid file : keeps_keys (upsertMedia fails sid file).
Proof.
  intros d. unfold upsertMedia.
  destruct (fs_key _) as [key|]; [|cbn; split; [auto|split; apply incl_refl]].
  destruct (fails (SUpsertMedia key)); [cbn; split; [auto|split; apply incl_refl]|].
  unfold keys_unique, share_keys, media_keys.
  destruct (existsb _ (media_files d)) eqn:E; cbn [snd shares media_files].
  - rewrite (map_replace_keys m_fs_id) by (intros r Hr; exact Hr).
    split; [auto|split; apply incl_refl].
  - rewrite map_app. cbn [map m_fs_id media_insert_row]. split; [|split].
    + intros [H1 H2]. split; [exact H1|].
      apply nodup_snoc; [exact H2|]. apply (existsb_key_false m_fs_id). exact E.
    + apply incl_refl.
    + apply incl_appl, incl_refl.
Qed.

Lemma keeps_saveThumbnails fails v thumbs : keeps_keys (saveThumbnails fails v thumbs).
Proof.
  intros d. unfold saveThumbnails.
  destruct (fs_key v) as [key|]; [|cbn; split; [auto|split; apply incl_refl]].
  destruct (fails (SDeleteThumbs key)); [cbn; split; [auto|split; apply incl_refl]|].
  destruct (thumb_batch thumbs);
    [|destruct (fails (SInsertThumbs key))];
    cbn; split; (auto || split; apply incl_refl).
Qed.

Lemma keeps_saveMediaFile fails sid file : keeps_keys (saveMediaFile fails sid file).
Proof.
  unfold saveMediaFile. apply keeps_dbind; [apply keeps_upsertMedia|intros _].
  destruct (jfield (Some file) "thumbs") as [t|]; [|apply keeps_dret].
  destruct (truthy (Some t)); [apply keeps_saveThumbnails|apply keeps_dret].
Qed.

Lemma keeps_saveFiles fails sid files : keeps_keys (saveFiles fails sid files).
Proof.
  induction files as [|f files IH]; [apply keeps_dret|].
  cbn [saveFiles]. apply keeps_dbind; [apply keeps_saveMediaFile|intros _; exact IH].
Qed.

Lemma saveShare_ok fails sid data d a :
  fst (saveShare fails sid data d) = DOk a ->
  In sid (share_keys (snd (saveShare fails sid data d))).
Proof.
  unfold saveShare. destruct (fails (SUpsertShare sid)); [discriminate|].
  intros _. unfold share_keys. cbn [snd shares].
  destruct (existsb _ (shares d)) eqn:E.
  - rewrite map_replace_keys by (intros r _; reflexivity).
    apply (existsb_key_true sh_share_id). exact E.
  - rewrite map_app, in_app_iff. right. left. reflexivity.
Qed.

Lemma upsertMedia_ok fails sid file d a :
  fst (upsertMedia fails sid file d) = DOk a ->
  exists k, fs_key (jfield (Some file) "fs_id") = Some k
            /\ In k (media_keys (snd (upsertMedia fails sid file d))).
Proof.
  unfold upsertMedia. destruct (fs_key _) as [key|]; [|discriminate].
  destruct (fails (SUpsertMedia key)); [discriminate|].
  intros _. exists key. split; [reflexivity|]. unfold media_keys.
  destruct (existsb _ (media_files d)) eqn:E; cbn [snd media_files].
  - rewrite (map_replace_keys m_fs_id) by (intros r Hr; exact Hr).
    apply (existsb_key_true m_fs_id). exact E.
  - rewrite map_app, in_app_iff. right. left. reflexivity.
Qed.

Lemma saveMediaFile_ok fails sid file d a :
  fst (saveMediaFile fails sid file d) = DOk a ->
  exists k, fs_key (jfield (Some file) "fs_id") = Some k
            /\ In k (media_keys (snd (saveMediaFile fails sid file d))).
Proof.
  unfold saveMediaFile, dbind.
  destruct (upsertMedia fails sid file d) as [[u|] d1] eqn:E; [|discriminate].
  intros _. destruct (upsertMedia_ok fails sid file d u) as [k [Hk Hin]];
    [rewrite E; reflexivity|].
  rewrite E in Hin. cbn [snd] in Hin. exists k. split; [exact Hk|].
  set (m := match jfield (Some file) "thumbs" with
            | Some thumbs => if truthy (Some thumbs)
                             then saveThumbnails fails (jfield (Some file) "fs_id") thumbs
                             else dret tt
            | None => dret tt end).
  assert (keeps_keys m) as Hm.
  { subst m. destruct (jfield (Some file) "thumbs") as [t|]; [|apply keeps_dret].
    destruct (truthy (Some t)); [apply keeps_saveThumbnails|apply keeps_dret]. }
  destruct (Hm d1) as [_ [_ I]]. apply I. exact Hin.
Qed.

Lemma saveFiles_ok fails sid files d a :
  fst (saveFiles fails sid files d) = DOk a ->
  forall f, In f files ->
  exists k, fs_key (jfield (Some f) "fs_id") = Some k
            /\ In k (media_keys (snd (saveFiles fails sid files d))).
Proof.
  revert d. induction files as [|f0 files IH]; intros d H f Hf; [destruct Hf|].
  cbn [saveFiles] in *. unfold dbind in *.
  destruct (saveMediaFile fails sid f0 d) as [[u|] d1] eqn:E; [|discriminate].
  destruct Hf as [<-|Hf].
  - destruct (saveMediaFile_ok fails sid f0 d u) as [k [Hk Hin]];
      [rewrite E; reflexivity|].
    rewrite E in Hin. cbn [snd] in Hin. exists k. split; [exact Hk|].
    destruct (keeps_saveFiles fails sid files d1) as [_ [_ I]]. apply I. exact Hin.
  - exact (IH d1 H f Hf).
Qed.

(** [storeUpstreamData] keeps [share_id] unique in [shares] and [fs_id]
    unique in [media_files], whether it succeeds or stops at a failing
    statement; and when it returns [true] the share has its row and every
    file of [upstream.list] has a row under its [fs_id]. *)
Theorem storeUpstreamData_keys fails sid upstream d (H : keys_unique d) :
  let '(ok, d') := storeUpstreamData fails sid upstream d in
  keys_unique d'
  /\ (ok = true ->
      In sid (share_keys d')
      /\ forall files, jfield (Some upstream) "list" = Some (JArr files) ->
         forall f, In f files ->
         exists k, fs_key (jfield (Some f) "fs_id") = Some k /\ In k (media_keys d')).
Proof.
  unfold storeUpstreamData, dbind.
  destruct (keeps_saveShare fails sid upstream d) as [U1 [I1 _]].
  destruct (saveShare fails sid upstream d) as [[u|] d1] eqn:E.
  - pose proof (saveShare_ok fails sid upstream d u) as Hs.
    rewrite E in Hs. cbn [snd fst] in Hs, U1. specialize (Hs eq_refl).
    specialize (U1 H).
    destruct (jfield (Some upstream) "list") as [[| | | |files|]|] eqn:El;
      try (cbn; split; [exact U1|intros _; split; [exact Hs|intros ? ? ?; discriminate]]).
    destruct (keeps_saveFiles fails sid files d1) as [U2 [I2 _]].
    pose proof (saveFiles_ok fails sid files d1) as Hf.
    destruct (saveFiles fails sid files d1) as [[v|] d2]; cbn [snd fst] in *.
    + split; [auto|]. intros _. split; [auto|].
      intros files' Ef. inversion Ef; subst files'. apply (Hf v eq_refl).
    + split; [auto|]. discriminate.
  - cbn [snd] in U1. split; [auto|discriminate].
Qed.

(* ------------------------------------------------------------------ *)
(** ** Lookup and store, on concrete rows *)

Definition thumb_row_a : json := JObj [("url", JStr "a"); ("thumbnail_type", JStr "url1")].
Definition thumb_row_b : json := JObj [("url", JStr "b"); ("thumbnail_type", JStr "url1")].
Definition thumb_row_p : json := JObj [("url", JStr "c"); ("thumbnail_type", JStr "__proto__")].

Definition lookup_thumbs : json := JObj [("results", JArr [thumb_row_a; thumb_row_b; thumb_row_p])].

Definition lookup_file_fields : list (string * json) :=
  [("fs_id", JStr "9"); ("dlink", JStr "")].

(** A D1 binding that knows one file, [9], with the rows above. *)
Definition lookup_conn : d1conn :=
  mkD1 (fun _ => IOk (Some (JObj lookup_file_fields)))
       (fun _ => IOk (Some lookup_thumbs)).

Definition lookup_params : params := params_of [("fid", "9"); ("surl", "abc")].

Lemma thumbs_obj_last_wins_witness :
  thumbs_obj (Some lookup_thumbs) = Some [("url1", Some (JStr "b"))]
  /\ obj_get [("url1", Some (JStr "b"))] "url1" = Some (JStr "b").
Proof.
  split; [reflexivity|].
  destruct (thumbs_obj_last_wins (Some lookup_thumbs) [("url1", Some (JStr "b"))]
              eq_refl) as [rows [Hr [_ [_ [_ Hlast]]]]].
  cbn in Hr. injection Hr as <-.
  apply (Hlast [thumb_row_a] thumb_row_b [thumb_row_p] eq_refl).
  - cbv. discriminate.
  - intros t' [<-|[]]. cbv. discriminate.
Defined.

Lemma handleLookup_fid_first_witness :
  lookup_params "fid" = Some "9"
  /\ Forall (fun q => q_binds q = [BStr "9"])
            (snd (handleLookup JNull (Some lookup_conn) lookup_params)).
Proof.
  split; [reflexivity|].
  exact (proj2 (handleLookup_fid_first JNull lookup_conn lookup_params "9"
                  eq_refl ltac:(discriminate))).
Defined.

Lemma handleLookup_fid_answer_witness :
  exists data,
    fst (handleLookup JNull (Some lookup_conn) lookup_params)
    = RJson (envelope "d1" false "data" data)
    /\ jfield (Some data) "thumbs" = Some (obj_json [("url1", Some (JStr "b"))]).
Proof.
  destruct (handleLookup_fid_answer JNull lookup_conn lookup_params "9"
              lookup_file_fields (Some lookup_thumbs) [("url1", Some (JStr "b"))]
              eq_refl ltac:(discriminate) eq_refl
              ltac:(repeat constructor; cbv; intuition discriminate)
              eq_refl eq_refl) as [data [E [Ht _]]].
  exists data. rewrite E. split; [reflexivity|exact Ht].
Defined.

(** A D1 binding with share [abc], whose file rows are one file and a
    [null]. *)
Definition share_rows : json := JObj [("results", JArr [JObj [("fs_id", JStr "7")]; JNull])].

Definition share_conn : d1conn :=
  mkD1 (fun _ => IOk (Some (JObj [("share_id", JStr "abc")])))
       (fun q => if String.eqb (q_sql q) "SELECT * FROM media_files WHERE share_id = ?"
                 then IOk (Some share_rows) else IOk (Some lookup_thumbs)).

Lemma getShareFromDb_queries_witness :
  List.length (snd (getShareFromDb share_conn "abc")) = 3%nat
  /\ fst (getShareFromDb share_conn "abc") = IThrow.
Proof.
  destruct (getShareFromDb_queries share_conn "abc" [("share_id", JStr "abc")]
              (Some share_rows) [JObj [("fs_id", JStr "7")]; JNull]
              eq_refl ltac:(repeat constructor; intros []) eq_refl eq_refl)
    as [Hq [Hnull _]].
  split.
  - rewrite Hq. reflexivity.
  - apply Hnull. right. left. reflexivity.
Defined.

Definition store_db : db := mkDb [] [] [] 1 0.

Definition store_upstream : json :=
  JObj [("list", JArr [JObj [("fs_id", JNum 7)]; JObj [("fs_id", JStr "8")]])].

Lemma storeUpstreamData_keys_witness :
  keys_unique store_db
  /\ keys_unique (snd (storeUpstreamData (fun _ => false) "abc" store_upstream store_db)).
Proof.
  assert (H : keys_unique store_db) by (split; constructor).
  split; [exact H|].
  pose proof (storeUpstreamData_keys (fun _ => false) "abc" store_upstream store_db H)
    as Hk.
  destruct (storeUpstreamData (fun _ => false) "abc" store_upstream store_db)
    as [ok d'].
  exact (proj1 Hk).
Defined.

(* ------------------------------------------------------------------ *)
(** ** [handleAdminShareDetail] *)

Lemma count_qmarks_placeholders {A} (ids : list A) :
  count_qmarks (join_str "," (map (fun _ => "?") ids)) = List.length ids.
Proof.
  induction ids as [|x ids IH]; [reflexivity|].
  destruct ids as [|y ys]; [reflexivity|].
  change (join_str "," (map (fun _ : A => "?") (x :: y :: ys)))
    with ("?" ++ "," ++ join_str "," (map (fun _ : A => "?") (y :: ys)))%string.
  rewrite !count_qmarks_app, IH. reflexivity.
Qed.

Lemma in_query_count ids :
  count_qmarks (q_sql (in_query ids)) = List.length (q_binds (in_query ids)).
Proof.
  unfold in_query. cbn [q_sql q_binds]. rewrite !count_qmarks_app.
  rewrite count_qmarks_placeholders, length_map. cbn. lia.
Qed.

Lemma file_ids_truthy r ids :
  file_ids r = Some ids -> Forall (fun v => truthy (Some v) = true) ids.
Proof.
  unfold file_ids. destruct r as [[| | | |rows|]|]; try discriminate.
  destruct (existsb _ rows); [discriminate|]. intros H. injection H as <-.
  apply Forall_forall. intros v Hv. apply in_flat_map in Hv as [f [_ Hv]].
  assert (Hw : forall w, In v (if truthy (Some w) then [w] else []) ->
                        truthy (Some v) = true).
  { intros w Hw. destruct (truthy (Some w)) eqn:E; [|destruct Hw].
    destruct Hw as [<-|[]]. exact E. }
  destruct f as [| | | | |fs]; try (destruct Hv; fail).
  destruct (find (fun p => String.eqb (fst p) "fs_id") fs) as [[k w]|];
    [exact (Hw w Hv)|destruct Hv].
Qed.

(** Every statement [handleAdminShareDetail] issues has as many [?]
    placeholders as bound values; the thumbnail statement, when issued,
    binds between 1 and 200 values, each a truthy [fs_id] of the page's
    file rows, so no [IN ()] list is ever empty. *)
Theorem handleAdminShareDetail_in_query d1 p sid :
  Forall (fun q => count_qmarks (q_sql q) = List.length (q_binds q))
         (snd (handleAdminShareDetail d1 p sid))
  /\ (forall q, nth_error (snd (handleAdminShareDetail d1 p sid)) 3 = Some q ->
      (1 <= List.length (q_binds q) <= 200)%nat
      /\ Forall (fun b => exists v, b = BJson (Some v) /\ truthy (Some v) = true)
                (q_binds q)).
Proof.
  unfold handleAdminShareDetail.
  destruct (String.eqb sid ""); [split; [constructor|intros q H; destruct q; discriminate]|].
  destruct d1 as [c|]; cbn [requireD1 d1_is_bound];
    [|split; [constructor|intros q H; discriminate]].
  destruct (d1_first c _) as [[sh|]|];
    [|split; [repeat constructor|intros q H; discriminate]
     |split; [repeat constructor|intros q H; discriminate]].
  destruct (negb (truthy (Some sh)));
    [split; [repeat constructor|intros q H; discriminate]|].
  destruct (d1_first c _) as [tot|];
    [|split; [repeat constructor|intros q H; discriminate]].
  destruct (d1_all c _) as [files|];
    [|split; [repeat constructor|intros q H; discriminate]].
  destruct (file_ids _) as [ids|] eqn:Eids;
    [|split; [repeat constructor|intros q H; discriminate]].
  apply file_ids_truthy in Eids.
  destruct ((0 <? Z.of_nat (List.length ids)) && (Z.of_nat (List.length ids) <=? 200))
    eqn:Elen; [|split; [repeat constructor|intros q H; discriminate]].
  apply andb_prop in Elen as [L1 L2]. apply Z.ltb_lt in L1. apply Z.leb_le in L2.
  assert (Hin : forall q, nth_error [mkQuery "SELECT * FROM shares WHERE share_id = ?" [BStr sid];
      mkQuery "SELECT COUNT(*) as total FROM media_files WHERE share_id = ?" [BStr sid];
      mkQuery ("SELECT * FROM media_files" ++ nl7 ++ "WHERE share_id = ?" ++ nl7
               ++ "ORDER BY server_mtime DESC" ++ nl7 ++ "LIMIT ? OFFSET ?")
        [BStr sid; BNum (Some (clamp (parsePositiveInt (p "pageSize") 50) 1 200));
         BNum (Some ((parsePositiveInt (p "page") 1 - 1)
                     * clamp (parsePositiveInt (p "pageSize") 50) 1 200))];
      in_query ids] 3 = Some q ->
      (1 <= List.length (q_binds q) <= 200)%nat
      /\ Forall (fun b => exists v, b = BJson (Some v) /\ truthy (Some v) = true)
                (q_binds q)).
  { intros q H. cbn in H. injection H as <-. cbn [in_query q_binds].
    rewrite length_map. split; [lia|].
    apply Forall_map. eapply Forall_impl; [|exact Eids]. intros v Hv. eauto. }
  assert (Hc : Forall (fun q => count_qmarks (q_sql q) = List.length (q_binds q))
    [mkQuery "SELECT * FROM shares WHERE share_id = ?" [BStr sid];
     mkQuery "SELECT COUNT(*) as total FROM media_files WHERE share_id = ?" [BStr sid];
     mkQuery ("SELECT * FROM media_files" ++ nl7 ++ "WHERE share_id = ?" ++ nl7
              ++ "ORDER BY server_mtime DESC" ++ nl7 ++ "LIMIT ? OFFSET ?")
       [BStr sid; BNum (Some (clamp (parsePositiveInt (p "pageSize") 50) 1 200));
        BNum (Some ((parsePositiveInt (p "page") 1 - 1)
                    * clamp (parsePositiveInt (p "pageSize") 50) 1 200))];
     in_query ids]).
  { repeat constructor. apply in_query_count. }
  destruct (d1_all c (in_query ids)) as [th|];
    [|split; [exact Hc|exact Hin]].
  destruct (js_or _ _) as [[| | | |rows|]|]; try (split; [exact Hc|exact Hin]).
  destruct (fold_left group_step rows _) as [[g pr]|]; split; first [exact Hc|exact Hin].
Qed.

Lemma group_get_put g k o k' :
  group_get (group_put g k o) k' = if String.eqb k k' then Some o else group_get g k'.
Proof.
  induction g as [|[k0 o0] g IH]; cbn.
  - reflexivity.
  - destruct (String.eqb k0 k) eqn:E.
    + apply String.eqb_eq in E. subst k0. cbn. destruct (String.eqb k k'); reflexivity.
    + cbn. rewrite IH. destruct (String.eqb k0 k') eqn:E'; [|reflexivity].
      apply String.eqb_eq in E'. subst k0.
      destruct (String.eqb k k') eqn:E2; [|reflexivity].
      apply String.eqb_eq in E2. subst k. rewrite String.eqb_refl in E. discriminate.
Qed.

Definition row_fs_key (t : json) : string := prop_key (jfield (Some t) "fs_id").
Definition row_ty_key (t : json) : string := prop_key (jfield (Some t) "thumbnail_type").

(** A row whose [fs_id] names no property of [Object.prototype] only
    touches its own group. *)
Lemma group_step_clean g t :
  t <> JNull ->
  existsb (String.eqb (row_fs_key t)) object_proto_names = false ->
  group_step (Some (g, [])) t
  = Some (group_put g (row_fs_key t)
            (obj_assign (match group_get g (row_fs_key t) with
                         | Some o => o | None => [] end)
                        (row_ty_key t) (jfield (Some t) "url")), []).
Proof.
  intros Hn Hk. unfold row_fs_key, row_ty_key in *.
  assert (Hp : String.eqb (prop_key (jfield (Some t) "fs_id")) "__proto__" = false).
  { destruct (String.eqb _ "__proto__") eqn:E; [|reflexivity].
    apply String.eqb_eq in E. rewrite E in Hk. discriminate. }
  destruct t; try (exfalso; now apply Hn);
  cbn [group_step find];
  (destruct (group_get g _); [reflexivity|]); rewrite Hp, Hk; reflexivity.
Qed.

(** When no thumbnail row is [null] and no row's [fs_id] names a property
    of [Object.prototype], the grouping loop of [handleAdminShareDetail]
    never throws and leaves [Object.prototype] untouched; the group of
    each key [k] is the one it had before, updated by
    [group[thumbnail_type] = url] for every row with [fs_id] [k], in row
    order (a [__proto__] type is no own property). *)
Theorem share_detail_grouping rows g k :
  Forall (fun t => t <> JNull
                   /\ existsb (String.eqb (row_fs_key t)) object_proto_names = false) rows ->
  exists g', fold_left group_step rows (Some (g, [])) = Some (g', [])
  /\ group_get g' k
     = fold_left (fun oo t => if String.eqb (row_fs_key t) k
                              then Some (obj_assign (match oo with Some o => o | None => [] end)
                                                    (row_ty_key t) (jfield (Some t) "url"))
                              else oo) rows (group_get g k).
Proof.
  intros H. revert g. induction H as [|t rows [Hn Hk] _ IH]; intros g.
  - exists g. split; reflexivity.
  - cbn [fold_left]. rewrite group_step_clean by assumption.
    destruct (IH (group_put g (row_fs_key t)
                    (obj_assign (match group_get g (row_fs_key t) with
                                 | Some o => o | None => [] end)
                                (row_ty_key t) (jfield (Some t) "url"))))
      as [g' [Hf Hg]].
    exists g'. split; [exact Hf|]. rewrite Hg, group_get_put.
    destruct (String.eqb (row_fs_key t) k) eqn:E; [|reflexivity].
    apply String.eqb_eq in E. subst k. reflexivity.
Qed.

(** A thumbnail row with [fs_id] [__proto__] writes its [url] onto
    [Object.prototype] under its [thumbnail_type] [ty]; a later row whose
    [fs_id] is [ty] then reads that non-empty string through the prototype
    chain, and its write of a [thumbnail_type] other than [__proto__] (the
    inherited setter, which ignores a string) on that string throws, so
    the request fails. *)
Theorem share_detail_proto_throws t1 t2 rows ty s :
  t1 <> JNull -> t2 <> JNull ->
  row_fs_key t1 = "__proto__" -> row_ty_key t1 = ty -> ty <> "__proto__" ->
  jfield (Some t1) "url" = Some (JStr s) -> s <> "" ->
  row_fs_key t2 = ty -> row_ty_key t2 <> "__proto__" ->
  fold_left group_step (t1 :: t2 :: rows) (Some ([], [])) = None.
Proof.
  intros H1 H2 K1 T1 Hty U1 Hs K2 T2. unfold row_fs_key, row_ty_key in *.
  assert (E1 : group_step (Some ([], [])) t1 = Some ([], [(ty, Some (JStr s))])).
  { destruct t1; try (exfalso; now apply H1); cbn [group_step group_get find];
    rewrite K1, T1, U1; cbn [String.eqb Ascii.eqb Bool.eqb];
    (destruct (String.eqb ty "__proto__") eqn:E;
     [apply String.eqb_eq in E; contradiction|reflexivity]). }
  assert (E2 : group_step (Some ([], [(ty, Some (JStr s))])) t2 = None).
  { destruct t2; try (exfalso; now apply H2); cbn [group_step group_get find fst];
    rewrite K2, String.eqb_refl; cbn [truthy negb];
    (destruct (String.eqb s "") eqn:E;
     [apply String.eqb_eq in E; contradiction|]);
    apply String.eqb_neq in T2; rewrite T2; reflexivity. }
  cbn [fold_left]. rewrite E1, E2.
  induction rows as [|r rows IH]; [reflexivity|exact IH].
Qed.

Definition detail_row1 : json :=
  JObj [("fs_id", JNum 7); ("url", JStr "u1"); ("thumbnail_type", JStr "url3")].
Definition detail_row2 : json :=
  JObj [("fs_id", JNum 7); ("url", JStr "u2"); ("thumbnail_type", JStr "url3")].
Definition detail_proto_row : json :=
  JObj [("fs_id", JStr "__proto__"); ("url", JStr "x"); ("thumbnail_type", JStr "polluted")].
Definition detail_victim_row : json :=
  JObj [("fs_id", JStr "polluted"); ("url", JStr "y"); ("thumbnail_type", JStr "url1")].

Lemma share_detail_grouping_witness :
  Forall (fun t => t <> JNull
                   /\ existsb (String.eqb (row_fs_key t)) object_proto_names = false)
         [detail_row1; detail_row2]
  /\ exists g', fold_left group_step [detail_row1; detail_row2] (Some ([], [])) = Some (g', [])
  /\ group_get g' "7"
     = fold_left (fun oo t => if String.eqb (row_fs_key t) "7"
                              then Some (obj_assign (match oo with Some o => o | None => [] end)
                                                    (row_ty_key t) (jfield (Some t) "url"))
                              else oo) [detail_row1; detail_row2] (group_get [] "7").
Proof.
  assert (H : Forall (fun t => t <> JNull
                   /\ existsb (String.eqb (row_fs_key t)) object_proto_names = false)
         [detail_row1; detail_row2]).
  { repeat constructor; discriminate. }
  split; [exact H|]. exact (share_detail_grouping [detail_row1; detail_row2] [] "7" H).
Defined.

Lemma share_detail_proto_throws_witness :
  fold_left group_step [detail_proto_row; detail_victim_row] (Some ([], [])) = None.
Proof.
  apply (share_detail_proto_throws detail_proto_row detail_victim_row [] "polluted" "x");
    try discriminate; reflexivity.
Defined.

(* ------------------------------------------------------------------ *)
(** ** [handleAdminFileDetail] *)

(** For a file row found by [handleAdminFileDetail], the [thumbs] object
    it answers with is the one [handleLookup] attaches to the same
    thumbnail rows ([thumbs_obj]); the two differ only when the query
    result has no truthy [results], where the admin view answers [{}]
    and the lookup throws. *)
Theorem handleAdminFileDetail_thumbs c fid f th :
  fid <> "" ->
  d1_first c (mkQuery "SELECT * FROM media_files WHERE fs_id = ?" [BStr fid])
    = IOk (Some f) ->
  truthy (Some f) = true ->
  d1_all c (mkQuery "SELECT url, thumbnail_type FROM thumbnails WHERE fs_id = ?" [BStr fid])
    = IOk th ->
  fst (handleAdminFileDetail (Some c) fid)
  = match thumbs_obj th with
    | Some o => RJson (JObj [("file", f); ("thumbs", obj_json o)])
    | None => if truthy (jfield th "results") then RThrow "TypeError"
              else RJson (JObj [("file", f); ("thumbs", JObj [])])
    end.
Proof.
  intros Hid Hf Ht Hth. unfold handleAdminFileDetail.
  destruct (String.eqb fid "") eqn:E; [apply String.eqb_eq in E; contradiction|].
  cbn [requireD1 d1_is_bound]. rewrite Hf, Ht. cbn [negb]. rewrite Hth.
  unfold admin_thumbs_obj, thumbs_obj, js_or.
  destruct (jfield th "results") as [[| b | n | s | rows | fs]|]; cbn [truthy];
    try reflexivity.
  - destruct b; reflexivity.
  - destruct (n =? 0); reflexivity.
  - destruct (String.eqb s ""); reflexivity.
  - match goal with |- context [fold_left ?g rows (Some [])] =>
      destruct (fold_left g rows (Some [])) end; reflexivity.
Qed.

(* ------------------------------------------------------------------ *)
(** ** [handleAdminKvEntry] *)

Lemma canonical_record_truthy e surl upstream file :
  truthy (Some (canonical_record e surl upstream file)) = true.
Proof. reflexivity. Qed.

(** [after_api] only appends to the trace, and every KV write it makes
    is to [share:<surl>] with a truthy record. *)
Ltac close_after_api H :=
  cbn in H; injection H as _ <-; cbn [trace];
  (eexists; split;
   [first [symmetry; apply app_nil_r|reflexivity|rewrite <- app_assoc; reflexivity]|];
   intros k v ttl Hk;
   repeat (destruct Hk as [Hk|Hk];
           [try discriminate Hk; injection Hk as <- <- _; split; reflexivity|]);
   destruct Hk).

Lemma after_api_puts e surl raw apiRes s0 r s1 :
  after_api e surl raw apiRes s0 = (r, s1) ->
  exists new, trace s1 = trace s0 ++ new
  /\ forall k v ttl, In (EKvPut k v ttl) new ->
     k = ("share:" ++ surl)%string /\ truthy (Some v) = true.
Proof.
  intros H. unfold after_api, kv_put, bind, ret, emit in H.
  destruct (negb (resp_ok apiRes)); [close_after_api H|].
  destruct (body_json apiRes) as [upstream|]; [|close_after_api H].
  destruct (negb (truthy (js_length_of (jfield (Some upstream) "list"))));
    [close_after_api H|].
  destruct (d1_bound e); destruct raw;
    first [destruct (some_dlink (jfield (Some upstream) "list")); close_after_api H
          |destruct (js_index0 (jfield (Some upstream) "list")) as [file|];
           [destruct file;
            (destruct (kv_bound e); [destruct (kv_put_fails e ("share:" ++ surl))|])|];
           close_after_api H].
Qed.

(** What the resolver caches is what the admin KV view shows: when
    [after_api] writes a record [v] under a key [k], and the KV namespace
    later returns [v] for [k], [handleAdminKvEntry] asked for the same
    [surl] answers [{surl, data: v}]. *)
Theorem admin_kv_entry_reads_cache msg e surl raw apiRes s0 r s1 new k v ttl e' p s :
  after_api e surl raw apiRes s0 = (r, s1) ->
  trace s1 = trace s0 ++ new ->
  In (EKvPut k v ttl) new ->
  kv_bound e' = true ->
  kv_get_json e' k = IOk (Some v) ->
  p "surl" = Some surl ->
  surl <> "" ->
  fst (handleAdminKvEntry msg e' p s) = RJson (JObj [("surl", JStr surl); ("data", v)]).
Proof.
  intros Ha Hn Hin Hb Hg Hp Hs.
  destruct (after_api_puts _ _ _ _ _ _ _ Ha) as [new' [Hn' Hput]].
  rewrite Hn in Hn'. apply app_inv_head in Hn'. subst new'.
  destruct (Hput _ _ _ Hin) as [-> Ht].
  unfold handleAdminKvEntry, kv_read_json, bind, ret, emit.
  rewrite Hb, Hp. cbn [requireKv].
  destruct (String.eqb surl "") eqn:E; [apply String.eqb_eq in E; contradiction|].
  cbn beta iota. rewrite Hg, Ht. reflexivity.
Qed.

Lemma handleAdminFileDetail_thumbs_witness :
  fst (handleAdminFileDetail (Some lookup_conn) "9")
  = match thumbs_obj (Some lookup_thumbs) with
    | Some o => RJson (JObj [("file", JObj lookup_file_fields); ("thumbs", obj_json o)])
    | None => if truthy (jfield (Some lookup_thumbs) "results") then RThrow "TypeError"
              else RJson (JObj [("file", JObj lookup_file_fields); ("thumbs", JObj [])])
    end.
Proof.
  apply handleAdminFileDetail_thumbs; [discriminate|reflexivity|reflexivity|reflexivity].
Defined.

Definition kv_env : env :=
  mkEnv true (fun _ => IOk None) (fun _ => IOk None) (fun _ => false) (fun _ => false)
        false (fun _ => IOk None) "" 1700000000000.

Definition kv_file : json := JObj [("fs_id", JNum 5); ("server_filename", JStr "a.mp4")].
Definition kv_upstream : json := JObj [("list", JArr [kv_file])].
Definition kv_api : http_response := mkResp 200 "" (Some kv_upstream).
Definition kv_record : json := canonical_record kv_env "abc" kv_upstream kv_file.
Definition kv_run : response * st := after_api kv_env "abc" false kv_api (mkSt [] []).

Definition kv_env' : env :=
  mkEnv true (fun _ => IOk (Some kv_record)) (fun _ => IOk None) (fun _ => false)
        (fun _ => false) false (fun _ => IOk None) "" 0.

Lemma admin_kv_entry_reads_cache_witness :
  fst (handleAdminKvEntry "" kv_env' (params_of [("surl", "abc")]) (mkSt [] []))
  = RJson (JObj [("surl", JStr "abc"); ("data", kv_record)]).
Proof.
  apply (admin_kv_entry_reads_cache "" kv_env "abc" false kv_api (mkSt [] [])
           (fst kv_run) (snd kv_run) (trace (snd kv_run)) ("share:abc") kv_record
           (7 * 24 * 60 * 60) kv_env' (params_of [("surl", "abc")]) (mkSt [] []));
    [reflexivity|reflexivity|vm_compute; tauto|reflexivity|reflexivity|reflexivity
    |discriminate].
Defined.

(* ------------------------------------------------------------------ *)
(** ** [buildHeaders] and [handleSegment]'s forwarded headers *)

Definition fold_set (L o : jsobj) : jsobj :=
  fold_left (fun acc p => obj_set acc (fst p) (snd p)) L o.

Lemma fold_set_keys L o k :
  In k (map fst (fold_set L o)) <-> In k (map fst o) \/ In k (map fst L).
Proof.
  revert o. induction L as [|[k' v'] L IH]; intros o; cbn [fold_set fold_left].
  - cbn. tauto.
  - unfold fold_set in IH. rewrite IH, obj_set_in. cbn [map fst In]. intuition.
Qed.

Lemma fold_set_nodup L o : NoDup (map fst o) -> NoDup (map fst (fold_set L o)).
Proof.
  revert o. induction L as [|[k' v'] L IH]; intros o H; [exact H|].
  apply (IH (obj_set o k' v')), obj_set_nodup, H.
Qed.

Lemma fold_set_get_notin L o k :
  ~ In k (map fst L) -> obj_get (fold_set L o) k = obj_get o k.
Proof.
  revert o. induction L as [|[k' v'] L IH]; intros o H; [reflexivity|].
  cbn [map fst In] in H. unfold fold_set. cbn [fold_left].
  fold (fold_set L (obj_set o (fst (k', v')) (snd (k', v')))).
  rewrite IH by tauto. cbn [fst snd]. apply obj_get_set_other. intros ->. tauto.
Qed.

Lemma fold_set_get_in L o k v :
  NoDup (map fst L) -> In (k, v) L -> obj_get (fold_set L o) k = v.
Proof.
  revert o. induction L as [|[k' v'] L IH]; intros o Hnd Hin; [destruct Hin|].
  cbn [map fst] in Hnd. apply NoDup_cons_iff in Hnd as [Hk' Hnd].
  unfold fold_set. cbn [fold_left].
  fold (fold_set L (obj_set o (fst (k', v')) (snd (k', v')))). cbn [fst snd].
  destruct Hin as [E|Hin].
  - injection E as -> ->. rewrite fold_set_get_notin by exact Hk'.
    apply obj_get_set_same.
  - exact (IH _ Hnd Hin).
Qed.

Lemma obj_get_mem o k : In k (map fst o) -> In (k, obj_get o k) o.
Proof.
  induction o as [|[k' v'] o IH]; intros H; [destruct H|].
  rewrite obj_get_cons. destruct (String.eqb k' k) eqn:E.
  - apply String.eqb_eq in E. subst. left. reflexivity.
  - right. apply IH. destruct H as [H|H]; [|exact H].
    cbn in H. subst. rewrite String.eqb_refl in E. discriminate.
Qed.

Lemma key_order_keys src k : In k (map fst (js_key_order src)) <-> In k (map fst src).
Proof.
  split; apply Permutation_in, Permutation_map;
    [|symmetry]; apply js_key_order_perm.
Qed.

Lemma spread_into_keys o src k :
  In k (map fst (spread_into o src)) <-> In k (map fst o) \/ In k (map fst src).
Proof. unfold spread_into. fold (fold_set (js_key_order src) o).
  rewrite fold_set_keys, key_order_keys. tauto. Qed.

Lemma spread_into_nodup o src : NoDup (map fst o) -> NoDup (map fst (spread_into o src)).
Proof. apply fold_set_nodup. Qed.

Lemma spread_into_get_in o src k :
  NoDup (map fst src) -> In k (map fst src) -> obj_get (spread_into o src) k = obj_get src k.
Proof.
  intros Hnd Hin. unfold spread_into. fold (fold_set (js_key_order src) o).
  apply fold_set_get_in.
  - eapply Permutation_NoDup; [|exact Hnd].
    apply Permutation_map. symmetry. apply js_key_order_perm.
  - eapply Permutation_in; [symmetry; apply js_key_order_perm|].
    apply obj_get_mem, Hin.
Qed.

Lemma spread_into_get_notin o src k :
  ~ In k (map fst src) -> obj_get (spread_into o src) k = obj_get o k.
Proof.
  intros H. unfold spread_into. fold (fold_set (js_key_order src) o).
  apply fold_set_get_notin. rewrite key_order_keys. exact H.
Qed.

Definition forwarded_names : list string :=
  ["Range"; "If-Range"; "If-Modified-Since"; "If-None-Match"; "Accept-Encoding"].

Lemma forward_header_keys get o n k :
  In k (map fst (forward_header get o n)) -> k = n \/ In k (map fst o).
Proof.
  unfold forward_header. destruct (get n) as [v|]; [|tauto].
  destruct (String.eqb v ""); [tauto|]. rewrite obj_set_in. tauto.
Qed.

Lemma forward_header_nodup get o n :
  NoDup (map fst o) -> NoDup (map fst (forward_header get o n)).
Proof.
  unfold forward_header. destruct (get n); [|tauto].
  destruct (String.eqb _ ""); [tauto|apply obj_set_nodup].
Qed.

Lemma forward_header_other get o n k :
  n <> k -> obj_get (forward_header get o n) k = obj_get o k.
Proof.
  intros H. unfold forward_header. destruct (get n); [|reflexivity].
  destruct (String.eqb _ ""); [reflexivity|]. apply obj_get_set_other, H.
Qed.

Lemma forward_header_same get o n v :
  get n = Some v -> v <> "" -> obj_get (forward_header get o n) n = Some (JStr v).
Proof.
  intros Hg Hv. unfold forward_header. rewrite Hg.
  destruct (String.eqb v "") eqn:E; [apply String.eqb_eq in E; contradiction|].
  apply obj_get_set_same.
Qed.

Lemma forwardHeaders_keys get k :
  In k (map fst (forwardHeaders get)) -> In k forwarded_names.
Proof.
  unfold forwardHeaders, forwarded_names. intros H.
  repeat (apply forward_header_keys in H as [H|H]; [subst; cbn; tauto|]).
  destruct H.
Qed.

Lemma forwardHeaders_nodup get : NoDup (map fst (forwardHeaders get)).
Proof.
  unfold forwardHeaders. repeat apply forward_header_nodup. constructor.
Qed.

Lemma forwardHeaders_get get n v :
  In n forwarded_names -> get n = Some v -> v <> "" ->
  obj_get (forwardHeaders get) n = Some (JStr v).
Proof.
  intros Hn Hg Hv. unfold forwardHeaders, forwarded_names in *.
  cbn [In] in Hn.
  destruct Hn as [<-|[<-|[<-|[<-|[<-|[]]]]]];
    repeat (first [apply forward_header_same; assumption
                  |rewrite forward_header_other by discriminate]).
Qed.

(** [handleSegment]'s upstream fetch carries exactly the headers it
    names: its own [User-Agent] and [Referer], the request's [Range],
    [If-Range], [If-Modified-Since], [If-None-Match], [Accept-Encoding]
    and [Cookie] values when non-empty, and no other request header. *)
Theorem segment_headers_allowlist get :
  (forall k, In k (map fst (segment_headers get)) ->
     In k (["User-Agent"; "Referer"] ++ forwarded_names ++ ["Cookie"]))
  /\ (forall n v, In n (forwarded_names ++ ["Cookie"]) -> get n = Some v -> v <> "" ->
        obj_get (segment_headers get) n = Some (JStr v))
  /\ obj_get (segment_headers get) "User-Agent" = Some (JStr default_user_agent)
  /\ obj_get (segment_headers get) "Referer" = Some (JStr "https://www.terabox.com/").
Proof.
  set (extra := spread_into [("Referer", Some (JStr "https://www.terabox.com/"))]
                            (forwardHeaders get)).
  assert (Hek : forall k, In k (map fst extra) -> k = "Referer" \/ In k forwarded_names).
  { intros k H. unfold extra in H. rewrite spread_into_keys in H. cbn [map fst In] in H.
    destruct H as [[H|[]]|H]; [left; symmetry; exact H|right; exact (forwardHeaders_keys get k H)]. }
  assert (Hend : NoDup (map fst extra)).
  { apply spread_into_nodup. repeat constructor. intros []. }
  assert (Hnot : forall k, In k forwarded_names -> k <> "Referer").
  { intros k Hk ->. cbn in Hk. intuition discriminate. }
  assert (Hfwd : forall n, In n forwarded_names ->
             obj_get extra n = obj_get (forwardHeaders get) n).
  { intros n Hn. unfold extra.
    destruct (in_dec string_dec n (map fst (forwardHeaders get))) as [Hin|Hin].
    - apply spread_into_get_in; [apply forwardHeaders_nodup|exact Hin].
    - rewrite spread_into_get_notin by exact Hin. rewrite (obj_get_notin (forwardHeaders get) n Hin).
      rewrite obj_get_cons. destruct (String.eqb "Referer" n) eqn:E; [|reflexivity].
      apply String.eqb_eq in E. exfalso. exact (Hnot n Hn (eq_sym E)). }
  assert (Hua : obj_get (spread_into [("User-Agent", Some (JStr default_user_agent))] extra)
                        "User-Agent" = Some (JStr default_user_agent)).
  { rewrite spread_into_get_notin; [reflexivity|].
    intros H. apply Hek in H as [H|H]; [discriminate|]. cbn in H. intuition discriminate. }
  assert (Hbody : forall k, k <> "Cookie" ->
     obj_get (segment_headers get) k
     = obj_get (spread_into [("User-Agent", Some (JStr default_user_agent))] extra) k).
  { intros k Hk. unfold segment_headers, buildHeaders. fold extra.
    destruct (get "Cookie") as [c|]; [|reflexivity].
    destruct (String.eqb c ""); [reflexivity|]. apply obj_get_set_other. congruence. }
  split; [|split; [|split]].
  - intros k H. unfold segment_headers, buildHeaders in H. fold extra in H.
    assert (H' : k = "Cookie" \/ In k (map fst (spread_into
                   [("User-Agent", Some (JStr default_user_agent))] extra))).
    { destruct (get "Cookie") as [c|]; [|tauto].
      destruct (String.eqb c ""); [tauto|]. apply obj_set_in in H. exact H. }
    rewrite !in_app_iff. cbn [In].
    destruct H' as [->|H']; [tauto|].
    apply spread_into_keys in H' as [[H'|[]]|H']; [left; left; exact H'|].
    apply Hek in H' as [->|H']; [left; right; left; reflexivity|tauto].
  - intros n v Hn Hg Hv. apply in_app_iff in Hn as [Hn|[<-|[]]].
    + rewrite Hbody by (intros ->; cbn in Hn; intuition discriminate).
      assert (Hin : In n (map fst extra)).
      { unfold extra. apply spread_into_keys. right.
        destruct (in_dec string_dec n (map fst (forwardHeaders get))) as [I|I];
          [exact I|exfalso].
        pose proof (forwardHeaders_get get n v Hn Hg Hv) as G.
        rewrite (obj_get_notin _ _ I) in G. discriminate. }
      rewrite spread_into_get_in by assumption. rewrite Hfwd by exact Hn.
      apply forwardHeaders_get; assumption.
    + unfold segment_headers, buildHeaders. rewrite Hg.
      destruct (String.eqb v "") eqn:E; [apply String.eqb_eq in E; contradiction|].
      apply obj_get_set_same.
  - rewrite Hbody by discriminate. exact Hua.
  - rewrite Hbody by discriminate. rewrite spread_into_get_in; [|exact Hend|].
    + unfold extra. rewrite spread_into_get_notin; [reflexivity|].
      intros H. apply forwardHeaders_keys in H. exact (Hnot _ H eq_refl).
    + unfold extra. apply spread_into_keys. left. left. reflexivity.
Qed.
